(** * go-martini: RTIN mesh extraction (martini.go), shallow embedding

    The embedding follows [martini.go]:
    - [NewMartini] builds the triangle coordinate table,
    - [Update] computes the per-vertex error field of a tile,
    - [countElements], [processTriangle] and [GetMesh] extract a mesh.

    Go's [int] is modelled by [Z]: every [int] the program computes is
    bounded by a small multiple of [gridSize * gridSize], the length of
    a slice the program has to allocate first, so it stays far inside
    the 64-bit range on every run that gets past its allocations.
    [uint16] values do wrap on realistic grids; they are modelled by
    [Z] with the reduction modulo [2^16] written out ([u16]).
    [float64] is modelled by the primitive binary64 floats. *)

From Stdlib Require Import ZArith Lia List Bool Floats String.
From stdpp Require Import base tactics option list numbers gmap.
Import ListNotations.
Local Open Scope Z_scope.
#[local] Set Warnings "-clear-no-such-hyp".

(** ** Outcomes of a Go call *)

Inductive result (A : Type) : Type :=
| Ok (a : A)            (* normal return *)
| Err (msg : string)    (* a non-nil [error] is returned *)
| Panic                 (* run-time panic: index out of range, negative [make] *)
| OutOfFuel.            (* the bounded unrolling of a loop or recursion ran out *)
Arguments Ok {A} a.
Arguments Err {A} msg.
Arguments Panic {A}.
Arguments OutOfFuel {A}.

Definition bind {A B} (r : result A) (k : A -> result B) : result B :=
  match r with
  | Ok a => k a
  | Err m => Err m
  | Panic => Panic
  | OutOfFuel => OutOfFuel
  end.

Notation "'let*' x ':=' e 'in' k" := (bind e (fun x => k))
  (at level 10, x name, e at level 200, k at level 200).

(** Monadic left fold: the body of a [for] loop run over the loop's
    index values. *)
Fixpoint foldM {A S} (f : S -> A -> result S) (l : list A) (s : S) : result S :=
  match l with
  | [] => Ok s
  | x :: l' => let* s' := f s x in foldM f l' s'
  end.

(** ** Slices *)

(** [s[i]] as an r-value: panics out of range. *)
Definition load {A} (s : list A) (i : Z) : result A :=
  if i <? 0 then Panic
  else match s !! Z.to_nat i with
       | Some x => Ok x
       | None => Panic
       end.

(** [s[i] = x]: panics out of range. *)
Definition store {A} (s : list A) (i : Z) (x : A) : result (list A) :=
  if (0 <=? i) && (i <? Z.of_nat (length s))
  then Ok (<[Z.to_nat i := x]> s)
  else Panic.

(** [make([]T, n)], zero-initialised; panics on a negative length. *)
Definition make {A} (zero : A) (n : Z) : result (list A) :=
  if n <? 0 then Panic else Ok (replicate (Z.to_nat n) zero).

(** ** uint16 *)

Definition u16 (x : Z) : Z := x mod 65536.

(** ** The coordinate table: [NewMartini] *)

Record Martini : Type := mkMartini {
  GridSize : Z;
  NumTriangles : Z;
  NumParentTriangles : Z;
  Indices : list Z;   (* []uint16 *)
  Coords : list Z     (* []uint16 *)
}.

(** The six locals [ax ay bx by cx cy] of the table loop. *)
Record corners : Type := mkCorners {
  c_ax : Z; c_ay : Z; c_bx : Z; c_by : Z; c_cx : Z; c_cy : Z
}.

(** Lines 38-46: the two root triangles, chosen by the low bit of [id]. *)
Definition root_corners (tileSize id : Z) : corners :=
  if Z.land id 1 >? 0
  then mkCorners 0 0 tileSize tileSize tileSize 0
  else mkCorners tileSize tileSize 0 0 0 tileSize.

(** Lines 50-52 and 170-171: the midpoint of the hypotenuse [a b]. *)
Definition mid_x (t : corners) : Z := Z.shiftr (c_ax t + c_bx t) 1.
Definition mid_y (t : corners) : Z := Z.shiftr (c_ay t + c_by t) 1.

(** Lines 53-57 with 64-65: the left half, [b, a <- a, c] and [c <- m]. *)
Definition left_half (t : corners) : corners :=
  mkCorners (c_cx t) (c_cy t) (c_ax t) (c_ay t) (mid_x t) (mid_y t).

(** Lines 58-63 with 64-65: the right half, [a, b <- b, c] and [c <- m]. *)
Definition right_half (t : corners) : corners :=
  mkCorners (c_bx t) (c_by t) (c_cx t) (c_cy t) (mid_x t) (mid_y t).

(** Lines 50-65: one bisection step, chosen by the low bit of [id]. *)
Definition bisect_step (id : Z) (t : corners) : corners :=
  if Z.land id 1 >? 0 then left_half t else right_half t.

(** Lines 49-70: [for { ...; id >>= 1; if id <= 1 { break } }]. *)
Fixpoint bisect_loop (fuel : nat) (id : Z) (t : corners) : result corners :=
  match fuel with
  | O => OutOfFuel
  | S fuel' =>
      let t' := bisect_step id t in
      let id' := Z.shiftr id 1 in
      if id' <=? 1 then Ok t' else bisect_loop fuel' id' t'
  end.

(** Lines 31-71: the corners of table entry [i]. *)
Definition triangle_corners (tileSize i : Z) : result corners :=
  let id := i + 2 in
  let t := root_corners tileSize id in
  let id := Z.shiftr id 1 in
  if id >? 1 then bisect_loop (S (Z.to_nat (Z.log2 id))) id t else Ok t.

(** Lines 30-78: one iteration of the table loop. *)
Definition coords_step (tileSize : Z) (coords : list Z) (i : Z) : result (list Z) :=
  let* t := triangle_corners tileSize i in
  let k := i * 4 in
  let* c0 := store coords (k + 0) (u16 (c_ax t)) in
  let* c1 := store c0 (k + 1) (u16 (c_ay t)) in
  let* c2 := store c1 (k + 2) (u16 (c_bx t)) in
  store c2 (k + 3) (u16 (c_by t)).

Definition NewMartini (gridSize : Z) : result Martini :=
  let tileSize := gridSize - 1 in
  if Z.land tileSize (tileSize - 1) >? 0
  then Err "Expected grid size to be 2^n+1"
  else
    let numTriangles := tileSize * tileSize * 2 - 2 in
    let numParentTriangles := numTriangles - tileSize * tileSize in
    let* indices := make 0 (gridSize * gridSize) in
    let* coords := make 0 (numTriangles * 4) in
    let* coords' := foldM (coords_step tileSize) (seqZ 0 numTriangles) coords in
    Ok (mkMartini gridSize numTriangles numParentTriangles indices coords').

(** ** float64 helpers from Go's [math] package *)

(** [math.Abs] clears the sign bit. *)
Definition goabs (x : float) : float := PrimFloat.abs x.

(** [math.Max], with its special cases in the order of the Go source:
    [+Inf] wins, then [NaN], then the signed zeros, then the comparison. *)
Definition gomax (x y : float) : float :=
  if PrimFloat.eqb x infinity || PrimFloat.eqb y infinity then infinity
  else if is_nan x || is_nan y then nan
  else if PrimFloat.eqb x 0 && PrimFloat.eqb x y
       then (if get_sign x then y else x)
  else if PrimFloat.ltb y x then x else y.

(** Go's [x > y] on float64. *)
Definition fgt (x y : float) : bool := PrimFloat.ltb y x.

(** ** Tiles: [NewTile] and [Update] *)

(** A tile holds a pointer to its [Martini]; the embedding carries the
    pointed-to value, and an operation that writes through the pointer
    returns the tile with the updated value. *)
Record Tile : Type := mkTile {
  Terrain : list float;
  TileMartini : Martini;
  Errors : list float
}.

(** Lines 108-128: one iteration of the loop of [Update]. The locals
    [ax ay bx by mx my cx cy] are uint16. *)
Definition update_step (size numParent : Z) (coords : list Z) (terrain : list float)
    (errors : list float) (i : Z) : result (list float) :=
  let k := i * 4 in
  let* ax := load coords (k + 0) in
  let* ay := load coords (k + 1) in
  let* bx := load coords (k + 2) in
  let* by_ := load coords (k + 3) in
  let mx := Z.shiftr (u16 (ax + bx)) 1 in
  let my := Z.shiftr (u16 (ay + by_)) 1 in
  let cx := u16 (u16 (mx + my) - ay) in
  let cy := u16 (u16 (my + ax) - mx) in
  let* ta := load terrain (ay * size + ax) in
  let* tb := load terrain (by_ * size + bx) in
  let interpolatedHeight := ((ta + tb) / 2)%float in
  let middleIndex := my * size + mx in
  let* tm := load terrain middleIndex in
  let middleError := goabs (interpolatedHeight - tm)%float in
  let* em := load errors middleIndex in
  let* errors1 := store errors middleIndex (gomax em middleError) in
  if i <? numParent then
    let leftChildIndex := Z.shiftr (u16 (ay + cy)) 1 * size + Z.shiftr (u16 (ax + cx)) 1 in
    let rightChildIndex := Z.shiftr (u16 (by_ + cy)) 1 * size + Z.shiftr (u16 (bx + cx)) 1 in
    let* em1 := load errors1 middleIndex in
    let* el := load errors1 leftChildIndex in
    let* er := load errors1 rightChildIndex in
    store errors1 middleIndex (gomax (gomax em1 el) er)
  else Ok errors1.

(** The loop of [Update]: [i] runs from [NumTriangles - 1] down to [0]. *)
Definition update_errors (m : Martini) (terrain errors : list float) : result (list float) :=
  foldM (update_step (GridSize m) (NumParentTriangles m) (Coords m) terrain)
        (reverse (seqZ 0 (NumTriangles m))) errors.

Definition Update (t : Tile) : result Tile :=
  let* errors := update_errors (TileMartini t) (Terrain t) (Errors t) in
  Ok (mkTile (Terrain t) (TileMartini t) errors).

Definition NewTile (terrain : list float) (martini : Martini) : result Tile :=
  let size := GridSize martini in
  if negb (Z.of_nat (length terrain) =? size * size)
  then Err "Expected terrain data of length "
  else
    let* errors := make 0%float (Z.of_nat (length terrain)) in
    Update (mkTile terrain martini errors).

Definition CreateTile (m : Martini) (terrain : list float) : result Tile :=
  NewTile terrain m.

(** ** Mesh extraction *)

(** The test of lines 146 and 173; [&&] evaluates [t.Errors[...]] only
    when the triangle is larger than a unit triangle. *)
Definition subdivides (size : Z) (errors : list float) (maxError : float)
    (ax ay bx by_ cx cy : Z) : result bool :=
  let mx := Z.shiftr (ax + bx) 1 in
  let my := Z.shiftr (ay + by_) 1 in
  if Z.abs (ax - cx) + Z.abs (ay - cy) >? 1 then
    let* e := load errors (my * size + mx) in
    Ok (fgt e maxError)
  else Ok false.

(** The state the count pass works on: the shared [Indices] and the two
    counters passed by pointer. *)
Record CountState : Type := mkCount {
  cs_indices : list Z;
  cs_numTriangles : Z;
  cs_numVertices : Z
}.

(** Lines 150-153 (and 154-157, 158-161): give the vertex an index
    unless its entry of [Indices] is non-zero. *)
Definition count_vertex (size x y : Z) (st : CountState) : result CountState :=
  let* v := load (cs_indices st) (y * size + x) in
  if v =? 0 then
    let nv := cs_numVertices st + 1 in
    let* idx := store (cs_indices st) (y * size + x) (u16 nv) in
    Ok (mkCount idx (cs_numTriangles st) nv)
  else Ok st.

(** Lines 150-162: the [else] branch of [countElements]. *)
Definition count_leaf (size ax ay bx by_ cx cy : Z) (st : CountState) : result CountState :=
  let* st1 := count_vertex size ax ay st in
  let* st2 := count_vertex size bx by_ st1 in
  let* st3 := count_vertex size cx cy st2 in
  Ok (mkCount (cs_indices st3) (cs_numTriangles st3 + 1) (cs_numVertices st3)).

Fixpoint countElements (fuel : nat) (size : Z) (errors : list float)
    (ax ay bx by_ cx cy : Z) (maxError : float) (st : CountState) : result CountState :=
  match fuel with
  | O => OutOfFuel
  | S fuel' =>
      let mx := Z.shiftr (ax + bx) 1 in
      let my := Z.shiftr (ay + by_) 1 in
      let* split := subdivides size errors maxError ax ay bx by_ cx cy in
      if split : bool then
        let* st1 := countElements fuel' size errors cx cy ax ay mx my maxError st in
        countElements fuel' size errors bx by_ cx cy mx my maxError st1
      else count_leaf size ax ay bx by_ cx cy st
  end.

(** The state of the emit pass: [*triIndex] and the two output slices. *)
Record EmitState : Type := mkEmit {
  es_triIndex : Z;
  es_vertices : list Z;
  es_triangles : list Z
}.

(** Lines 178-196: the [else] branch of [processTriangle]. [a], [b],
    [c] are uint16, and so are the index expressions [2*a], [2*a+1]. *)
Definition emit_leaf (size : Z) (indices : list Z) (ax ay bx by_ cx cy : Z)
    (st : EmitState) : result EmitState :=
  let* ia := load indices (ay * size + ax) in
  let* ib := load indices (by_ * size + bx) in
  let* ic := load indices (cy * size + cx) in
  let a := u16 (ia - 1) in
  let b := u16 (ib - 1) in
  let c := u16 (ic - 1) in
  let* v1 := store (es_vertices st) (u16 (2 * a)) (u16 ax) in
  let* v2 := store v1 (u16 (u16 (2 * a) + 1)) (u16 ay) in
  let* v3 := store v2 (u16 (2 * b)) (u16 bx) in
  let* v4 := store v3 (u16 (u16 (2 * b) + 1)) (u16 by_) in
  let* v5 := store v4 (u16 (2 * c)) (u16 cx) in
  let* v6 := store v5 (u16 (u16 (2 * c) + 1)) (u16 cy) in
  let i := es_triIndex st in
  let* t1 := store (es_triangles st) i a in
  let* t2 := store t1 (i + 1) b in
  let* t3 := store t2 (i + 2) c in
  Ok (mkEmit (i + 3) v6 t3).

Fixpoint processTriangle (fuel : nat) (size : Z) (errors : list float) (indices : list Z)
    (ax ay bx by_ cx cy : Z) (maxError : float) (st : EmitState) : result EmitState :=
  match fuel with
  | O => OutOfFuel
  | S fuel' =>
      let mx := Z.shiftr (ax + bx) 1 in
      let my := Z.shiftr (ay + by_) 1 in
      let* split := subdivides size errors maxError ax ay bx by_ cx cy in
      if split : bool then
        let* st1 := processTriangle fuel' size errors indices cx cy ax ay mx my maxError st in
        processTriangle fuel' size errors indices bx by_ cx cy mx my maxError st1
      else emit_leaf size indices ax ay bx by_ cx cy st
  end.

(** The mesh returned by [GetMesh], with the tile as the call leaves it. *)
Record Mesh : Type := mkMesh {
  vertices : list Z;
  triangles : list Z
}.

Definition with_indices (t : Tile) (indices : list Z) : Tile :=
  let m := TileMartini t in
  mkTile (Terrain t)
         (mkMartini (GridSize m) (NumTriangles m) (NumParentTriangles m) indices (Coords m))
         (Errors t).

(** [GetMesh]; [fuel] bounds the depth of the recursive calls. *)
Definition GetMesh (fuel : nat) (t : Tile) (maxError : float) : result (Mesh * Tile) :=
  let m := TileMartini t in
  let size := GridSize m in
  let max := size - 1 in
  let indices0 := replicate (length (Indices m)) 0 in
  let* st1 := countElements fuel size (Errors t) 0 0 max max max 0 maxError
                            (mkCount indices0 0 0) in
  let* st2 := countElements fuel size (Errors t) max max 0 0 0 max maxError st1 in
  let* vs := make 0 (cs_numVertices st2 * 2) in
  let* ts := make 0 (cs_numTriangles st2 * 3) in
  let indices := cs_indices st2 in
  let* e1 := processTriangle fuel size (Errors t) indices 0 0 max max max 0 maxError
                             (mkEmit 0 vs ts) in
  let* e2 := processTriangle fuel size (Errors t) indices max max 0 0 0 max maxError e1 in
  Ok (mkMesh (es_vertices e2) (es_triangles e2), with_indices t indices).


(** * Properties *)

(** ** The result monad and slices *)

Lemma bind_Ok {A B} (r : result A) (k : A -> result B) (b : B) :
  bind r k = Ok b <-> exists a, r = Ok a /\ k a = Ok b.
Proof.
  destruct r; simpl; split; intros H; try discriminate; eauto.
  - destruct H as (a' & [= ->] & H). exact H.
  - destruct H as (? & ? & _); discriminate.
  - destruct H as (? & ? & _); discriminate.
  - destruct H as (? & ? & _); discriminate.
Qed.

Lemma load_Ok {A} (s : list A) (i : Z) (x : A) :
  load s i = Ok x <-> 0 <= i /\ s !! Z.to_nat i = Some x.
Proof.
  unfold load. destruct (Z.ltb_spec i 0).
  - split; [discriminate | lia].
  - destruct (s !! Z.to_nat i); split; intros H'; try discriminate.
    + injection H' as ->. auto.
    + destruct H' as [_ [= ->]]. reflexivity.
    + destruct H' as [_ [=]].
Qed.

Lemma load_in_range {A} (s : list A) (i : Z) :
  0 <= i < Z.of_nat (length s) -> exists x, load s i = Ok x.
Proof.
  intros Hi. destruct (lookup_lt_is_Some_2 s (Z.to_nat i)) as [x Hx]; [lia|].
  exists x. apply load_Ok. split; [lia | exact Hx].
Qed.

Lemma store_in_range {A} (s : list A) (i : Z) (x : A) :
  0 <= i < Z.of_nat (length s) -> store s i x = Ok (<[Z.to_nat i := x]> s).
Proof.
  intros Hi. unfold store.
  destruct (Z.leb_spec 0 i); [|lia]. destruct (Z.ltb_spec i (Z.of_nat (length s))); [|lia].
  reflexivity.
Qed.

Lemma store_Ok {A} (s s' : list A) (i : Z) (x : A) :
  store s i x = Ok s' <-> 0 <= i < Z.of_nat (length s) /\ s' = <[Z.to_nat i := x]> s.
Proof.
  unfold store.
  destruct (Z.leb_spec 0 i); destruct (Z.ltb_spec i (Z.of_nat (length s))); simpl;
    split; intros H'; try discriminate; try lia.
  - injection H' as <-. split; [lia | reflexivity].
  - destruct H' as [_ ->]. reflexivity.
Qed.

Lemma load_replicate {A} (x : A) (n : nat) (i : Z) :
  0 <= i < Z.of_nat n -> load (replicate n x) i = Ok x.
Proof.
  intros Hi. apply load_Ok. split; [lia|]. apply lookup_replicate_2. lia.
Qed.

Lemma u16_range (x : Z) : 0 <= u16 x < 65536.
Proof. unfold u16. apply Z.mod_pos_bound. lia. Qed.

Lemma u16_small (x : Z) : 0 <= x < 65536 -> u16 x = x.
Proof. intros H. unfold u16. apply Z.mod_small. exact H. Qed.

(** ** The grid-size test of [NewMartini] *)

Lemma land_pred_pow2 (n : Z) : 0 <= n -> Z.land (2 ^ n) (2 ^ n - 1) = 0.
Proof.
  intros Hn. replace (2 ^ n - 1) with (Z.ones n) by (rewrite Z.ones_equiv; lia).
  rewrite Z.land_ones by exact Hn. apply Z.mod_same. lia.
Qed.

Lemma land_pred_zero_pow2 (t : Z) :
  1 <= t -> Z.land t (t - 1) = 0 -> t = 2 ^ Z.log2 t.
Proof.
  intros Ht Hl.
  destruct (Z.log2_spec t) as [Hlo Hhi]; [lia|].
  destruct (Z.eq_dec t (2 ^ Z.log2 t)) as [|Hne]; [assumption|exfalso].
  assert (Hlog : Z.log2 (t - 1) = Z.log2 t).
  { apply Z.log2_unique; [apply Z.log2_nonneg | lia]. }
  assert (Hpos : 0 < 2 ^ Z.log2 t) by (apply Z.pow_pos_nonneg; [lia | apply Z.log2_nonneg]).
  assert (Hb1 : Z.testbit t (Z.log2 t) = true) by (apply Z.bit_log2; lia).
  assert (Hb2 : Z.testbit (t - 1) (Z.log2 t) = true).
  { rewrite <- Hlog. apply Z.bit_log2. lia. }
  assert (Hb : Z.testbit (Z.land t (t - 1)) (Z.log2 t) = true).
  { rewrite Z.land_spec, Hb1, Hb2. reflexivity. }
  rewrite Hl, Z.bits_0 in Hb. discriminate.
Qed.

(** For a tile size of at least one, the test of line 23 passes exactly
    on the powers of two. *)
Lemma grid_test_pow2 (t : Z) :
  1 <= t -> (Z.land t (t - 1) >? 0) = false <-> exists n, 0 <= n /\ t = 2 ^ n.
Proof.
  intros Ht. split.
  - intros H. exists (Z.log2 t). split; [apply Z.log2_nonneg|].
    apply land_pred_zero_pow2; [exact Ht|].
    assert (0 <= Z.land t (t - 1)) by (apply Z.land_nonneg; lia).
    destruct (Z.gtb_spec (Z.land t (t - 1)) 0); [discriminate | lia].
  - intros (n & Hn & ->). rewrite land_pred_pow2 by exact Hn. reflexivity.
Qed.

(** ** The triangle of a table entry *)

(** The bisections selected by the bits of [p], least significant
    first; the top bit of [p] ends the path. *)
Fixpoint path_corners (p : positive) (t : corners) : corners :=
  match p with
  | xH => t
  | xO q => path_corners q (right_half t)
  | xI q => path_corners q (left_half t)
  end.

(** The triangle with the (offset) id [p >= 2]: the lowest bit selects
    the root, the bits above it the path. *)
Definition corners_of (tileSize : Z) (p : positive) : corners :=
  match p with
  | xH => root_corners tileSize 1
  | xO q => path_corners q (root_corners tileSize 0)
  | xI q => path_corners q (root_corners tileSize 1)
  end.

Lemma bisect_loop_path (p : positive) :
  forall (t : corners) (fuel : nat),
    p <> 1%positive -> (Pos.size_nat p <= S fuel)%nat ->
    bisect_loop fuel (Z.pos p) t = Ok (path_corners p t).
Proof.
  induction p as [q IH | q IH |]; intros t fuel Hp Hf; [| |congruence].
  - destruct fuel as [|fuel]; [destruct q; simpl in Hf; lia|].
    simpl in Hf. cbn [bisect_loop path_corners].
    replace (Z.shiftr (Z.pos q~1) 1) with (Z.pos q) by reflexivity.
    replace (bisect_step (Z.pos q~1) t) with (left_half t) by reflexivity.
    destruct (Pos.eq_dec q 1%positive) as [->|Hq]; [reflexivity|].
    destruct (Z.leb_spec (Z.pos q) 1); [lia|]. apply IH; [exact Hq | lia].
  - destruct fuel as [|fuel]; [destruct q; simpl in Hf; lia|].
    simpl in Hf. cbn [bisect_loop path_corners].
    replace (Z.shiftr (Z.pos q~0) 1) with (Z.pos q) by reflexivity.
    replace (bisect_step (Z.pos q~0) t) with (right_half t) by reflexivity.
    destruct (Pos.eq_dec q 1%positive) as [->|Hq]; [reflexivity|].
    destruct (Z.leb_spec (Z.pos q) 1); [lia|]. apply IH; [exact Hq | lia].
Qed.

Lemma size_to_nat (q : positive) : Pos.to_nat (Pos.size q) = Pos.size_nat q.
Proof.
  induction q as [r IH | r IH |]; simpl; [| |reflexivity];
    rewrite Pos2Nat.inj_succ, IH; reflexivity.
Qed.

Lemma log2_size_nat (q : positive) :
  q <> 1%positive -> S (Z.to_nat (Z.log2 (Z.pos q))) = Pos.size_nat q.
Proof.
  intros Hq. destruct q as [r | r |]; [| |congruence]; simpl;
    rewrite Z2Nat.inj_pos, size_to_nat; reflexivity.
Qed.

Lemma triangle_corners_spec (tileSize i : Z) :
  0 <= i -> triangle_corners tileSize i = Ok (corners_of tileSize (Z.to_pos (i + 2))).
Proof.
  intros Hi. unfold triangle_corners.
  destruct (i + 2) as [|p|p] eqn:Hp; [lia| |lia].
  assert (Hp1 : p <> 1%positive) by lia.
  simpl Z.to_pos.
  destruct p as [q | q |]; [| |congruence];
    match goal with
    | |- context [Z.shiftr (Z.pos ?p) 1] =>
        replace (Z.shiftr (Z.pos p) 1) with (Z.pos q) by reflexivity
    end;
    cbn [corners_of];
    (destruct (Pos.eq_dec q 1%positive) as [->|Hq]; [reflexivity|]);
    (destruct (Z.gtb_spec (Z.pos q) 1); [|lia]);
    (rewrite bisect_loop_path; [reflexivity | exact Hq | rewrite log2_size_nat by exact Hq; lia]).
Qed.

(** ** The table built by [NewMartini] *)

Definition coords_entry (tileSize i : Z) : list Z :=
  let t := corners_of tileSize (Z.to_pos (i + 2)) in
  [u16 (c_ax t); u16 (c_ay t); u16 (c_bx t); u16 (c_by t)].

Definition coords_table (tileSize numTriangles : Z) : list Z :=
  flat_map (coords_entry tileSize) (seqZ 0 numTriangles).

Lemma store_app_cons {A} (pre rest : list A) (x v : A) (i : Z) :
  Z.of_nat (length pre) = i -> store (pre ++ x :: rest) i v = Ok (pre ++ v :: rest).
Proof.
  intros <-. rewrite store_in_range by (rewrite length_app; simpl; lia).
  rewrite Nat2Z.id. f_equal.
  replace (length pre) with (length pre + 0)%nat at 1 by lia.
  rewrite insert_app_r. reflexivity.
Qed.

Lemma store_app_mid {A} (pre mid rest : list A) (x v : A) (i : Z) :
  Z.of_nat (length pre + length mid) = i ->
  store (pre ++ mid ++ x :: rest) i v = Ok (pre ++ mid ++ v :: rest).
Proof.
  intros H. rewrite !app_assoc. apply store_app_cons. rewrite length_app. exact H.
Qed.

Lemma coords_step_app (tileSize i : Z) (pre rest : list Z) (x0 x1 x2 x3 : Z) :
  0 <= i -> Z.of_nat (length pre) = 4 * i ->
  coords_step tileSize (pre ++ x0 :: x1 :: x2 :: x3 :: rest) i
  = Ok (pre ++ coords_entry tileSize i ++ rest).
Proof.
  intros Hi Hlen. unfold coords_step, coords_entry.
  rewrite triangle_corners_spec by exact Hi. cbn [bind].
  set (t := corners_of tileSize (Z.to_pos (i + 2))).
  set (v0 := u16 (c_ax t)). set (v1 := u16 (c_ay t)).
  set (v2 := u16 (c_bx t)). set (v3 := u16 (c_by t)).
  assert (E0 : store (pre ++ x0 :: x1 :: x2 :: x3 :: rest) (i * 4 + 0) v0
               = Ok (pre ++ v0 :: x1 :: x2 :: x3 :: rest))
    by (apply (store_app_mid pre []); simpl; lia).
  assert (E1 : store (pre ++ v0 :: x1 :: x2 :: x3 :: rest) (i * 4 + 1) v1
               = Ok (pre ++ v0 :: v1 :: x2 :: x3 :: rest))
    by (apply (store_app_mid pre [v0]); simpl; lia).
  assert (E2 : store (pre ++ v0 :: v1 :: x2 :: x3 :: rest) (i * 4 + 2) v2
               = Ok (pre ++ v0 :: v1 :: v2 :: x3 :: rest))
    by (apply (store_app_mid pre [v0; v1]); simpl; lia).
  assert (E3 : store (pre ++ v0 :: v1 :: v2 :: x3 :: rest) (i * 4 + 3) v3
               = Ok (pre ++ v0 :: v1 :: v2 :: v3 :: rest))
    by (apply (store_app_mid pre [v0; v1; v2]); simpl; lia).
  rewrite E0. cbn [bind]. rewrite E1. cbn [bind]. rewrite E2. cbn [bind]. exact E3.
Qed.

Lemma coords_loop (tileSize : Z) (len : nat) :
  forall (j : Z) (pre : list Z),
    0 <= j -> Z.of_nat (length pre) = 4 * j ->
    foldM (coords_step tileSize) (seqZ j (Z.of_nat len)) (pre ++ replicate (4 * len) 0)
    = Ok (pre ++ flat_map (coords_entry tileSize) (seqZ j (Z.of_nat len))).
Proof.
  induction len as [|len IH]; intros j pre Hj Hlen.
  - simpl. reflexivity.
  - rewrite seqZ_cons by lia.
    replace (Z.pred (Z.of_nat (S len))) with (Z.of_nat len) by lia.
    replace (4 * S len)%nat with (S (S (S (S (4 * len))))) by lia.
    cbn [replicate foldM flat_map].
    rewrite coords_step_app by assumption. cbn [bind].
    rewrite app_assoc, IH.
    + rewrite <- app_assoc. reflexivity.
    + lia.
    + rewrite length_app. unfold coords_entry. simpl. lia.
Qed.

(** Whenever the grid-size test passes and the table length is not
    negative, [NewMartini] returns the table of [corners_of]. *)
Lemma NewMartini_table (gridSize : Z) :
  let tileSize := gridSize - 1 in
  let n := tileSize * tileSize * 2 - 2 in
  (Z.land tileSize (tileSize - 1) >? 0) = false -> 0 <= n ->
  NewMartini gridSize
  = Ok (mkMartini gridSize n (n - tileSize * tileSize)
          (replicate (Z.to_nat (gridSize * gridSize)) 0) (coords_table tileSize n)).
Proof.
  intros tileSize n Htest Hn. unfold NewMartini. fold tileSize. rewrite Htest. fold n.
  unfold make. destruct (Z.ltb_spec (gridSize * gridSize) 0); [nia|].
  destruct (Z.ltb_spec (n * 4) 0); [lia|]. cbn [bind].
  pose proof (coords_loop tileSize (Z.to_nat n) 0 [] ltac:(lia) ltac:(simpl; lia)) as H1.
  rewrite Z2Nat.id in H1 by exact Hn. cbn [app] in H1.
  replace (Z.to_nat (n * 4)) with (4 * Z.to_nat n)%nat by lia.
  rewrite H1. reflexivity.
Qed.

Lemma length_flat_entries (tileSize : Z) (len : nat) :
  forall j : Z,
    length (flat_map (coords_entry tileSize) (seqZ j (Z.of_nat len))) = (4 * len)%nat.
Proof.
  induction len as [|len IH]; intros j; [reflexivity|].
  rewrite seqZ_cons by lia. replace (Z.pred (Z.of_nat (S len))) with (Z.of_nat len) by lia.
  cbn [flat_map]. rewrite length_app, IH. unfold coords_entry. simpl. lia.
Qed.

Lemma length_coords_table (tileSize n : Z) :
  0 <= n -> Z.of_nat (length (coords_table tileSize n)) = 4 * n.
Proof.
  intros Hn. unfold coords_table.
  rewrite <- (Z2Nat.id n) at 1 by exact Hn. rewrite length_flat_entries. lia.
Qed.

Lemma coords_table_lookup (tileSize n i : Z) (r : nat) :
  0 <= i < n -> (r < 4)%nat ->
  coords_table tileSize n !! (Z.to_nat (4 * i) + r)%nat = coords_entry tileSize i !! r.
Proof.
  intros Hi Hr. unfold coords_table.
  replace n with (i + (n - i)) by lia. rewrite seqZ_app by lia.
  rewrite flat_map_app. rewrite (seqZ_cons (0 + i)) by lia. cbn [flat_map].
  fold (coords_table tileSize i).
  pose proof (length_coords_table tileSize i ltac:(lia)) as Hl.
  rewrite lookup_app_r by lia.
  replace (Z.to_nat (4 * i) + r - length (coords_table tileSize i))%nat with r by lia.
  rewrite lookup_app_l by (unfold coords_entry; simpl; lia).
  replace (0 + i) with i by lia. reflexivity.
Qed.

(** ** The geometry of the hierarchy *)

Ltac zlia := Z.div_mod_to_equations; lia.

Lemma shiftr_1 (x : Z) : Z.shiftr x 1 = x / 2.
Proof. rewrite Z.shiftr_div_pow2 by lia. reflexivity. Qed.

Definition in_box (tileSize : Z) (t : corners) : Prop :=
  (0 <= c_ax t <= tileSize /\ 0 <= c_ay t <= tileSize) /\
  (0 <= c_bx t <= tileSize /\ 0 <= c_by t <= tileSize) /\
  (0 <= c_cx t <= tileSize /\ 0 <= c_cy t <= tileSize).

(** The leg [c - a] of a triangle: along an axis with length [h], or
    along a diagonal with [h] in both coordinates. *)
Definition legs (diag : bool) (h px py : Z) : Prop :=
  if diag then (px = h \/ px = - h) /\ (py = h \/ py = - h)
  else ((px = h \/ px = - h) /\ py = 0) \/ (px = 0 /\ (py = h \/ py = - h)).

(** A right isosceles triangle of the hierarchy: the right angle is at
    [c], the leg [b - c] is the leg [c - a] turned by a quarter, and
    [a] lies on the lattice of the triangle's hypotenuse. *)
Definition shape_k (diag : bool) (h tileSize : Z) (t : corners) : Prop :=
  in_box tileSize t /\
  c_bx t = c_cx t - (c_cy t - c_ay t) /\
  c_by t = c_cy t + (c_cx t - c_ax t) /\
  legs diag h (c_cx t - c_ax t) (c_cy t - c_ay t) /\
  (exists k, c_ax t = k * (if diag then 2 * h else h)) /\
  (exists k, c_ay t = k * (if diag then 2 * h else h)).

(** [shape d]: the triangle is [d] bisections above the unit triangles. *)
Definition shape (d : nat) (tileSize : Z) (t : corners) : Prop :=
  shape_k (Nat.odd d) (2 ^ Z.of_nat (Nat.div2 d)) tileSize t.

(** The multiple of the lattice step a coordinate falls on moves by at
    most two steps in a bisection. *)
Ltac pick_multiple k :=
  first [ exists k; nia | exists (k + 1); nia | exists (k - 1); nia
        | exists (2 * k); nia | exists (2 * k + 1); nia | exists (2 * k - 1); nia
        | exists (2 * k + 2); nia | exists (2 * k - 2); nia ].

Lemma step_axis (h tileSize : Z) (t : corners) :
  shape_k false (2 * h) tileSize t ->
  shape_k true h tileSize (left_half t) /\ shape_k true h tileSize (right_half t).
Proof.
  destruct t as [ax ay bx by_ cx cy].
  unfold shape_k, in_box, legs, left_half, right_half, mid_x, mid_y; cbn.
  rewrite !shiftr_1.
  intros (Hbox & Hbx & Hby & Hl & [k1 Hk1] & [k2 Hk2]).
  assert (Hm : (ax + bx) / 2 * 2 = ax + bx /\ (ay + by_) / 2 * 2 = ay + by_) by zlia.
  destruct Hm as [Hmx Hmy].
  set (mx := (ax + bx) / 2) in *. set (my := (ay + by_) / 2) in *.
  clearbody mx my.
  assert (Hl' := Hl).
  destruct Hl' as [[[Hx|Hx] Hy]|[Hx [Hy|Hy]]];
    (split; (split; [lia|]); (split; [lia|]); (split; [lia|]); (split; [lia|]);
     (split; [pick_multiple k1 | pick_multiple k2])).
Qed.

Lemma step_diag (h tileSize : Z) (t : corners) :
  shape_k true h tileSize t ->
  shape_k false h tileSize (left_half t) /\ shape_k false h tileSize (right_half t).
Proof.
  destruct t as [ax ay bx by_ cx cy].
  unfold shape_k, in_box, legs, left_half, right_half, mid_x, mid_y; cbn.
  rewrite !shiftr_1.
  intros (Hbox & Hbx & Hby & Hl & [k1 Hk1] & [k2 Hk2]).
  assert (Hm : (ax + bx) / 2 * 2 = ax + bx /\ (ay + by_) / 2 * 2 = ay + by_) by zlia.
  destruct Hm as [Hmx Hmy].
  set (mx := (ax + bx) / 2) in *. set (my := (ay + by_) / 2) in *.
  clearbody mx my.
  assert (Hl' := Hl).
  destruct Hl' as [[Hx|Hx] [Hy|Hy]];
    (split; (split; [lia|]); (split; [lia|]); (split; [lia|]); (split; [lia|]);
     (split; [pick_multiple k1 | pick_multiple k2])).
Qed.

Lemma div2_succ (d : nat) :
  Nat.div2 (S d) = if Nat.odd d then S (Nat.div2 d) else Nat.div2 d.
Proof.
  pose proof (Nat.div2_odd d) as H1. pose proof (Nat.div2_odd (S d)) as H2.
  rewrite Nat.odd_succ, <- Nat.negb_odd in H2.
  destruct (Nat.odd d); cbn [Nat.b2n negb] in *; lia.
Qed.

Lemma shape_step (d : nat) (tileSize : Z) (t : corners) :
  shape (S d) tileSize t ->
  shape d tileSize (left_half t) /\ shape d tileSize (right_half t).
Proof.
  unfold shape. rewrite Nat.odd_succ, <- Nat.negb_odd, div2_succ.
  destruct (Nat.odd d); simpl negb.
  - rewrite Nat2Z.inj_succ, Z.pow_succ_r by apply Nat2Z.is_nonneg. apply step_axis.
  - apply step_diag.
Qed.

Lemma shape_in_box (d : nat) (tileSize : Z) (t : corners) :
  shape d tileSize t -> in_box tileSize t.
Proof. intros H. apply H. Qed.

Lemma pow2_pos (j : nat) : 1 <= 2 ^ Z.of_nat j.
Proof. pose proof (Z.pow_pos_nonneg 2 (Z.of_nat j)). lia. Qed.

(** The two root triangles of a grid of tile size [2^n] are [2n]
    bisections above the unit triangles. *)
Lemma shape_root (n : nat) (id : Z) :
  shape (2 * n) (2 ^ Z.of_nat n) (root_corners (2 ^ Z.of_nat n) id).
Proof.
  unfold shape.
  replace (Nat.odd (2 * n)) with false
    by (symmetry; rewrite <- Nat.negb_even, Nat.even_mul; reflexivity).
  replace (Nat.div2 (2 * n)) with n
    by (rewrite Nat.div2_div, Nat.mul_comm, Nat.div_mul; lia).
  pose proof (pow2_pos n) as Hp.
  unfold root_corners, shape_k, in_box, legs.
  destruct (Z.land id 1 >? 0); cbn.
  - repeat split; try lia; [exists 0 | exists 0]; lia.
  - repeat split; try lia; [exists 1 | exists 1]; lia.
Qed.

(** The test [abs(ax-cx)+abs(ay-cy) > 1] fails exactly on the unit
    triangles. *)
Lemma manhattan_unit (tileSize : Z) (t : corners) :
  shape 0 tileSize t -> Z.abs (c_ax t - c_cx t) + Z.abs (c_ay t - c_cy t) = 1.
Proof.
  unfold shape, shape_k, legs. cbn. intros (_ & _ & _ & Hl & _). lia.
Qed.

Lemma manhattan_large (d : nat) (tileSize : Z) (t : corners) :
  shape (S d) tileSize t -> Z.abs (c_ax t - c_cx t) + Z.abs (c_ay t - c_cy t) > 1.
Proof.
  unfold shape, shape_k, legs. rewrite Nat.odd_succ, <- Nat.negb_odd, div2_succ.
  pose proof (pow2_pos (Nat.div2 d)) as Hp.
  destruct (Nat.odd d); simpl negb; cbv iota.
  - rewrite Nat2Z.inj_succ, Z.pow_succ_r by apply Nat2Z.is_nonneg.
    intros (_ & _ & _ & Hl & _). lia.
  - intros (_ & _ & _ & Hl & _). lia.
Qed.

(** The midpoint of the hypotenuse is a grid vertex. *)
Lemma mid_in_box (tileSize : Z) (t : corners) :
  in_box tileSize t -> 0 <= mid_x t <= tileSize /\ 0 <= mid_y t <= tileSize.
Proof.
  unfold in_box, mid_x, mid_y. rewrite !shiftr_1. intros H. zlia.
Qed.

Lemma index_in_range (tileSize x y : Z) :
  0 <= x <= tileSize -> 0 <= y <= tileSize ->
  0 <= y * (tileSize + 1) + x < (tileSize + 1) * (tileSize + 1).
Proof. intros Hx Hy. nia. Qed.

(** ** The leaves of the descent *)

(** The triangles at which the descent of [countElements] and
    [processTriangle] stops, in the order of the calls. *)
Fixpoint leaves (fuel : nat) (size : Z) (errors : list float) (maxError : float)
    (t : corners) : result (list corners) :=
  match fuel with
  | O => OutOfFuel
  | S fuel' =>
      let* split := subdivides size errors maxError
                      (c_ax t) (c_ay t) (c_bx t) (c_by t) (c_cx t) (c_cy t) in
      if split : bool then
        let* l1 := leaves fuel' size errors maxError (left_half t) in
        let* l2 := leaves fuel' size errors maxError (right_half t) in
        Ok (l1 ++ l2)
      else Ok [t]
  end.

Definition count_leaf_at (size : Z) (st : CountState) (t : corners) : result CountState :=
  count_leaf size (c_ax t) (c_ay t) (c_bx t) (c_by t) (c_cx t) (c_cy t) st.

Definition emit_leaf_at (size : Z) (indices : list Z) (st : EmitState) (t : corners)
    : result EmitState :=
  emit_leaf size indices (c_ax t) (c_ay t) (c_bx t) (c_by t) (c_cx t) (c_cy t) st.

Lemma foldM_app {A S} (f : S -> A -> result S) (l1 l2 : list A) (s : S) :
  foldM f (l1 ++ l2) s = let* s1 := foldM f l1 s in foldM f l2 s1.
Proof.
  revert s. induction l1 as [|x l1 IH]; intros s; [reflexivity|].
  cbn [app foldM]. destruct (f s x); cbn [bind]; auto.
Qed.

Lemma countElements_leaves (fuel : nat) (size : Z) (errors : list float) (maxError : float) :
  forall (t : corners) (ls : list corners) (st : CountState),
    leaves fuel size errors maxError t = Ok ls ->
    countElements fuel size errors (c_ax t) (c_ay t) (c_bx t) (c_by t) (c_cx t) (c_cy t)
                  maxError st
    = foldM (count_leaf_at size) ls st.
Proof.
  induction fuel as [|fuel IH]; intros t ls st H; [discriminate|].
  cbn [leaves countElements] in *.
  destruct (subdivides size errors maxError _ _ _ _ _ _) as [[|]| | |]; cbn [bind] in *;
    try discriminate.
  - apply bind_Ok in H as (l1 & H1 & H). apply bind_Ok in H as (l2 & H2 & [= <-]).
    rewrite foldM_app.
    rewrite <- (IH (left_half t) l1 st H1). cbn [left_half c_ax c_ay c_bx c_by c_cx c_cy].
    unfold mid_x, mid_y.
    destruct (countElements fuel _ _ _ _ _ _ _ _ _ st); cbn [bind]; try reflexivity.
    rewrite <- (IH (right_half t) l2 _ H2). reflexivity.
  - injection H as <-. cbn [foldM]. unfold count_leaf_at.
    destruct (count_leaf _ _ _ _ _ _ _ _); reflexivity.
Qed.

Lemma processTriangle_leaves (fuel : nat) (size : Z) (errors : list float)
    (indices : list Z) (maxError : float) :
  forall (t : corners) (ls : list corners) (st : EmitState),
    leaves fuel size errors maxError t = Ok ls ->
    processTriangle fuel size errors indices
                    (c_ax t) (c_ay t) (c_bx t) (c_by t) (c_cx t) (c_cy t) maxError st
    = foldM (emit_leaf_at size indices) ls st.
Proof.
  induction fuel as [|fuel IH]; intros t ls st H; [discriminate|].
  cbn [leaves processTriangle] in *.
  destruct (subdivides size errors maxError _ _ _ _ _ _) as [[|]| | |]; cbn [bind] in *;
    try discriminate.
  - apply bind_Ok in H as (l1 & H1 & H). apply bind_Ok in H as (l2 & H2 & [= <-]).
    rewrite foldM_app.
    rewrite <- (IH (left_half t) l1 st H1). cbn [left_half c_ax c_ay c_bx c_by c_cx c_cy].
    unfold mid_x, mid_y.
    destruct (processTriangle fuel _ _ _ _ _ _ _ _ _ _ st); cbn [bind]; try reflexivity.
    rewrite <- (IH (right_half t) l2 _ H2). reflexivity.
  - injection H as <-. cbn [foldM]. unfold emit_leaf_at.
    destruct (emit_leaf _ _ _ _ _ _ _ _ _); reflexivity.
Qed.

(** *** The descent on a well-formed grid *)

(** The entry of [Errors] at a grid vertex. *)
Definition err_at (size : Z) (errors : list float) (x y : Z) : float :=
  default 0%float (errors !! Z.to_nat (y * size + x)).

(** The decision of lines 146 and 173 at a triangle of the hierarchy. *)
Definition split_at (size : Z) (errors : list float) (maxError : float) (t : corners) : bool :=
  (Z.abs (c_ax t - c_cx t) + Z.abs (c_ay t - c_cy t) >? 1)
  && fgt (err_at size errors (mid_x t) (mid_y t)) maxError.

(** The leaves below a triangle that is [d] bisections above the unit
    triangles. *)
Fixpoint leaves_of (d : nat) (size : Z) (errors : list float) (maxError : float)
    (t : corners) : list corners :=
  match d with
  | O => [t]
  | S d' =>
      if split_at size errors maxError t
      then leaves_of d' size errors maxError (left_half t)
           ++ leaves_of d' size errors maxError (right_half t)
      else [t]
  end.

Section Descent.
Variable n : nat.
Variable errors : list float.
Variable maxError : float.

Let tileSize : Z := 2 ^ Z.of_nat n.
Let size : Z := tileSize + 1.

Hypothesis errors_length : Z.of_nat (length errors) = size * size.

Lemma load_err_at (x y : Z) :
  0 <= x <= tileSize -> 0 <= y <= tileSize ->
  load errors (y * size + x) = Ok (err_at size errors x y).
Proof.
  intros Hx Hy. pose proof (index_in_range tileSize x y Hx Hy) as Hi. fold size in Hi.
  destruct (load_in_range errors (y * size + x)) as [e He]; [lia|].
  rewrite He. apply load_Ok in He as [_ He]. unfold err_at. rewrite He. reflexivity.
Qed.

Lemma subdivides_shape (d : nat) (t : corners) :
  shape d tileSize t ->
  subdivides size errors maxError (c_ax t) (c_ay t) (c_bx t) (c_by t) (c_cx t) (c_cy t)
  = Ok (split_at size errors maxError t).
Proof.
  intros Hs. unfold subdivides, split_at.
  destruct (Z.gtb_spec (Z.abs (c_ax t - c_cx t) + Z.abs (c_ay t - c_cy t)) 1);
    [|reflexivity].
  destruct (mid_in_box tileSize t (shape_in_box _ _ _ Hs)) as [Hx Hy].
  fold (mid_x t) (mid_y t). rewrite load_err_at by assumption. reflexivity.
Qed.

Lemma split_at_unit (t : corners) :
  shape 0 tileSize t -> split_at size errors maxError t = false.
Proof.
  intros Hs. unfold split_at. rewrite (manhattan_unit _ _ Hs). reflexivity.
Qed.

(** The descent from a triangle [d] bisections above the unit
    triangles returns with [d + 1] nested calls or more allowed. *)
Lemma leaves_shape (d : nat) :
  forall (fuel : nat) (t : corners),
    shape d tileSize t -> (d < fuel)%nat ->
    leaves fuel size errors maxError t = Ok (leaves_of d size errors maxError t).
Proof.
  induction d as [|d IH]; intros fuel t Hs Hf;
    (destruct fuel as [|fuel]; [lia|]); cbn [leaves leaves_of];
    rewrite (subdivides_shape _ _ Hs); cbn [bind].
  - rewrite (split_at_unit _ Hs). reflexivity.
  - destruct (split_at size errors maxError t); [|reflexivity].
    destruct (shape_step _ _ _ Hs) as [Hl Hr].
    rewrite (IH fuel _ Hl), (IH fuel _ Hr) by lia. reflexivity.
Qed.

Lemma leaves_of_in_box (d : nat) :
  forall t : corners,
    shape d tileSize t -> Forall (in_box tileSize) (leaves_of d size errors maxError t).
Proof.
  induction d as [|d IH]; intros t Hs; cbn [leaves_of].
  - apply Forall_singleton. exact (shape_in_box _ _ _ Hs).
  - destruct (split_at size errors maxError t).
    + destruct (shape_step _ _ _ Hs) as [Hl Hr]. apply Forall_app. split; auto.
    + apply Forall_singleton. exact (shape_in_box _ _ _ Hs).
Qed.

(** The descent runs out of calls when fewer are allowed than the
    depth it reaches. *)
Lemma leaves_of_length (d : nat) (t : corners) :
  (1 <= length (leaves_of d size errors maxError t))%nat.
Proof.
  revert t. induction d as [|d IH]; intros t; cbn [leaves_of]; [simpl; lia|].
  destruct (split_at size errors maxError t); [|simpl; lia].
  rewrite length_app. specialize (IH (left_half t)). lia.
Qed.
End Descent.

(** ** The count pass *)

(** The entry of a slice of length [size * size] that belongs to the
    grid vertex [(x, y)]. *)
Definition pos (size x y : Z) : nat := Z.to_nat (y * size + x).

Definition corner_pos (size : Z) (t : corners) : list nat :=
  [pos size (c_ax t) (c_ay t); pos size (c_bx t) (c_by t); pos size (c_cx t) (c_cy t)].

(** The three corners of a triangle. *)
Definition corner_xy (t : corners) : list (Z * Z) :=
  [(c_ax t, c_ay t); (c_bx t, c_by t); (c_cx t, c_cy t)].

(** [count_vertex] where no index is out of range. [w] is the
    conversion applied to the counter when it is stored: [u16] in the
    program, the identity in a count with unbounded indices. *)
Definition count_vertex_w (w : Z -> Z) (p : nat) (st : CountState) : CountState :=
  match cs_indices st !! p with
  | Some v =>
      if v =? 0
      then mkCount (<[p := w (cs_numVertices st + 1)]> (cs_indices st))
                   (cs_numTriangles st) (cs_numVertices st + 1)
      else st
  | None => st
  end.

Definition count_leaf_w (w : Z -> Z) (size : Z) (st : CountState) (t : corners) : CountState :=
  let st1 := count_vertex_w w (pos size (c_ax t) (c_ay t)) st in
  let st2 := count_vertex_w w (pos size (c_bx t) (c_by t)) st1 in
  let st3 := count_vertex_w w (pos size (c_cx t) (c_cy t)) st2 in
  mkCount (cs_indices st3) (cs_numTriangles st3 + 1) (cs_numVertices st3).

Definition count_pass_w (w : Z -> Z) (size : Z) (ls : list corners) (st : CountState)
    : CountState :=
  fold_left (count_leaf_w w size) ls st.

Lemma length_count_vertex_w (w : Z -> Z) (p : nat) (st : CountState) :
  length (cs_indices (count_vertex_w w p st)) = length (cs_indices st).
Proof.
  unfold count_vertex_w. destruct (cs_indices st !! p) as [v|]; [|reflexivity].
  destruct (v =? 0); [|reflexivity]. cbn. apply length_insert.
Qed.

Lemma length_count_leaf_w (w : Z -> Z) (size : Z) (st : CountState) (t : corners) :
  length (cs_indices (count_leaf_w w size st t)) = length (cs_indices st).
Proof. unfold count_leaf_w. cbn. rewrite !length_count_vertex_w. reflexivity. Qed.

Lemma length_count_pass_w (w : Z -> Z) (size : Z) (ls : list corners) :
  forall st, length (cs_indices (count_pass_w w size ls st)) = length (cs_indices st).
Proof.
  unfold count_pass_w. induction ls as [|t ls IH]; intros st; [reflexivity|].
  cbn [fold_left]. rewrite IH. apply length_count_leaf_w.
Qed.

Lemma numTriangles_count_vertex_w (w : Z -> Z) (p : nat) (st : CountState) :
  cs_numTriangles (count_vertex_w w p st) = cs_numTriangles st.
Proof.
  unfold count_vertex_w. destruct (cs_indices st !! p) as [v|]; [|reflexivity].
  destruct (v =? 0); reflexivity.
Qed.

Lemma numTriangles_count_pass_w (w : Z -> Z) (size : Z) (ls : list corners) :
  forall st,
    cs_numTriangles (count_pass_w w size ls st) = cs_numTriangles st + Z.of_nat (length ls).
Proof.
  unfold count_pass_w. induction ls as [|t ls IH]; intros st; [simpl; lia|].
  cbn [fold_left]. rewrite IH.
  unfold count_leaf_w. cbn [cs_numTriangles length].
  rewrite !numTriangles_count_vertex_w. lia.
Qed.

Section CountPass.
Variable n : nat.
Let tileSize : Z := 2 ^ Z.of_nat n.
Let size : Z := tileSize + 1.

Lemma count_vertex_in_box (x y : Z) (st : CountState) :
  0 <= x <= tileSize -> 0 <= y <= tileSize ->
  Z.of_nat (length (cs_indices st)) = size * size ->
  count_vertex size x y st = Ok (count_vertex_w u16 (pos size x y) st).
Proof.
  intros Hx Hy Hlen. pose proof (index_in_range tileSize x y Hx Hy) as Hi. fold size in Hi.
  unfold count_vertex, count_vertex_w, pos.
  destruct (load_in_range (cs_indices st) (y * size + x)) as [v Hv]; [lia|].
  rewrite Hv. cbn [bind]. apply load_Ok in Hv as [_ ->].
  destruct (v =? 0); [|reflexivity].
  rewrite store_in_range by lia. reflexivity.
Qed.

Lemma count_leaf_in_box (t : corners) (st : CountState) :
  in_box tileSize t ->
  Z.of_nat (length (cs_indices st)) = size * size ->
  count_leaf_at size st t = Ok (count_leaf_w u16 size st t).
Proof.
  intros (Ha & Hb & Hc) Hlen. unfold count_leaf_at, count_leaf, count_leaf_w.
  rewrite count_vertex_in_box by tauto. cbn [bind].
  rewrite count_vertex_in_box by (rewrite ?length_count_vertex_w; tauto). cbn [bind].
  rewrite count_vertex_in_box by (rewrite ?length_count_vertex_w; tauto). reflexivity.
Qed.

Lemma count_pass_in_box (ls : list corners) :
  forall st : CountState,
    Forall (in_box tileSize) ls ->
    Z.of_nat (length (cs_indices st)) = size * size ->
    foldM (count_leaf_at size) ls st = Ok (count_pass_w u16 size ls st).
Proof.
  unfold count_pass_w. induction ls as [|t ls IH]; intros st Hbox Hlen; [reflexivity|].
  apply Forall_cons in Hbox as [Ht Hbox].
  cbn [foldM fold_left]. rewrite count_leaf_in_box by assumption.
  cbn [bind]. apply IH; [assumption|]. rewrite length_count_leaf_w. exact Hlen.
Qed.
End CountPass.

(** *** Counters and entries along the count pass *)

Lemma numVertices_count_vertex_w (w : Z -> Z) (p : nat) (st : CountState) :
  cs_numVertices st <= cs_numVertices (count_vertex_w w p st) <= cs_numVertices st + 1.
Proof.
  unfold count_vertex_w. destruct (cs_indices st !! p) as [v|]; [|lia].
  destruct (v =? 0); cbn; lia.
Qed.

Lemma numVertices_count_leaf_w (w : Z -> Z) (size : Z) (st : CountState) (t : corners) :
  cs_numVertices st <= cs_numVertices (count_leaf_w w size st t) <= cs_numVertices st + 3.
Proof.
  unfold count_leaf_w. cbn [cs_numVertices].
  set (p1 := pos size (c_ax t) (c_ay t)). set (p2 := pos size (c_bx t) (c_by t)).
  set (p3 := pos size (c_cx t) (c_cy t)).
  pose proof (numVertices_count_vertex_w w p1 st).
  pose proof (numVertices_count_vertex_w w p2 (count_vertex_w w p1 st)).
  pose proof (numVertices_count_vertex_w w p3 (count_vertex_w w p2 (count_vertex_w w p1 st))).
  lia.
Qed.

Lemma numVertices_count_pass_w (w : Z -> Z) (size : Z) (ls : list corners) :
  forall st, cs_numVertices st <= cs_numVertices (count_pass_w w size ls st).
Proof.
  unfold count_pass_w. induction ls as [|t ls IH]; intros st; cbn [fold_left]; [lia|].
  specialize (IH (count_leaf_w w size st t)).
  pose proof (numVertices_count_leaf_w w size st t). lia.
Qed.

(** As long as the counter stays below [2^16], the stored indices are
    the counter values themselves. *)
Lemma count_vertex_no_wrap (p : nat) (st : CountState) :
  0 <= cs_numVertices st ->
  cs_numVertices (count_vertex_w u16 p st) <= 65535
  \/ cs_numVertices (count_vertex_w id p st) <= 65535 ->
  count_vertex_w u16 p st = count_vertex_w id p st.
Proof.
  unfold count_vertex_w. destruct (cs_indices st !! p) as [v|]; [|reflexivity].
  destruct (v =? 0); [|reflexivity]. cbn [cs_numVertices]. intros H0 H.
  rewrite u16_small by lia. reflexivity.
Qed.

Lemma count_leaf_no_wrap (size : Z) (st : CountState) (t : corners) :
  0 <= cs_numVertices st ->
  cs_numVertices (count_leaf_w u16 size st t) <= 65535
  \/ cs_numVertices (count_leaf_w id size st t) <= 65535 ->
  count_leaf_w u16 size st t = count_leaf_w id size st t.
Proof.
  unfold count_leaf_w. cbn [cs_numVertices].
  set (p1 := pos size (c_ax t) (c_ay t)). set (p2 := pos size (c_bx t) (c_by t)).
  set (p3 := pos size (c_cx t) (c_cy t)). intros H0 H.
  assert (E1 : count_vertex_w u16 p1 st = count_vertex_w id p1 st).
  { apply count_vertex_no_wrap; [exact H0|].
    pose proof (numVertices_count_vertex_w u16 p2 (count_vertex_w u16 p1 st)).
    pose proof (numVertices_count_vertex_w u16 p3
                  (count_vertex_w u16 p2 (count_vertex_w u16 p1 st))).
    pose proof (numVertices_count_vertex_w id p2 (count_vertex_w id p1 st)).
    pose proof (numVertices_count_vertex_w id p3
                  (count_vertex_w id p2 (count_vertex_w id p1 st))).
    lia. }
  rewrite E1 in *.
  pose proof (numVertices_count_vertex_w id p1 st) as M1.
  assert (E2 : count_vertex_w u16 p2 (count_vertex_w id p1 st)
               = count_vertex_w id p2 (count_vertex_w id p1 st)).
  { apply count_vertex_no_wrap; [lia|].
    pose proof (numVertices_count_vertex_w u16 p3
                  (count_vertex_w u16 p2 (count_vertex_w id p1 st))).
    pose proof (numVertices_count_vertex_w id p3
                  (count_vertex_w id p2 (count_vertex_w id p1 st))).
    lia. }
  rewrite E2 in *.
  pose proof (numVertices_count_vertex_w id p2 (count_vertex_w id p1 st)) as M2.
  rewrite count_vertex_no_wrap; [reflexivity | lia | exact H].
Qed.

Lemma count_pass_no_wrap (size : Z) (ls : list corners) :
  forall st : CountState,
    0 <= cs_numVertices st ->
    cs_numVertices (count_pass_w u16 size ls st) <= 65535
    \/ cs_numVertices (count_pass_w id size ls st) <= 65535 ->
    count_pass_w u16 size ls st = count_pass_w id size ls st.
Proof.
  unfold count_pass_w. induction ls as [|t ls IH]; intros st H0 H; [reflexivity|].
  cbn [fold_left] in *.
  assert (E : count_leaf_w u16 size st t = count_leaf_w id size st t).
  { apply count_leaf_no_wrap; [exact H0|].
    pose proof (numVertices_count_pass_w u16 size ls (count_leaf_w u16 size st t)).
    pose proof (numVertices_count_pass_w id size ls (count_leaf_w id size st t)).
    unfold count_pass_w in *. lia. }
  rewrite E in *. apply IH; [|exact H].
  pose proof (numVertices_count_leaf_w id size st t). lia.
Qed.

(** Every entry the program stores is a uint16. *)
Definition entries_u16 (indices : list Z) : Prop :=
  forall (p : nat) (v : Z), indices !! p = Some v -> 0 <= v < 65536.

Lemma entries_u16_count_vertex (p : nat) (st : CountState) :
  entries_u16 (cs_indices st) -> entries_u16 (cs_indices (count_vertex_w u16 p st)).
Proof.
  unfold count_vertex_w. destruct (cs_indices st !! p) as [v|] eqn:Hp; [|auto].
  destruct (v =? 0); [|auto]. cbn. intros H q x Hq.
  destruct (decide (q = p)) as [->|Hne].
  - rewrite list_lookup_insert_eq in Hq by (eapply lookup_lt_Some; eassumption).
    injection Hq as <-. apply u16_range.
  - rewrite list_lookup_insert_ne in Hq by congruence. eauto.
Qed.

Lemma entries_u16_count_pass (size : Z) (ls : list corners) :
  forall st : CountState,
    entries_u16 (cs_indices st) -> entries_u16 (cs_indices (count_pass_w u16 size ls st)).
Proof.
  unfold count_pass_w. induction ls as [|t ls IH]; intros st H; [exact H|].
  cbn [fold_left]. apply IH. unfold count_leaf_w. cbn [cs_indices].
  do 3 apply entries_u16_count_vertex. exact H.
Qed.

(** *** The count with unbounded indices *)

(** [S] is the set of the entries that hold an index, and the counter
    is their number; no entry exceeds the counter. *)
Definition counted (st : CountState) (S : gset nat) : Prop :=
  (forall p : nat, p ∈ S <-> exists v, cs_indices st !! p = Some v /\ v <> 0) /\
  cs_numVertices st = Z.of_nat (size S) /\
  (forall (p : nat) (v : Z), cs_indices st !! p = Some v -> 0 <= v <= cs_numVertices st).

Lemma counted_count_vertex (p : nat) (st : CountState) (S : gset nat) :
  (p < length (cs_indices st))%nat ->
  counted st S -> counted (count_vertex_w id p st) (S ∪ {[p]}).
Proof.
  intros Hp (Hmem & Hnv & Hle). unfold count_vertex_w.
  destruct (lookup_lt_is_Some_2 _ _ Hp) as [v Hv]. rewrite Hv.
  destruct (Z.eqb_spec v 0) as [->|Hv0].
  - assert (Hnotin : p ∉ S).
    { intros Hin. apply Hmem in Hin as (v & Hv' & Hne). congruence. }
    split; [|split]; cbn [cs_indices cs_numVertices].
    + intros q. split.
      * intros Hq. destruct (decide (q = p)) as [->|Hne].
        -- exists (id (cs_numVertices st + 1)). rewrite list_lookup_insert_eq by exact Hp.
           split; [reflexivity | unfold id; lia].
        -- rewrite list_lookup_insert_ne by congruence. apply Hmem.
           apply elem_of_union in Hq as [Hq|Hq]; [exact Hq|].
           apply elem_of_singleton in Hq. congruence.
      * intros (x & Hx & Hx0). destruct (decide (q = p)) as [->|Hne].
        -- apply elem_of_union_r, elem_of_singleton. reflexivity.
        -- rewrite list_lookup_insert_ne in Hx by congruence.
           apply elem_of_union_l. apply Hmem. eauto.
    + rewrite size_union by (apply disjoint_singleton_r; exact Hnotin).
      rewrite size_singleton. lia.
    + intros q x Hq. destruct (decide (q = p)) as [->|Hne].
      * rewrite list_lookup_insert_eq in Hq by exact Hp. injection Hq as <-. unfold id. lia.
      * rewrite list_lookup_insert_ne in Hq by congruence. specialize (Hle _ _ Hq). lia.
  - assert (Hin : p ∈ S) by (apply Hmem; eauto).
    replace (S ∪ {[p]}) with S by (apply leibniz_equiv; clear -Hin; set_solver).
    split; [exact Hmem | split; [exact Hnv | exact Hle]].
Qed.

Lemma counted_count_pass (size : Z) (ls : list corners) :
  forall (st : CountState) (S : gset nat),
    Forall (fun t => Forall (fun p => (p < length (cs_indices st))%nat) (corner_pos size t)) ls ->
    counted st S ->
    counted (count_pass_w id size ls st) (S ∪ list_to_set (flat_map (corner_pos size) ls)).
Proof.
  unfold count_pass_w. induction ls as [|t ls IH]; intros st S Hr Hc.
  - cbn [fold_left flat_map]. rewrite list_to_set_nil, (right_id_L ∅ (∪)). exact Hc.
  - apply Forall_cons in Hr as [Ht Hr]. cbn [fold_left flat_map].
    unfold corner_pos in Ht at 1. apply Forall_cons in Ht as [H1 Ht].
    apply Forall_cons in Ht as [H2 Ht]. apply Forall_cons in Ht as [H3 _].
    set (p1 := pos size (c_ax t) (c_ay t)) in *. set (p2 := pos size (c_bx t) (c_by t)) in *.
    set (p3 := pos size (c_cx t) (c_cy t)) in *.
    pose proof (counted_count_vertex p1 st S H1 Hc) as C1.
    assert (H2' : (p2 < length (cs_indices (count_vertex_w id p1 st)))%nat)
      by (rewrite length_count_vertex_w; exact H2).
    pose proof (counted_count_vertex p2 _ _ H2' C1) as C2.
    assert (H3' : (p3 < length (cs_indices (count_vertex_w id p2 (count_vertex_w id p1 st))))%nat)
      by (rewrite !length_count_vertex_w; exact H3).
    pose proof (counted_count_vertex p3 _ _ H3' C2) as C3.
    assert (C : counted (count_leaf_w id size st t) (S ∪ {[p1]} ∪ {[p2]} ∪ {[p3]})).
    { unfold count_leaf_w. fold p1 p2 p3. destruct C3 as (Ha & Hb & Hc').
      split; [exact Ha | split; [exact Hb | exact Hc']]. }
    assert (Hr' : Forall (fun t' => Forall (fun p =>
                     (p < length (cs_indices (count_leaf_w id size st t)))%nat)
                     (corner_pos size t')) ls).
    { eapply Forall_impl; [exact Hr|]. intros t' Ht'. cbn beta in *.
      rewrite length_count_leaf_w. exact Ht'. }
    specialize (IH _ _ Hr' C).
    replace (S ∪ list_to_set (corner_pos size t ++ flat_map (corner_pos size) ls))
        with (S ∪ {[p1]} ∪ {[p2]} ∪ {[p3]} ∪ list_to_set (flat_map (corner_pos size) ls)).
    + exact IH.
    + unfold corner_pos at 2. fold p1 p2 p3. apply leibniz_equiv. clear. set_solver.
Qed.

(** ** The emit pass *)

Definition idx_at (indices : list Z) (p : nat) : Z := default 0 (indices !! p).

(** The three entries [a], [b], [c] a leaf appends to [triangles]. *)
Definition tri_entry (size : Z) (indices : list Z) (t : corners) : list Z :=
  [u16 (idx_at indices (pos size (c_ax t) (c_ay t)) - 1);
   u16 (idx_at indices (pos size (c_bx t) (c_by t)) - 1);
   u16 (idx_at indices (pos size (c_cx t) (c_cy t)) - 1)].

(** The two writes of a corner into [vertices]. *)
Definition put_vertex (vs : list Z) (i x y : Z) : list Z :=
  <[Z.to_nat (u16 (u16 (2 * i) + 1)) := u16 y]> (<[Z.to_nat (u16 (2 * i)) := u16 x]> vs).

(** [emit_leaf] where no index is out of range. *)
Definition emit_leaf_w (size : Z) (indices : list Z) (st : EmitState) (t : corners)
    : EmitState :=
  let a := u16 (idx_at indices (pos size (c_ax t) (c_ay t)) - 1) in
  let b := u16 (idx_at indices (pos size (c_bx t) (c_by t)) - 1) in
  let c := u16 (idx_at indices (pos size (c_cx t) (c_cy t)) - 1) in
  let v1 := put_vertex (es_vertices st) a (c_ax t) (c_ay t) in
  let v2 := put_vertex v1 b (c_bx t) (c_by t) in
  let v3 := put_vertex v2 c (c_cx t) (c_cy t) in
  let i := Z.to_nat (es_triIndex st) in
  mkEmit (es_triIndex st + 3) v3
         (<[(i + 2)%nat := c]> (<[(i + 1)%nat := b]> (<[i := a]> (es_triangles st)))).

Definition emit_pass_w (size : Z) (indices : list Z) (ls : list corners) (st : EmitState)
    : EmitState :=
  fold_left (emit_leaf_w size indices) ls st.

(** An index [ia] read from [Indices] has its two slots inside a
    [vertices] slice of length [len]. *)
Definition slot_ok (len ia : Z) : Prop :=
  0 <= ia < 65536 /\ (65536 <= len \/ (1 <= ia /\ 2 * ia <= len)).

Lemma slot_ok_range (len ia : Z) :
  slot_ok len ia ->
  0 <= u16 (2 * u16 (ia - 1)) < len /\ 0 <= u16 (u16 (2 * u16 (ia - 1)) + 1) < len.
Proof.
  intros [Hr [Hbig | [H1 H2]]].
  - pose proof (u16_range (2 * u16 (ia - 1))).
    pose proof (u16_range (u16 (2 * u16 (ia - 1)) + 1)). lia.
  - destruct (Z_lt_le_dec len 65536) as [Hl|Hl].
    + rewrite (u16_small (ia - 1)) by lia. rewrite (u16_small (2 * (ia - 1))) by lia.
      rewrite u16_small by lia. lia.
    + pose proof (u16_range (2 * u16 (ia - 1))).
      pose proof (u16_range (u16 (2 * u16 (ia - 1)) + 1)). lia.
Qed.

Lemma length_put_vertex (vs : list Z) (i x y : Z) :
  length (put_vertex vs i x y) = length vs.
Proof. unfold put_vertex. rewrite !length_insert. reflexivity. Qed.

Lemma length_vertices_emit_leaf_w (size : Z) (indices : list Z) (st : EmitState)
    (t : corners) :
  length (es_vertices (emit_leaf_w size indices st t)) = length (es_vertices st).
Proof. unfold emit_leaf_w. cbn. rewrite !length_put_vertex. reflexivity. Qed.

Lemma length_triangles_emit_leaf_w (size : Z) (indices : list Z) (st : EmitState)
    (t : corners) :
  length (es_triangles (emit_leaf_w size indices st t)) = length (es_triangles st).
Proof. unfold emit_leaf_w. cbn. rewrite !length_insert. reflexivity. Qed.

Section EmitPass.
Variable n : nat.
Variable indices : list Z.
Let tileSize : Z := 2 ^ Z.of_nat n.
Let size : Z := tileSize + 1.

Hypothesis indices_length : Z.of_nat (length indices) = size * size.

Lemma load_idx_at (x y : Z) :
  0 <= x <= tileSize -> 0 <= y <= tileSize ->
  load indices (y * size + x) = Ok (idx_at indices (pos size x y)).
Proof.
  intros Hx Hy. pose proof (index_in_range tileSize x y Hx Hy) as Hi. fold size in Hi.
  destruct (load_in_range indices (y * size + x)) as [e He]; [lia|].
  rewrite He. apply load_Ok in He as [_ He]. unfold idx_at, pos. rewrite He. reflexivity.
Qed.

(** The corners of [t] have indices whose slots lie inside [vs]. *)
Definition leaf_slots_ok (len : Z) (t : corners) : Prop :=
  Forall (fun p => slot_ok len (idx_at indices p)) (corner_pos size t).

Lemma store_put_vertex (vs : list Z) (ia x y : Z) :
  slot_ok (Z.of_nat (length vs)) ia ->
  (let* v1 := store vs (u16 (2 * u16 (ia - 1))) (u16 x) in
   store v1 (u16 (u16 (2 * u16 (ia - 1)) + 1)) (u16 y))
  = Ok (put_vertex vs (u16 (ia - 1)) x y).
Proof.
  intros Hs. destruct (slot_ok_range _ _ Hs) as [H1 H2].
  rewrite store_in_range by exact H1. cbn [bind].
  rewrite store_in_range by (rewrite length_insert; exact H2). reflexivity.
Qed.

Lemma emit_leaf_in_box (t : corners) (st : EmitState) :
  in_box tileSize t ->
  leaf_slots_ok (Z.of_nat (length (es_vertices st))) t ->
  0 <= es_triIndex st ->
  es_triIndex st + 3 <= Z.of_nat (length (es_triangles st)) ->
  emit_leaf_at size indices st t = Ok (emit_leaf_w size indices st t).
Proof.
  intros (Ha & Hb & Hc) Hs Hi Hlen.
  unfold leaf_slots_ok, corner_pos in Hs.
  apply Forall_cons in Hs as [S1 Hs]. apply Forall_cons in Hs as [S2 Hs].
  apply Forall_cons in Hs as [S3 _].
  unfold emit_leaf_at, emit_leaf, emit_leaf_w.
  rewrite !load_idx_at by tauto. cbn [bind].
  set (ia := idx_at indices (pos size (c_ax t) (c_ay t))) in *.
  set (ib := idx_at indices (pos size (c_bx t) (c_by t))) in *.
  set (ic := idx_at indices (pos size (c_cx t) (c_cy t))) in *.
  pose proof (store_put_vertex (es_vertices st) ia (c_ax t) (c_ay t) S1) as E1.
  apply bind_Ok in E1 as (v1 & E1a & E1b). rewrite E1a. cbn [bind]. rewrite E1b. cbn [bind].
  pose proof (store_put_vertex (put_vertex (es_vertices st) (u16 (ia - 1)) (c_ax t) (c_ay t))
                ib (c_bx t) (c_by t)) as E2.
  rewrite length_put_vertex in E2. specialize (E2 S2).
  apply bind_Ok in E2 as (v2 & E2a & E2b). rewrite E2a. cbn [bind]. rewrite E2b. cbn [bind].
  pose proof (store_put_vertex
                (put_vertex (put_vertex (es_vertices st) (u16 (ia - 1)) (c_ax t) (c_ay t))
                            (u16 (ib - 1)) (c_bx t) (c_by t))
                ic (c_cx t) (c_cy t)) as E3.
  rewrite !length_put_vertex in E3. specialize (E3 S3).
  apply bind_Ok in E3 as (v3 & E3a & E3b). rewrite E3a. cbn [bind]. rewrite E3b. cbn [bind].
  rewrite store_in_range by lia. cbn [bind].
  rewrite store_in_range by (rewrite length_insert; lia). cbn [bind].
  rewrite store_in_range by (rewrite !length_insert; lia). cbn [bind].
  replace (Z.to_nat (es_triIndex st + 1)) with (Z.to_nat (es_triIndex st) + 1)%nat by lia.
  replace (Z.to_nat (es_triIndex st + 2)) with (Z.to_nat (es_triIndex st) + 2)%nat by lia.
  reflexivity.
Qed.

Lemma emit_pass_in_box (ls : list corners) :
  forall st : EmitState,
    Forall (in_box tileSize) ls ->
    Forall (leaf_slots_ok (Z.of_nat (length (es_vertices st)))) ls ->
    0 <= es_triIndex st ->
    es_triIndex st + 3 * Z.of_nat (length ls) <= Z.of_nat (length (es_triangles st)) ->
    foldM (emit_leaf_at size indices) ls st = Ok (emit_pass_w size indices ls st).
Proof.
  unfold emit_pass_w. induction ls as [|t ls IH]; intros st Hbox Hs Hi Hlen; [reflexivity|].
  apply Forall_cons in Hbox as [Ht Hbox]. apply Forall_cons in Hs as [Hst Hs].
  cbn [length] in Hlen. cbn [foldM fold_left].
  rewrite emit_leaf_in_box by (assumption || lia). cbn [bind].
  apply IH.
  - exact Hbox.
  - rewrite length_vertices_emit_leaf_w. exact Hs.
  - unfold emit_leaf_w. cbn [es_triIndex]. lia.
  - rewrite length_triangles_emit_leaf_w. unfold emit_leaf_w. cbn [es_triIndex]. lia.
Qed.
End EmitPass.

Lemma insert3_app {A} (pre rest : list A) (x0 x1 x2 a b c : A) :
  <[(length pre + 2)%nat := c]>
    (<[(length pre + 1)%nat := b]> (<[length pre := a]> (pre ++ x0 :: x1 :: x2 :: rest)))
  = pre ++ a :: b :: c :: rest.
Proof.
  induction pre as [|y pre IH]; [reflexivity|]. cbn [length app Nat.add].
  cbn [insert list_insert]. fold (@insert nat A (list A) _).
  f_equal. exact IH.
Qed.

(** The emit pass appends the entries of the leaves to [triangles] in
    the order of the descent. *)
Lemma triangles_emit_pass (size : Z) (indices : list Z) (ls : list corners) :
  forall (pre : list Z) (vs : list Z),
    es_triangles (emit_pass_w size indices ls
                    (mkEmit (Z.of_nat (length pre)) vs (pre ++ replicate (3 * length ls) 0)))
    = pre ++ flat_map (tri_entry size indices) ls.
Proof.
  unfold emit_pass_w. induction ls as [|t ls IH]; intros pre vs.
  - cbn. reflexivity.
  - cbn [fold_left flat_map length]. unfold emit_leaf_w at 2.
    cbn [es_triIndex es_vertices es_triangles].
    replace (3 * S (length ls))%nat with (S (S (S (3 * length ls)))) by lia.
    cbn [replicate]. rewrite Nat2Z.id, insert3_app.
    set (e := tri_entry size indices t).
    replace (pre ++ _ :: _ :: _ :: replicate (3 * length ls) 0)
      with ((pre ++ e) ++ replicate (3 * length ls) 0)
      by (rewrite <- app_assoc; reflexivity).
    replace (Z.of_nat (length pre) + 3) with (Z.of_nat (length (pre ++ e)))
      by (rewrite length_app; unfold e; simpl; lia).
    rewrite IH, <- app_assoc. reflexivity.
Qed.

Lemma triIndex_emit_pass (size : Z) (indices : list Z) (ls : list corners) :
  forall st : EmitState,
    es_triIndex (emit_pass_w size indices ls st) = es_triIndex st + 3 * Z.of_nat (length ls).
Proof.
  unfold emit_pass_w. induction ls as [|t ls IH]; intros st; cbn [fold_left length]; [lia|].
  rewrite IH. unfold emit_leaf_w. cbn [es_triIndex]. lia.
Qed.

Lemma length_vertices_emit_pass (size : Z) (indices : list Z) (ls : list corners) :
  forall st : EmitState,
    length (es_vertices (emit_pass_w size indices ls st)) = length (es_vertices st).
Proof.
  unfold emit_pass_w. induction ls as [|t ls IH]; intros st; cbn [fold_left]; [reflexivity|].
  rewrite IH. apply length_vertices_emit_leaf_w.
Qed.

(** ** [GetMesh] on a well-formed tile *)

(** A tile of a grid of tile size [2^n], as [NewMartini] and [NewTile]
    build it. *)
Definition tile_wf (n : nat) (t : Tile) : Prop :=
  let size := 2 ^ Z.of_nat n + 1 in
  GridSize (TileMartini t) = size /\
  Z.of_nat (length (Indices (TileMartini t))) = size * size /\
  Z.of_nat (length (Errors t)) = size * size.

(** The leaves of the two descents of [GetMesh], in the order of the calls. *)
Definition mesh_leaves (n : nat) (errors : list float) (maxError : float) : list corners :=
  let tileSize := 2 ^ Z.of_nat n in
  leaves_of (2 * n) (tileSize + 1) errors maxError (root_corners tileSize 1)
  ++ leaves_of (2 * n) (tileSize + 1) errors maxError (root_corners tileSize 0).

(** The count pass of [GetMesh], with the conversion [w] of the stored
    indices. *)
Definition count_mesh (w : Z -> Z) (n : nat) (errors : list float) (maxError : float)
    : CountState :=
  let size := 2 ^ Z.of_nat n + 1 in
  count_pass_w w size (mesh_leaves n errors maxError)
               (mkCount (replicate (Z.to_nat (size * size)) 0) 0 0).

(** The emit pass of [GetMesh]. *)
Definition emit_mesh (n : nat) (errors : list float) (maxError : float) : EmitState :=
  let size := 2 ^ Z.of_nat n + 1 in
  let st := count_mesh u16 n errors maxError in
  emit_pass_w size (cs_indices st) (mesh_leaves n errors maxError)
              (mkEmit 0 (replicate (Z.to_nat (cs_numVertices st * 2)) 0)
                      (replicate (Z.to_nat (cs_numTriangles st * 3)) 0)).

Lemma pos_in_range (n : nat) (x y : Z) :
  let tileSize := 2 ^ Z.of_nat n in
  0 <= x <= tileSize -> 0 <= y <= tileSize ->
  (pos (tileSize + 1) x y < Z.to_nat ((tileSize + 1) * (tileSize + 1)))%nat.
Proof.
  intros tileSize Hx Hy. pose proof (index_in_range tileSize x y Hx Hy). unfold pos. lia.
Qed.

Lemma corner_pos_in_range (n : nat) (t : corners) :
  let tileSize := 2 ^ Z.of_nat n in
  in_box tileSize t ->
  Forall (fun p => (p < Z.to_nat ((tileSize + 1) * (tileSize + 1)))%nat)
         (corner_pos (tileSize + 1) t).
Proof.
  intros tileSize (Ha & Hb & Hc). unfold corner_pos.
  repeat apply Forall_cons_2; [apply pos_in_range; tauto .. | apply Forall_nil_2].
Qed.

Lemma counted_zero (len : nat) : counted (mkCount (replicate len 0) 0 0) ∅.
Proof.
  split; [|split]; cbn.
  - intros p. split; [intros H; exfalso; revert H; apply not_elem_of_empty|].
    intros (v & Hv & Hne). apply lookup_replicate in Hv as [-> _]. congruence.
  - rewrite size_empty. reflexivity.
  - intros p v Hv. apply lookup_replicate in Hv as [-> _]. lia.
Qed.

Lemma mesh_leaves_in_box (n : nat) (errors : list float) (maxError : float) :
  Forall (in_box (2 ^ Z.of_nat n)) (mesh_leaves n errors maxError).
Proof.
  unfold mesh_leaves. apply Forall_app. split; apply leaves_of_in_box, shape_root.
Qed.

(** The count with unbounded indices numbers the distinct corners of
    the leaves. *)
Lemma counted_count_mesh (n : nat) (errors : list float) (maxError : float) :
  counted (count_mesh id n errors maxError)
          (list_to_set (flat_map (corner_pos (2 ^ Z.of_nat n + 1))
                                 (mesh_leaves n errors maxError))).
Proof.
  unfold count_mesh.
  rewrite <- (left_id_L ∅ (∪) (list_to_set _)).
  apply counted_count_pass; [|apply counted_zero].
  cbn [cs_indices]. rewrite length_replicate.
  eapply Forall_impl; [apply mesh_leaves_in_box|].
  intros t Ht. apply (corner_pos_in_range n t Ht).
Qed.

Lemma entries_u16_zero (len : nat) : entries_u16 (replicate len 0).
Proof. intros p v Hv. apply lookup_replicate in Hv as [-> _]. lia. Qed.

(** Every index the count pass leaves at a corner of a leaf has its
    slots inside the [vertices] slice [GetMesh] allocates. *)
Lemma count_mesh_slots_ok (n : nat) (errors : list float) (maxError : float) :
  let st := count_mesh u16 n errors maxError in
  Forall (leaf_slots_ok n (cs_indices st) (cs_numVertices st * 2))
         (mesh_leaves n errors maxError).
Proof.
  intros st. apply Forall_forall. intros t Ht.
  pose proof (proj1 (Forall_forall _ _) (mesh_leaves_in_box n errors maxError) t Ht) as Hbox.
  unfold leaf_slots_ok. apply Forall_forall. intros p Hp.
  pose proof (proj1 (Forall_forall _ _) (corner_pos_in_range n t Hbox) p Hp) as Hr.
  cbn beta in Hr.
  assert (Hlen : length (cs_indices st) = Z.to_nat ((2 ^ Z.of_nat n + 1) * (2 ^ Z.of_nat n + 1))).
  { unfold st, count_mesh. rewrite length_count_pass_w. cbn. apply length_replicate. }
  destruct (lookup_lt_is_Some_2 (cs_indices st) p) as [v Hv]; [lia|].
  assert (Hu : 0 <= v < 65536).
  { refine (entries_u16_count_pass _ _ (mkCount _ 0 0) _ p v Hv). apply entries_u16_zero. }
  unfold slot_ok, idx_at. rewrite Hv. cbn [default]. split; [exact Hu|].
  destruct (Z_le_gt_dec 65536 (cs_numVertices st * 2)) as [Hbig|Hsmall]; [left; exact Hbig|].
  right.
  assert (E : st = count_mesh id n errors maxError).
  { unfold st, count_mesh. apply count_pass_no_wrap; [cbn; lia|]. left. fold (count_mesh u16 n errors maxError).
    fold st. lia. }
  destruct (counted_count_mesh n errors maxError) as (Hmem & Hnv & Hle).
  rewrite <- E in Hmem, Hnv, Hle.
  assert (Hin : p ∈ (list_to_set (flat_map (corner_pos (2 ^ Z.of_nat n + 1))
                                           (mesh_leaves n errors maxError)) : gset nat)).
  { apply elem_of_list_to_set. apply list_elem_of_In, in_flat_map. exists t.
    split; apply list_elem_of_In; assumption. }
  apply Hmem in Hin as (v' & Hv' & Hne). rewrite Hv in Hv'. injection Hv' as <-.
  specialize (Hle _ _ Hv). unfold id. lia.
Qed.

Lemma count_pass_w_app (w : Z -> Z) (size : Z) (l1 l2 : list corners) (st : CountState) :
  count_pass_w w size (l1 ++ l2) st = count_pass_w w size l2 (count_pass_w w size l1 st).
Proof. unfold count_pass_w. apply fold_left_app. Qed.

Lemma emit_pass_w_app (size : Z) (indices : list Z) (l1 l2 : list corners) (st : EmitState) :
  emit_pass_w size indices (l1 ++ l2) st
  = emit_pass_w size indices l2 (emit_pass_w size indices l1 st).
Proof. unfold emit_pass_w. apply fold_left_app. Qed.

Lemma numVertices_count_mesh (n : nat) (errors : list float) (maxError : float) :
  0 <= cs_numVertices (count_mesh u16 n errors maxError).
Proof.
  unfold count_mesh.
  pose proof (numVertices_count_pass_w u16 (2 ^ Z.of_nat n + 1)
                (mesh_leaves n errors maxError)
                (mkCount (replicate (Z.to_nat ((2 ^ Z.of_nat n + 1) * (2 ^ Z.of_nat n + 1))) 0)
                         0 0)) as H.
  exact H.
Qed.

Lemma numTriangles_count_mesh (w : Z -> Z) (n : nat) (errors : list float) (maxError : float) :
  cs_numTriangles (count_mesh w n errors maxError)
  = Z.of_nat (length (mesh_leaves n errors maxError)).
Proof. unfold count_mesh. rewrite numTriangles_count_pass_w. cbn. lia. Qed.

Lemma root_corners_1 (tileSize : Z) :
  root_corners tileSize 1 = mkCorners 0 0 tileSize tileSize tileSize 0.
Proof. reflexivity. Qed.

Lemma root_corners_0 (tileSize : Z) :
  root_corners tileSize 0 = mkCorners tileSize tileSize 0 0 0 tileSize.
Proof. reflexivity. Qed.

Ltac zeta_roots H :=
  rewrite ?root_corners_1, ?root_corners_0 in H;
  cbn [c_ax c_ay c_bx c_by c_cx c_cy] in H.

(** [GetMesh] returns on every well-formed tile when at least
    [2n + 1] nested calls are allowed, with the outputs of the two
    passes over the leaves of the descent. *)
Theorem GetMesh_ok (n fuel : nat) (t : Tile) (maxError : float) :
  tile_wf n t -> (2 * n < fuel)%nat ->
  GetMesh fuel t maxError
  = Ok (mkMesh (es_vertices (emit_mesh n (Errors t) maxError))
               (flat_map (tri_entry (2 ^ Z.of_nat n + 1)
                                    (cs_indices (count_mesh u16 n (Errors t) maxError)))
                         (mesh_leaves n (Errors t) maxError)),
        with_indices t (cs_indices (count_mesh u16 n (Errors t) maxError))).
Proof.
  intros (Hsize & Hidx & Herr) Hfuel. unfold GetMesh. rewrite Hsize.
  set (tileSize := 2 ^ Z.of_nat n). set (size := tileSize + 1).
  replace (size - 1) with tileSize by (unfold size; lia).
  set (errors := Errors t) in *.
  set (l1 := leaves_of (2 * n) size errors maxError (root_corners tileSize 1)).
  set (l2 := leaves_of (2 * n) size errors maxError (root_corners tileSize 0)).
  assert (L1 : leaves fuel size errors maxError (root_corners tileSize 1) = Ok l1)
    by (apply leaves_shape; [exact Herr | apply shape_root | exact Hfuel]).
  assert (L2 : leaves fuel size errors maxError (root_corners tileSize 0) = Ok l2)
    by (apply leaves_shape; [exact Herr | apply shape_root | exact Hfuel]).
  assert (B1 : Forall (in_box tileSize) l1) by (apply leaves_of_in_box, shape_root).
  assert (B2 : Forall (in_box tileSize) l2) by (apply leaves_of_in_box, shape_root).
  set (st0 := mkCount (replicate (length (Indices (TileMartini t))) 0) 0 0).
  assert (Hst0 : st0 = mkCount (replicate (Z.to_nat (size * size)) 0) 0 0).
  { unfold st0. f_equal. f_equal. fold size in Hidx. lia. }
  pose proof (countElements_leaves fuel size errors maxError _ l1 st0 L1) as C1.
  zeta_roots C1.
  rewrite C1. clear C1.
  rewrite (count_pass_in_box n) by (try exact B1; unfold st0; cbn [cs_indices];
                                     rewrite length_replicate; exact Hidx).
  cbn [bind]. fold tileSize. fold size.
  pose proof (countElements_leaves fuel size errors maxError _ l2
                (count_pass_w u16 size l1 st0) L2) as C2.
  zeta_roots C2.
  rewrite C2. clear C2.
  rewrite (count_pass_in_box n)
    by (try exact B2; rewrite length_count_pass_w; unfold st0; cbn [cs_indices];
        rewrite length_replicate; exact Hidx).
  cbn [bind]. fold tileSize. fold size. rewrite <- count_pass_w_app. rewrite Hst0.
  change (count_pass_w u16 size (l1 ++ l2) _) with (count_mesh u16 n errors maxError).
  set (st := count_mesh u16 n errors maxError).
  pose proof (numVertices_count_mesh n errors maxError) as HV. fold st in HV.
  pose proof (numTriangles_count_mesh u16 n errors maxError) as HT. fold st in HT.
  unfold make.
  destruct (Z.ltb_spec (cs_numVertices st * 2) 0); [lia|].
  destruct (Z.ltb_spec (cs_numTriangles st * 3) 0); [lia|]. cbn [bind].
  set (e0 := mkEmit 0 (replicate (Z.to_nat (cs_numVertices st * 2)) 0)
                    (replicate (Z.to_nat (cs_numTriangles st * 3)) 0)).
  pose proof (count_mesh_slots_ok n errors maxError) as Hslots. cbn zeta in Hslots.
  fold st in Hslots. unfold mesh_leaves in Hslots. fold tileSize size l1 l2 in Hslots.
  apply Forall_app in Hslots as [S1 S2].
  assert (Hlen_idx : Z.of_nat (length (cs_indices st)) = size * size).
  { unfold st, count_mesh. rewrite length_count_pass_w. cbn [cs_indices].
    rewrite length_replicate. fold tileSize size. nia. }
  assert (Hll : length (mesh_leaves n errors maxError) = (length l1 + length l2)%nat).
  { unfold mesh_leaves. fold tileSize size l1 l2. apply length_app. }
  pose proof (processTriangle_leaves fuel size errors (cs_indices st) maxError _ l1 e0 L1) as P1.
  zeta_roots P1.
  rewrite P1. clear P1.
  rewrite (emit_pass_in_box n (cs_indices st) Hlen_idx).
  2: exact B1.
  2: { unfold e0. cbn [es_vertices]. rewrite length_replicate, Z2Nat.id by lia. exact S1. }
  2: { unfold e0. cbn. lia. }
  2: { unfold e0. cbn [es_triIndex es_triangles]. rewrite length_replicate. lia. }
  cbn [bind]. fold tileSize. fold size.
  pose proof (processTriangle_leaves fuel size errors (cs_indices st) maxError _ l2
                (emit_pass_w size (cs_indices st) l1 e0) L2) as P2.
  zeta_roots P2.
  rewrite P2. clear P2.
  rewrite (emit_pass_in_box n (cs_indices st) Hlen_idx).
  2: exact B2.
  2: { rewrite length_vertices_emit_pass. unfold e0. cbn [es_vertices].
       rewrite length_replicate, Z2Nat.id by lia. exact S2. }
  2: { rewrite triIndex_emit_pass. unfold e0. cbn. lia. }
  2: { rewrite triIndex_emit_pass. unfold emit_pass_w.
       assert (Hl : forall ls st', length (es_triangles (fold_left (emit_leaf_w size (cs_indices st)) ls st'))
                              = length (es_triangles st')).
       { induction ls as [|x ls IH]; intros st'; cbn [fold_left]; [reflexivity|].
         rewrite IH. apply length_triangles_emit_leaf_w. }
       rewrite Hl. unfold e0. cbn [es_triIndex es_triangles]. rewrite length_replicate. lia. }
  cbn [bind]. fold tileSize. fold size. rewrite <- emit_pass_w_app.
  change (l1 ++ l2) with (mesh_leaves n errors maxError).
  f_equal. f_equal. f_equal.
  unfold e0. rewrite HT.
  replace (Z.to_nat (Z.of_nat (length (mesh_leaves n errors maxError)) * 3))
    with (3 * length (mesh_leaves n errors maxError))%nat by lia.
  apply (triangles_emit_pass size (cs_indices st) (mesh_leaves n errors maxError) []).
Qed.

(** * The claims *)

(** ** C7: the grid-size test *)

(** For a grid size of at least two, [NewMartini] fails exactly when
    [gridSize - 1] is not a power of two, and returns the table
    otherwise. *)
Lemma NewMartini_error_iff (gridSize : Z) :
  2 <= gridSize ->
  (NewMartini gridSize = Err "Expected grid size to be 2^n+1"
   <-> ~ exists n, 0 <= n /\ gridSize - 1 = 2 ^ n) /\
  ((exists n, 0 <= n /\ gridSize - 1 = 2 ^ n) -> exists m, NewMartini gridSize = Ok m).
Proof.
  intros Hg. pose proof (grid_test_pow2 (gridSize - 1) ltac:(lia)) as Htest.
  destruct (Z.land (gridSize - 1) (gridSize - 1 - 1) >? 0) eqn:E.
  - split.
    + split.
      * intros _ Hpow. apply Htest in Hpow. discriminate.
      * intros _. unfold NewMartini. rewrite E. reflexivity.
    + intros Hpow. apply Htest in Hpow. discriminate.
  - assert (Hn : 0 <= (gridSize - 1) * (gridSize - 1) * 2 - 2) by nia.
    pose proof (NewMartini_table gridSize E Hn) as Hok. cbn zeta in Hok.
    split.
    + split.
      * intros Herr. rewrite Hok in Herr. discriminate.
      * intros Hnot. exfalso. apply Hnot. apply Htest. reflexivity.
    + intros _. eexists. exact Hok.
Qed.

Example NewMartini_513 : exists m, NewMartini 513 = Ok m.
Proof.
  apply (NewMartini_error_iff 513); [lia|]. exists 9. split; [lia | reflexivity].
Qed.

Example NewMartini_512 : NewMartini 512 = Err "Expected grid size to be 2^n+1".
Proof. reflexivity. Qed.

(** C7 (code defect). The claim: [NewMartini] returns the grid-size
    error if and only if [gridSize - 1] is not a power of two. The
    test of line 23, [(tileSize & (tileSize - 1)) > 0], lets every
    [tileSize <= 0] through: for [gridSize = 0] the tile size is [-1],
    which is not a power of two, and [NewMartini] returns an (empty)
    table and no error; for [gridSize = -1] it returns a table of six
    triangles with corners at [65534]; for [gridSize = 1] it panics in
    [make] instead of returning the error. *)
Theorem NewMartini_accepts_grid_size_0 :
  NewMartini 0 = Ok (mkMartini 0 0 (-1) [] [])
  /\ (exists m, NewMartini (-1) = Ok m /\ NumTriangles m = 6 /\ Coords m !! 0%nat = Some 65534)
  /\ NewMartini 1 = Panic.
Proof.
  split; [reflexivity|]. split; [|reflexivity].
  eexists. split; [reflexivity|]. split; reflexivity.
Qed.

(** ** C6: the triangle of a table entry *)

(** The bits of [id] below its top bit, least significant first. *)
Fixpoint id_bits (id : positive) : list bool :=
  match id with
  | xH => []
  | xO q => false :: id_bits q
  | xI q => true :: id_bits q
  end.

Lemma id_bits_testbit (id : positive) :
  forall k : nat,
    (k < length (id_bits id))%nat ->
    id_bits id !! k = Some (Z.testbit (Z.pos id) (Z.of_nat k)).
Proof.
  induction id as [q IH | q IH |]; intros k Hk; cbn [id_bits length] in *; [| |lia].
  - destruct k as [|k]; [reflexivity|]. cbn [lookup list_lookup].
    fold (@lookup nat bool (list bool) _). rewrite IH by lia.
    rewrite Nat2Z.inj_succ. change (Z.pos q~1) with (2 * Z.pos q + 1).
    rewrite Z.testbit_odd_succ by lia. reflexivity.
  - destruct k as [|k]; [reflexivity|]. cbn [lookup list_lookup].
    fold (@lookup nat bool (list bool) _). rewrite IH by lia.
    rewrite Nat2Z.inj_succ. change (Z.pos q~0) with (2 * Z.pos q).
    rewrite Z.testbit_even_succ by lia. reflexivity.
Qed.

Lemma length_id_bits_size (id : positive) : S (length (id_bits id)) = Pos.size_nat id.
Proof.
  induction id as [q IH | q IH |]; cbn [id_bits length Pos.size_nat]; congruence.
Qed.

Lemma length_id_bits (id : positive) : Z.of_nat (length (id_bits id)) = Z.log2 (Z.pos id).
Proof.
  destruct id as [q | q |]; cbn [id_bits length Z.log2]; [| |reflexivity];
    rewrite length_id_bits_size, <- size_to_nat, positive_nat_Z; reflexivity.
Qed.

(** One bisection: a set bit takes the left half, a clear bit the right
    half. *)
Definition bisect (t : corners) (bit : bool) : corners :=
  if bit then left_half t else right_half t.







(** ** C8: the depth of the descent *)

(** [fuel] is the number of nested activations of [countElements]
    (or [processTriangle]) a call may use: a call that needs more ends
    in [OutOfFuel]. *)

(** Where every error exceeds the threshold, the descent from a
    triangle [d] bisections above the unit triangles needs more than
    [d] nested calls. *)
Lemma leaves_exhausts (n : nat) (errors : list float) (maxError : float) (d : nat) :
  Z.of_nat (length errors) = (2 ^ Z.of_nat n + 1) * (2 ^ Z.of_nat n + 1) ->
  (forall x y, fgt (err_at (2 ^ Z.of_nat n + 1) errors x y) maxError = true) ->
  forall t : corners,
    shape d (2 ^ Z.of_nat n) t ->
    leaves d (2 ^ Z.of_nat n + 1) errors maxError t = OutOfFuel.
Proof.
  intros Hlen Hall. induction d as [|d IH]; intros t Hs; [reflexivity|].
  cbn [leaves]. rewrite (subdivides_shape n errors maxError Hlen _ _ Hs). cbn [bind].
  unfold split_at. rewrite Hall, andb_true_r.
  pose proof (manhattan_large _ _ _ Hs) as Hm.
  destruct (Z.gtb_spec (Z.abs (c_ax t - c_cx t) + Z.abs (c_ay t - c_cy t)) 1); [|lia].
  destruct (shape_step _ _ _ Hs) as [Hl _]. rewrite (IH _ Hl). reflexivity.
Qed.

(** C8 (amended). On a grid of tile size [2^n], for every error field
    and threshold, the descent from either root triangle returns
    within [2n + 1 = 2 * log2(tileSize) + 1] nested calls, and so does
    [GetMesh]. *)
Theorem descent_depth_bound (n : nat) (t : Tile) (maxError : float) :
  tile_wf n t ->
  (forall id, exists ls,
      leaves (2 * n + 1) (2 ^ Z.of_nat n + 1) (Errors t) maxError
             (root_corners (2 ^ Z.of_nat n) id) = Ok ls)
  /\ (forall st, Z.of_nat (length (cs_indices st)) = (2 ^ Z.of_nat n + 1) * (2 ^ Z.of_nat n + 1) ->
        exists st',
          countElements (2 * n + 1) (2 ^ Z.of_nat n + 1) (Errors t)
                        0 0 (2 ^ Z.of_nat n) (2 ^ Z.of_nat n) (2 ^ Z.of_nat n) 0 maxError st
          = Ok st')
  /\ exists r, GetMesh (2 * n + 1) t maxError = Ok r.
Proof.
  intros Hwf. pose proof Hwf as (Hsize & Hidx & Herr). split; [|split].
  - intros id. eexists. apply leaves_shape; [exact Herr | apply shape_root | lia].
  - intros st Hst.
    pose proof (leaves_shape n (Errors t) maxError Herr (2 * n) (2 * n + 1)
                  (root_corners (2 ^ Z.of_nat n) 1) (shape_root n 1) ltac:(lia)) as L.
    pose proof (countElements_leaves _ _ _ _ _ _ st L) as C. zeta_roots C. rewrite C.
    eexists. apply (count_pass_in_box n); [|exact Hst].
    apply leaves_of_in_box. rewrite <- root_corners_1. apply shape_root.
  - eexists. apply GetMesh_ok; [exact Hwf | lia].
Qed.

(** A height field on the grid of size 3 with a peak on the lower edge. *)
Definition peak3 : list float := [0; 2; 0; 0; 0; 0; 0; 0; 0]%float.

Lemma descent_depth_bound_witness :
  exists m t,
    NewMartini 3 = Ok m /\ CreateTile m peak3 = Ok t /\ tile_wf 1 t
    /\ exists r, GetMesh (2 * 1 + 1) t 0 = Ok r.
Proof.
  eexists. eexists. split; [reflexivity|]. split; [vm_compute; reflexivity|].
  assert (Hwf : tile_wf 1 (mkTile peak3
            (mkMartini 3 6 2 (replicate 9 0) (coords_table 2 6))
            [0; 2; 0; 0; 2; 0; 0; 0; 0]%float)).
  { unfold tile_wf. cbn. repeat split; reflexivity. }
  split; [exact Hwf|].
  exact (proj2 (proj2 (descent_depth_bound 1 _ 0%float Hwf))).
Defined.

(** C8 (counterexample). On the grid of size 3 ([tileSize = 2], so
    [log2(tileSize) + 1 = 2]) with a peak on the lower edge and
    threshold 0, the descent needs three nested calls: with two it runs
    out, with three [GetMesh] returns a mesh of five triangles. *)
Lemma descent_deeper_than_log2 :
  exists m t,
    NewMartini 3 = Ok m /\ CreateTile m peak3 = Ok t
    /\ GetMesh (Z.to_nat (Z.log2 2 + 1)) t 0 = OutOfFuel
    /\ countElements (Z.to_nat (Z.log2 2 + 1)) 3 (Errors t) 0 0 2 2 2 0 0
                     (mkCount (replicate 9 0) 0 0) = OutOfFuel
    /\ exists mesh t', GetMesh 3 t 0 = Ok (mesh, t') /\ length (triangles mesh) = 15%nat.
Proof.
  eexists. eexists. split; [reflexivity|]. split; [vm_compute; reflexivity|].
  split; [vm_compute; reflexivity|]. split; [vm_compute; reflexivity|].
  eexists. eexists. split; vm_compute; reflexivity.
Qed.

(** ** C9: what [GetMesh] writes *)

(** Every entry of [Indices] is zero or a counter value, reduced to
    uint16, that the count pass has assigned. *)
Definition assigned (st : CountState) : Prop :=
  forall (p : nat) (v : Z),
    cs_indices st !! p = Some v ->
    v = 0 \/ exists k, 1 <= k <= cs_numVertices st /\ v = u16 k.

Lemma assigned_count_vertex (p : nat) (st : CountState) :
  0 <= cs_numVertices st -> assigned st -> assigned (count_vertex_w u16 p st).
Proof.
  intros Hnv Ha. unfold count_vertex_w.
  destruct (cs_indices st !! p) as [v|] eqn:Hp; [|exact Ha].
  destruct (v =? 0); [|exact Ha]. intros q x Hq. cbn [cs_indices cs_numVertices] in *.
  destruct (decide (q = p)) as [->|Hne].
  - rewrite list_lookup_insert_eq in Hq by (eapply lookup_lt_Some; eassumption).
    injection Hq as <-. right. exists (cs_numVertices st + 1). split; [lia | reflexivity].
  - rewrite list_lookup_insert_ne in Hq by congruence.
    destruct (Ha _ _ Hq) as [->|(k & Hk & ->)]; [left; reflexivity|].
    right. exists k. split; [lia | reflexivity].
Qed.

Lemma assigned_count_pass (size : Z) (ls : list corners) :
  forall st : CountState,
    0 <= cs_numVertices st -> assigned st -> assigned (count_pass_w u16 size ls st).
Proof.
  unfold count_pass_w. induction ls as [|t ls IH]; intros st Hnv Ha; [exact Ha|].
  cbn [fold_left].
  set (p1 := pos size (c_ax t) (c_ay t)). set (p2 := pos size (c_bx t) (c_by t)).
  set (p3 := pos size (c_cx t) (c_cy t)).
  pose proof (numVertices_count_vertex_w u16 p1 st) as M1.
  pose proof (numVertices_count_vertex_w u16 p2 (count_vertex_w u16 p1 st)) as M2.
  pose proof (numVertices_count_vertex_w u16 p3
                (count_vertex_w u16 p2 (count_vertex_w u16 p1 st))) as M3.
  pose proof (assigned_count_vertex p1 st Hnv Ha) as A1.
  assert (A2 : assigned (count_vertex_w u16 p2 (count_vertex_w u16 p1 st)))
    by (apply assigned_count_vertex; [lia | exact A1]).
  assert (A3 : assigned (count_vertex_w u16 p3
                           (count_vertex_w u16 p2 (count_vertex_w u16 p1 st))))
    by (apply assigned_count_vertex; [lia | exact A2]).
  apply IH.
  - unfold count_leaf_w. cbn [cs_numVertices]. fold p1 p2 p3. lia.
  - unfold count_leaf_w. fold p1 p2 p3. exact A3.
Qed.

(** C9. [GetMesh] writes [Martini.Indices] only: on a well-formed tile
    it returns, and the tile it leaves has the fields [Terrain],
    [Errors], [GridSize], [NumTriangles], [NumParentTriangles] and
    [Coords] of the tile it was called on; [Indices] keeps its length
    and holds what the count pass, started from the all-zero slice,
    has stored: every entry is zero or one of the 1-based vertex
    numbers [1 .. numVertices] as a uint16. *)
Theorem GetMesh_frame (n fuel : nat) (t : Tile) (maxError : float) :
  tile_wf n t -> (2 * n < fuel)%nat ->
  exists mesh t',
    GetMesh fuel t maxError = Ok (mesh, t')
    /\ Terrain t' = Terrain t
    /\ Errors t' = Errors t
    /\ GridSize (TileMartini t') = GridSize (TileMartini t)
    /\ NumTriangles (TileMartini t') = NumTriangles (TileMartini t)
    /\ NumParentTriangles (TileMartini t') = NumParentTriangles (TileMartini t)
    /\ Coords (TileMartini t') = Coords (TileMartini t)
    /\ length (Indices (TileMartini t')) = length (Indices (TileMartini t))
    /\ Indices (TileMartini t')
       = cs_indices (count_pass_w u16 (GridSize (TileMartini t))
                       (mesh_leaves n (Errors t) maxError)
                       (mkCount (replicate (length (Indices (TileMartini t))) 0) 0 0))
    /\ (forall (p : nat) (v : Z),
          Indices (TileMartini t') !! p = Some v ->
          v = 0 \/ exists k, 1 <= k <= Z.of_nat (length (vertices mesh)) / 2 /\ v = u16 k).
Proof.
  intros Hwf Hfuel. pose proof Hwf as (Hsize & Hidx & Herr).
  eexists. eexists. split; [apply (GetMesh_ok n); assumption|].
  cbn [with_indices Terrain Errors TileMartini GridSize NumTriangles NumParentTriangles
       Coords Indices vertices].
  assert (Hlen0 : length (Indices (TileMartini t))
                  = Z.to_nat ((2 ^ Z.of_nat n + 1) * (2 ^ Z.of_nat n + 1))) by lia.
  repeat (split; [reflexivity|]). split; [|split].
  - unfold count_mesh. rewrite length_count_pass_w. cbn [cs_indices].
    rewrite length_replicate. lia.
  - rewrite Hsize, Hlen0. reflexivity.
  - intros p v Hv.
    assert (Ha : assigned (count_mesh u16 n (Errors t) maxError)).
    { unfold count_mesh. apply assigned_count_pass; [cbn; lia|].
      intros q x Hq. cbn [cs_indices] in Hq. apply lookup_replicate in Hq as [-> _].
      left. reflexivity. }
    destruct (Ha _ _ Hv) as [->|(k & Hk & ->)]; [left; reflexivity|].
    right. exists k. split; [|reflexivity].
    unfold emit_mesh. rewrite length_vertices_emit_pass. cbn [es_vertices].
    rewrite length_replicate.
    pose proof (numVertices_count_mesh n (Errors t) maxError).
    rewrite Z2Nat.id by lia. rewrite Z.div_mul by lia. exact Hk.
Qed.

Lemma GetMesh_frame_witness :
  exists t : Tile,
    tile_wf 1 t /\ (2 * 1 < 3)%nat
    /\ exists mesh t', GetMesh 3 t 0 = Ok (mesh, t') /\ Errors t' = Errors t
                       /\ Coords (TileMartini t') = Coords (TileMartini t).
Proof.
  exists (mkTile peak3 (mkMartini 3 6 2 (replicate 9 7) (coords_table 2 6))
                 [0; 2; 0; 0; 2; 0; 0; 0; 0]%float).
  assert (Hwf : tile_wf 1 (mkTile peak3 (mkMartini 3 6 2 (replicate 9 7) (coords_table 2 6))
                                  [0; 2; 0; 0; 2; 0; 0; 0; 0]%float)).
  { unfold tile_wf. cbn. repeat split; reflexivity. }
  split; [exact Hwf|]. split; [lia|].
  destruct (GetMesh_frame 1 3 _ 0%float Hwf ltac:(lia))
    as (mesh & t' & H1 & _ & H2 & _ & _ & _ & H3 & _).
  exists mesh, t'. split; [exact H1 | split; [exact H2 | exact H3]].
Defined.

(** ** C4: determinism of the extraction *)

Lemma tile_wf_with_indices (n : nat) (t : Tile) (indices : list Z) :
  tile_wf n t -> length indices = length (Indices (TileMartini t)) ->
  tile_wf n (with_indices t indices).
Proof.
  intros (Hsize & Hidx & Herr) Hlen. unfold tile_wf, with_indices. cbn.
  repeat split; [exact Hsize | rewrite Hlen; exact Hidx | exact Herr].
Qed.

(** C4. Two calls of [GetMesh] with the same error field and threshold
    return the same vertex and triangle sequences, whatever the calls
    before them have left in [Indices]: on a well-formed tile a call
    returns a mesh, a second call on the tile the first one leaves
    returns the same mesh, and so does a call on any well-formed tile
    with the same error field. The two passes descend to the same
    leaves: the count pass counts one triangle per leaf and the emit
    pass writes the three entries of each leaf in turn, so that
    [triangles] holds exactly [3 * numTriangles] written entries and
    [vertices] has length [2 * numVertices]. *)
Theorem GetMesh_deterministic (n fuel : nat) (t : Tile) (maxError : float) :
  tile_wf n t -> (2 * n < fuel)%nat ->
  exists mesh t1,
    GetMesh fuel t maxError = Ok (mesh, t1)
    /\ GetMesh fuel t1 maxError = Ok (mesh, t1)
    /\ (forall t2, tile_wf n t2 -> Errors t2 = Errors t ->
          exists t3, GetMesh fuel t2 maxError = Ok (mesh, t3))
    /\ (let ls := mesh_leaves n (Errors t) maxError in
        let st := count_pass_w u16 (GridSize (TileMartini t)) ls
                    (mkCount (replicate (length (Indices (TileMartini t))) 0) 0 0) in
        cs_numTriangles st = Z.of_nat (length ls)
        /\ triangles mesh = flat_map (tri_entry (GridSize (TileMartini t)) (cs_indices st)) ls
        /\ Z.of_nat (length (triangles mesh)) = 3 * cs_numTriangles st
        /\ Z.of_nat (length (vertices mesh)) = 2 * cs_numVertices st).
Proof.
  intros Hwf Hfuel. pose proof Hwf as (Hsize & Hidx & Herr).
  eexists. eexists. split; [apply (GetMesh_ok n); assumption|].
  set (idx := cs_indices (count_mesh u16 n (Errors t) maxError)).
  assert (Hlen : length idx = length (Indices (TileMartini t))).
  { unfold idx, count_mesh. rewrite length_count_pass_w. cbn [cs_indices].
    rewrite length_replicate. lia. }
  split; [|split].
  - pose proof (GetMesh_ok n fuel (with_indices t idx) maxError
                  (tile_wf_with_indices n t idx Hwf Hlen) Hfuel) as H2.
    cbn [with_indices Errors] in H2. rewrite H2. reflexivity.
  - intros t2 Hwf2 He. eexists. rewrite (GetMesh_ok n fuel t2 maxError Hwf2 Hfuel), He.
    reflexivity.
  - cbn zeta. cbn [triangles vertices].
    assert (Hlen0 : length (Indices (TileMartini t))
                    = Z.to_nat ((2 ^ Z.of_nat n + 1) * (2 ^ Z.of_nat n + 1))) by lia.
    rewrite Hsize, Hlen0. fold (count_mesh u16 n (Errors t) maxError).
    pose proof (numTriangles_count_mesh u16 n (Errors t) maxError) as HT.
    pose proof (numVertices_count_mesh n (Errors t) maxError) as HV.
    split; [exact HT|]. split; [reflexivity|]. split.
    + rewrite HT. clear. induction (mesh_leaves n (Errors t) maxError) as [|x l IH];
        cbn [flat_map length]; [reflexivity|].
      rewrite length_app. unfold tri_entry at 1. cbn [length]. lia.
    + unfold emit_mesh. rewrite length_vertices_emit_pass. cbn [es_vertices].
      rewrite length_replicate. lia.
Qed.

Lemma GetMesh_deterministic_witness :
  exists t : Tile,
    tile_wf 1 t /\ (2 * 1 < 3)%nat
    /\ exists mesh t1, GetMesh 3 t 0 = Ok (mesh, t1) /\ GetMesh 3 t1 0 = Ok (mesh, t1).
Proof.
  exists (mkTile peak3 (mkMartini 3 6 2 (replicate 9 7) (coords_table 2 6))
                 [0; 2; 0; 0; 2; 0; 0; 0; 0]%float).
  assert (Hwf : tile_wf 1 (mkTile peak3 (mkMartini 3 6 2 (replicate 9 7) (coords_table 2 6))
                                  [0; 2; 0; 0; 2; 0; 0; 0; 0]%float)).
  { unfold tile_wf. cbn. repeat split; reflexivity. }
  split; [exact Hwf|]. split; [lia|].
  destruct (GetMesh_deterministic 1 3 _ 0%float Hwf ltac:(lia)) as (mesh & t1 & H1 & H2 & _).
  exists mesh, t1. split; [exact H1 | exact H2].
Defined.

(** ** The order of float64 *)

Ltac cmp_cases :=
  repeat match goal with
  | |- context [Z.compare ?a ?b] => destruct (Z.compare_spec a b)
  | H : context [Z.compare ?a ?b] |- _ => destruct (Z.compare_spec a b)
  | |- context [Pos.compare_cont Eq ?a ?b] =>
      change (Pos.compare_cont Eq a b) with (Pos.compare a b);
      destruct (Pos.compare_spec a b)
  | H : context [Pos.compare_cont Eq ?a ?b] |- _ =>
      change (Pos.compare_cont Eq a b) with (Pos.compare a b) in H;
      destruct (Pos.compare_spec a b)
  end.

Ltac sf_cases :=
  repeat match goal with s : bool |- _ => destruct s end;
  cbn; try discriminate; try reflexivity;
  cmp_cases; cbn; intros; subst; try discriminate; try reflexivity; try lia.

Lemma SF_le_lt_trans (x y z : spec_float) :
  SFleb x y = true -> SFltb y z = true -> SFltb x z = true.
Proof.
  unfold SFleb, SFltb.
  destruct x as [sx|sx| |sx mx ex], y as [sy|sy| |sy my ey], z as [sz|sz| |sz mz ez];
    cbn [SFcompare]; try discriminate; sf_cases.
Qed.

(** [e1 <= e2] and [x > e2] give [x > e1]. *)
Lemma fgt_le_trans (x e1 e2 : float) :
  PrimFloat.leb e1 e2 = true -> fgt x e2 = true -> fgt x e1 = true.
Proof.
  unfold fgt. rewrite leb_spec, !ltb_spec. apply SF_le_lt_trans.
Qed.

(** Nothing exceeds [+Inf]. *)
Lemma fgt_infinity (x : float) : fgt x infinity = false.
Proof.
  unfold fgt. rewrite ltb_spec. unfold SFltb.
  change (Prim2SF infinity) with (S754_infinity false).
  destruct (Prim2SF x) as [s|s| |s m e]; try reflexivity; destruct s; reflexivity.
Qed.

(** ** The two extremes of the descent *)

Definition unit_triangle (t : corners) : Prop :=
  Z.abs (c_ax t - c_cx t) + Z.abs (c_ay t - c_cy t) = 1.

Section Extremes.
Variable n : nat.
Variable errors : list float.
Variable maxError : float.

Let tileSize : Z := 2 ^ Z.of_nat n.
Let size : Z := tileSize + 1.

Hypothesis errors_length : Z.of_nat (length errors) = size * size.

Lemma err_at_entry (t : corners) :
  in_box tileSize t ->
  exists e, errors !! pos size (mid_x t) (mid_y t) = Some e
            /\ err_at size errors (mid_x t) (mid_y t) = e.
Proof.
  intros Hbox. destruct (mid_in_box _ _ Hbox) as [Hx Hy].
  pose proof (index_in_range tileSize _ _ Hx Hy) as Hi. fold size in Hi.
  destruct (lookup_lt_is_Some_2 errors (pos size (mid_x t) (mid_y t))) as [e He];
    [unfold pos; lia|].
  exists e. split; [exact He|]. unfold err_at. fold (pos size (mid_x t) (mid_y t)).
  rewrite He. reflexivity.
Qed.

(** Where every entry of the error field exceeds the threshold, the
    descent stops at the unit triangles only. *)
Lemma leaves_of_all_split (d : nat) :
  (forall p e, errors !! p = Some e -> fgt e maxError = true) ->
  forall t : corners,
    shape d tileSize t ->
    Forall unit_triangle (leaves_of d size errors maxError t).
Proof.
  intros Hall. induction d as [|d IH]; intros t Hs; cbn [leaves_of].
  - apply Forall_singleton. exact (manhattan_unit _ _ Hs).
  - destruct (err_at_entry t (shape_in_box _ _ _ Hs)) as (e & He & Hat).
    unfold split_at. rewrite Hat, (Hall _ _ He), andb_true_r.
    pose proof (manhattan_large _ _ _ Hs) as Hm.
    destruct (Z.gtb_spec (Z.abs (c_ax t - c_cx t) + Z.abs (c_ay t - c_cy t)) 1); [|lia].
    destruct (shape_step _ _ _ Hs) as [Hl Hr]. apply Forall_app. split; auto.
Qed.

(** Where no entry of the error field exceeds the threshold, the
    descent stops at its root. *)
Lemma leaves_of_no_split (d : nat) (t : corners) :
  (forall p e, errors !! p = Some e -> fgt e maxError = false) ->
  shape d tileSize t ->
  leaves_of d size errors maxError t = [t].
Proof.
  intros Hnone Hs. destruct d as [|d]; cbn [leaves_of]; [reflexivity|].
  destruct (err_at_entry t (shape_in_box _ _ _ Hs)) as (e & He & Hat).
  unfold split_at. rewrite Hat, (Hnone _ _ He), andb_false_r. reflexivity.
Qed.
End Extremes.

Lemma count_vertex_w_fresh (w : Z -> Z) (p : nat) (st : CountState) :
  cs_indices st !! p = Some 0 ->
  count_vertex_w w p st
  = mkCount (<[p := w (cs_numVertices st + 1)]> (cs_indices st))
            (cs_numTriangles st) (cs_numVertices st + 1).
Proof. intros H. unfold count_vertex_w. rewrite H. reflexivity. Qed.

Lemma count_vertex_w_seen (w : Z -> Z) (p : nat) (st : CountState) (v : Z) :
  cs_indices st !! p = Some v -> v <> 0 -> count_vertex_w w p st = st.
Proof.
  intros H Hv. unfold count_vertex_w. rewrite H.
  destruct (Z.eqb_spec v 0); [contradiction | reflexivity].
Qed.

(** The mesh of the two root triangles: the four grid corners, as
    uint16, in the order the count pass meets them. *)
Definition root_mesh (tileSize : Z) : Mesh :=
  mkMesh [0; 0; u16 tileSize; u16 tileSize; u16 tileSize; 0; 0; u16 tileSize]
         [0; 1; 2; 1; 0; 3].

Lemma two_roots_mesh (n : nat) (errors : list float) (maxError : float) :
  mesh_leaves n errors maxError
  = [root_corners (2 ^ Z.of_nat n) 1; root_corners (2 ^ Z.of_nat n) 0] ->
  mkMesh (es_vertices (emit_mesh n errors maxError))
         (flat_map (tri_entry (2 ^ Z.of_nat n + 1)
                              (cs_indices (count_mesh u16 n errors maxError)))
                   (mesh_leaves n errors maxError))
  = root_mesh (2 ^ Z.of_nat n).
Proof.
  intros Hls. pose proof (pow2_pos n) as Hts.
  set (tileSize := 2 ^ Z.of_nat n) in *. set (size := tileSize + 1).
  set (N := Z.to_nat (size * size)).
  set (p1 := pos size 0 0). set (p2 := pos size tileSize tileSize).
  set (p3 := pos size tileSize 0). set (p4 := pos size 0 tileSize).
  assert (Hp : (p1 < p3 /\ p3 < p4 /\ p4 < p2 /\ p2 < N)%nat).
  { unfold p1, p2, p3, p4, N, pos, size. repeat split; nia. }
  set (i1 := <[p1 := 1]> (replicate N 0)).
  set (i2 := <[p2 := 2]> i1). set (i3 := <[p3 := 3]> i2). set (i4 := <[p4 := 4]> i3).
  assert (L1 : length i1 = N) by (unfold i1; rewrite length_insert, length_replicate; reflexivity).
  assert (L2 : length i2 = N) by (unfold i2; rewrite length_insert; exact L1).
  assert (L3 : length i3 = N) by (unfold i3; rewrite length_insert; exact L2).
  assert (Hcount : count_mesh u16 n errors maxError = mkCount i4 2 4).
  { unfold count_mesh. rewrite Hls. fold tileSize size N.
    unfold count_pass_w. cbn [fold_left]. unfold count_leaf_w at 2.
    rewrite root_corners_1. cbn [c_ax c_ay c_bx c_by c_cx c_cy]. fold p1 p2 p3.
    rewrite (count_vertex_w_fresh u16 p1)
      by (cbn [cs_indices]; apply lookup_replicate_2; lia).
    cbn [cs_indices cs_numTriangles cs_numVertices]. change (u16 (0 + 1)) with 1. fold i1.
    rewrite (count_vertex_w_fresh u16 p2)
      by (cbn [cs_indices]; unfold i1; rewrite list_lookup_insert_ne by lia;
          apply lookup_replicate_2; lia).
    cbn [cs_indices cs_numTriangles cs_numVertices]. change (u16 (0 + 1 + 1)) with 2. fold i2.
    rewrite (count_vertex_w_fresh u16 p3)
      by (cbn [cs_indices]; unfold i2, i1; rewrite !list_lookup_insert_ne by lia;
          apply lookup_replicate_2; lia).
    cbn [cs_indices cs_numTriangles cs_numVertices]. change (u16 (0 + 1 + 1 + 1)) with 3.
    fold i3. unfold count_leaf_w.
    rewrite root_corners_0. cbn [c_ax c_ay c_bx c_by c_cx c_cy]. fold p1 p2 p4.
    cbn [cs_indices cs_numTriangles cs_numVertices].
    rewrite (count_vertex_w_seen u16 p2 _ 2)
      by (first [lia | cbn [cs_indices]; unfold i3, i2; rewrite list_lookup_insert_ne by lia;
                       apply list_lookup_insert_eq; lia]).
    rewrite (count_vertex_w_seen u16 p1 _ 1)
      by (first [lia | cbn [cs_indices]; unfold i3, i2, i1;
                       rewrite !list_lookup_insert_ne by lia;
                       apply list_lookup_insert_eq; rewrite length_replicate; lia]).
    rewrite (count_vertex_w_fresh u16 p4)
      by (cbn [cs_indices]; unfold i3, i2, i1; rewrite !list_lookup_insert_ne by lia;
          apply lookup_replicate_2; lia).
    cbn [cs_indices cs_numTriangles cs_numVertices]. reflexivity. }
  assert (H1 : idx_at i4 p1 = 1).
  { unfold idx_at, i4, i3, i2, i1. rewrite !list_lookup_insert_ne by lia.
    rewrite list_lookup_insert_eq by (rewrite length_replicate; lia). reflexivity. }
  assert (H2 : idx_at i4 p2 = 2).
  { unfold idx_at, i4, i3, i2. rewrite !list_lookup_insert_ne by lia.
    rewrite list_lookup_insert_eq by lia. reflexivity. }
  assert (H3 : idx_at i4 p3 = 3).
  { unfold idx_at, i4, i3. rewrite !list_lookup_insert_ne by lia.
    rewrite list_lookup_insert_eq by lia. reflexivity. }
  assert (H4 : idx_at i4 p4 = 4).
  { unfold idx_at, i4. rewrite list_lookup_insert_eq by lia. reflexivity. }
  unfold emit_mesh, root_mesh. rewrite Hcount, Hls. fold tileSize size.
  cbn [cs_indices cs_numTriangles cs_numVertices].
  unfold emit_pass_w. cbn [fold_left flat_map]. unfold emit_leaf_w, tri_entry.
  rewrite root_corners_1, root_corners_0. cbn [c_ax c_ay c_bx c_by c_cx c_cy].
  fold p1 p2 p3 p4. rewrite H1, H2, H3, H4.
  cbn [es_vertices es_triIndex es_triangles]. reflexivity.
Qed.

Lemma mesh_leaves_no_split (n : nat) (errors : list float) (maxError : float) :
  Z.of_nat (length errors) = (2 ^ Z.of_nat n + 1) * (2 ^ Z.of_nat n + 1) ->
  (forall p e, errors !! p = Some e -> fgt e maxError = false) ->
  mesh_leaves n errors maxError
  = [root_corners (2 ^ Z.of_nat n) 1; root_corners (2 ^ Z.of_nat n) 0].
Proof.
  intros Hlen Hnone. unfold mesh_leaves.
  rewrite !(leaves_of_no_split n errors maxError Hlen (2 * n)) by (exact Hnone || apply shape_root).
  reflexivity.
Qed.

Lemma GetMesh_no_split (n fuel : nat) (t : Tile) (maxError : float) :
  tile_wf n t -> (2 * n < fuel)%nat ->
  (forall p e, Errors t !! p = Some e -> fgt e maxError = false) ->
  exists t', GetMesh fuel t maxError = Ok (root_mesh (2 ^ Z.of_nat n), t').
Proof.
  intros Hwf Hfuel Hnone. pose proof Hwf as (_ & _ & Herr).
  eexists. rewrite (GetMesh_ok n fuel t maxError Hwf Hfuel).
  rewrite two_roots_mesh by (apply mesh_leaves_no_split; assumption). reflexivity.
Qed.

(** ** The triangles of the table *)

Lemma path_corners_shape (tileSize : Z) (q : positive) :
  forall (d : nat) (t : corners),
    shape d tileSize t -> (length (id_bits q) <= d)%nat ->
    shape (d - length (id_bits q)) tileSize (path_corners q t).
Proof.
  induction q as [q IH | q IH |]; intros d t Hs Hd; cbn [id_bits length path_corners] in *.
  - destruct d as [|d]; [lia|]. destruct (shape_step _ _ _ Hs) as [Hl _].
    apply (IH d _ Hl). lia.
  - destruct d as [|d]; [lia|]. destruct (shape_step _ _ _ Hs) as [_ Hr].
    apply (IH d _ Hr). lia.
  - rewrite Nat.sub_0_r. exact Hs.
Qed.

(** The number of bisections between the triangle of table entry [i]
    and the unit triangles. *)
Definition rank (n : nat) (i : Z) : nat := (2 * n + 1 - Z.to_nat (Z.log2 (i + 2)))%nat.

Lemma log2_table_id (n : nat) (i : Z) :
  0 <= i < 2 ^ Z.of_nat n * 2 ^ Z.of_nat n * 2 - 2 ->
  1 <= Z.log2 (i + 2) <= 2 * Z.of_nat n.
Proof.
  intros Hi. split.
  - apply Z.log2_le_pow2; [lia|]. cbn. lia.
  - assert (Hlt : Z.log2 (i + 2) < 2 * Z.of_nat n + 1); [|lia].
    apply Z.log2_lt_pow2; [lia|].
    rewrite Z.pow_add_r, Z.pow_mul_r by lia. change (2 ^ 2) with 4. change (2 ^ 1) with 2.
    replace (4 ^ Z.of_nat n) with (2 ^ Z.of_nat n * 2 ^ Z.of_nat n); [lia|].
    rewrite <- Z.pow_mul_l. reflexivity.
Qed.

Lemma table_shape (n : nat) (i : Z) :
  0 <= i < 2 ^ Z.of_nat n * 2 ^ Z.of_nat n * 2 - 2 ->
  shape (rank n i) (2 ^ Z.of_nat n) (corners_of (2 ^ Z.of_nat n) (Z.to_pos (i + 2)))
  /\ (1 <= rank n i <= 2 * n)%nat.
Proof.
  intros Hi. pose proof (log2_table_id n i Hi) as Hlog. unfold rank.
  destruct (i + 2) as [|p|p] eqn:Hp; [lia| |lia]. cbn [Z.to_pos].
  pose proof (length_id_bits p) as Hlen.
  destruct p as [q | q |]; [| |cbn in Hlog; lia]; cbn [corners_of id_bits length] in *.
  - split; [|lia].
    replace (2 * n + 1 - Z.to_nat (Z.log2 (Z.pos q~1)))%nat
      with (2 * n - length (id_bits q))%nat by lia.
    apply path_corners_shape; [apply shape_root | lia].
  - split; [|lia].
    replace (2 * n + 1 - Z.to_nat (Z.log2 (Z.pos q~0)))%nat
      with (2 * n - length (id_bits q))%nat by lia.
    apply path_corners_shape; [apply shape_root | lia].
Qed.

(** The parents ([i < NumParentTriangles]) are the triangles at least
    two bisections above the unit triangles. *)
Lemma parent_rank (n : nat) (i : Z) :
  0 <= i < 2 ^ Z.of_nat n * 2 ^ Z.of_nat n * 2 - 2 ->
  (i <? 2 ^ Z.of_nat n * 2 ^ Z.of_nat n * 2 - 2 - 2 ^ Z.of_nat n * 2 ^ Z.of_nat n)
  = (2 <=? rank n i)%nat.
Proof.
  intros Hi. pose proof (log2_table_id n i Hi) as Hlog. unfold rank.
  assert (H4 : 2 ^ (2 * Z.of_nat n) = 2 ^ Z.of_nat n * 2 ^ Z.of_nat n).
  { rewrite Z.pow_mul_r by lia. change (2 ^ 2) with 4. rewrite <- Z.pow_mul_l. reflexivity. }
  destruct (Z.ltb_spec i (2 ^ Z.of_nat n * 2 ^ Z.of_nat n * 2 - 2
                          - 2 ^ Z.of_nat n * 2 ^ Z.of_nat n)) as [Hlt|Hge];
    symmetry.
  - apply Nat.leb_le.
    assert (Z.log2 (i + 2) < 2 * Z.of_nat n); [|lia].
    apply Z.log2_lt_pow2; [lia|]. rewrite H4. lia.
  - apply Nat.leb_gt.
    assert (2 * Z.of_nat n <= Z.log2 (i + 2)); [|lia].
    apply Z.log2_le_pow2; [lia|]. rewrite H4. lia.
Qed.

(** ** [Update] *)

Definition fl_at (l : list float) (p : nat) : float := default 0%float (l !! p).

(** [(p + q) >> 1] on uint16. *)
Definition u_mid (p q : Z) : Z := Z.shiftr (u16 (p + q)) 1.

(** One iteration of [Update] where no index is out of range: [pa],
    [pb], [pm] are the entries of the corners [a], [b] and of the
    midpoint, [pl] and [pr] those of the midpoints of the children. *)
Definition update_at (parent : bool) (terrain errors : list float) (pa pb pm pl pr : nat)
    : list float :=
  let middleError :=
    goabs ((fl_at terrain pa + fl_at terrain pb) / 2 - fl_at terrain pm)%float in
  let errors1 := <[pm := gomax (fl_at errors pm) middleError]> errors in
  if parent
  then <[pm := gomax (gomax (fl_at errors1 pm) (fl_at errors1 pl)) (fl_at errors1 pr)]> errors1
  else errors1.

Lemma length_update_at (parent : bool) (terrain errors : list float) (pa pb pm pl pr : nat) :
  length (update_at parent terrain errors pa pb pm pl pr) = length errors.
Proof. unfold update_at. destruct parent; rewrite ?length_insert; reflexivity. Qed.

Lemma load_fl_at (tileSize x y : Z) (l : list float) :
  Z.of_nat (length l) = (tileSize + 1) * (tileSize + 1) ->
  0 <= x <= tileSize -> 0 <= y <= tileSize ->
  load l (y * (tileSize + 1) + x) = Ok (fl_at l (pos (tileSize + 1) x y)).
Proof.
  intros Hlen Hx Hy. pose proof (index_in_range tileSize x y Hx Hy) as Hi.
  destruct (load_in_range l (y * (tileSize + 1) + x)) as [e He]; [lia|].
  rewrite He. apply load_Ok in He as [_ He]. unfold fl_at, pos. rewrite He. reflexivity.
Qed.

Lemma store_pos (tileSize x y : Z) (l : list float) (v : float) :
  Z.of_nat (length l) = (tileSize + 1) * (tileSize + 1) ->
  0 <= x <= tileSize -> 0 <= y <= tileSize ->
  store l (y * (tileSize + 1) + x) v = Ok (<[pos (tileSize + 1) x y := v]> l).
Proof.
  intros Hlen Hx Hy. pose proof (index_in_range tileSize x y Hx Hy) as Hi.
  apply store_in_range. lia.
Qed.

Section UpdateStep.
Variable tileSize : Z.
Variable numParent : Z.
Variables coords : list Z.
Variables terrain errors : list float.
Variable i : Z.
Variables ax ay bx by_ : Z.

Let size : Z := tileSize + 1.
Let mx : Z := u_mid ax bx.
Let my : Z := u_mid ay by_.
Let cx : Z := u16 (u16 (mx + my) - ay).
Let cy : Z := u16 (u16 (my + ax) - mx).

Hypothesis terrain_length : Z.of_nat (length terrain) = size * size.
Hypothesis errors_length : Z.of_nat (length errors) = size * size.
Hypothesis load_ax : load coords (i * 4 + 0) = Ok ax.
Hypothesis load_ay : load coords (i * 4 + 1) = Ok ay.
Hypothesis load_bx : load coords (i * 4 + 2) = Ok bx.
Hypothesis load_by : load coords (i * 4 + 3) = Ok by_.
Hypothesis a_in : 0 <= ax <= tileSize /\ 0 <= ay <= tileSize.
Hypothesis b_in : 0 <= bx <= tileSize /\ 0 <= by_ <= tileSize.
Hypothesis m_in : 0 <= mx <= tileSize /\ 0 <= my <= tileSize.
Hypothesis l_in : 0 <= u_mid ax cx <= tileSize /\ 0 <= u_mid ay cy <= tileSize.
Hypothesis r_in : 0 <= u_mid bx cx <= tileSize /\ 0 <= u_mid by_ cy <= tileSize.

Lemma update_step_in_range :
  update_step size numParent coords terrain errors i
  = Ok (update_at (i <? numParent) terrain errors
          (pos size ax ay) (pos size bx by_) (pos size mx my)
          (pos size (u_mid ax cx) (u_mid ay cy)) (pos size (u_mid bx cx) (u_mid by_ cy))).
Proof.
  unfold update_step. rewrite load_ax, load_ay, load_bx, load_by. cbn [bind].
  fold (u_mid ax bx) (u_mid ay by_). fold mx my. fold cx cy.
  unfold size. rewrite !(load_fl_at tileSize _ _ terrain) by tauto. cbn [bind].
  rewrite (load_fl_at tileSize _ _ errors) by tauto. cbn [bind].
  rewrite store_pos by tauto. cbn [bind]. unfold update_at. fold size.
  destruct (i <? numParent); [|reflexivity].
  fold (u_mid ay cy) (u_mid ax cx) (u_mid by_ cy) (u_mid bx cx). unfold size.
  rewrite !(load_fl_at tileSize) by (rewrite ?length_insert; tauto). cbn [bind].
  rewrite store_pos by (rewrite ?length_insert; tauto). reflexivity.
Qed.
End UpdateStep.

Lemma load_coords_table (tileSize n i : Z) (r : nat) :
  0 <= i < n -> (r < 4)%nat ->
  load (coords_table tileSize n) (i * 4 + Z.of_nat r)
  = match coords_entry tileSize i !! r with Some v => Ok v | None => Panic end.
Proof.
  intros Hi Hr. unfold load. destruct (Z.ltb_spec (i * 4 + Z.of_nat r) 0); [lia|].
  replace (Z.to_nat (i * 4 + Z.of_nat r)) with (Z.to_nat (4 * i) + r)%nat by lia.
  rewrite coords_table_lookup by assumption. reflexivity.
Qed.

(** In a triangle above the unit triangles the midpoint of the
    hypotenuse is a grid vertex, and [c] is the midpoint turned by a
    quarter about it (the identity of lines 115-116). *)
Lemma shape_mid_exact (d : nat) (tileSize : Z) (t : corners) :
  shape (S d) tileSize t ->
  2 * mid_x t = c_ax t + c_bx t /\ 2 * mid_y t = c_ay t + c_by t
  /\ c_cx t = mid_x t + mid_y t - c_ay t /\ c_cy t = mid_y t + c_ax t - mid_x t.
Proof.
  unfold shape, shape_k, legs, mid_x, mid_y. rewrite !shiftr_1.
  rewrite Nat.odd_succ, <- Nat.negb_odd, div2_succ.
  destruct (Nat.odd d); simpl negb; cbv iota.
  - rewrite Nat2Z.inj_succ, Z.pow_succ_r by apply Nat2Z.is_nonneg.
    intros (_ & Hbx & Hby & Hl & _). zlia.
  - intros (_ & Hbx & Hby & Hl & _). zlia.
Qed.

Lemma u16_le (x : Z) : 0 <= x -> 0 <= u16 x <= x.
Proof. intros Hx. unfold u16. split; [zlia|]. apply Z.mod_le; lia. Qed.

Lemma u_mid_small (p q : Z) : 0 <= u_mid p q <= 32767.
Proof. unfold u_mid. rewrite shiftr_1. pose proof (u16_range (p + q)). zlia. Qed.

Lemma u_mid_exact (p q : Z) : 0 <= p + q < 65536 -> u_mid p q = Z.shiftr (p + q) 1.
Proof. intros H. unfold u_mid. rewrite u16_small by exact H. reflexivity. Qed.

Lemma pow2_le_mono (a b : nat) : (a <= b)%nat -> 2 ^ Z.of_nat a <= 2 ^ Z.of_nat b.
Proof. intros H. apply Z.pow_le_mono_r; lia. Qed.

Section TableStep.
Variable n : nat.
Variables terrain errors : list float.
Variable i : Z.

Let tileSize : Z := 2 ^ Z.of_nat n.
Let size : Z := tileSize + 1.
Let numTriangles : Z := tileSize * tileSize * 2 - 2.
Let numParent : Z := numTriangles - tileSize * tileSize.
Let t : corners := corners_of tileSize (Z.to_pos (i + 2)).

Hypothesis terrain_length : Z.of_nat (length terrain) = size * size.
Hypothesis errors_length : Z.of_nat (length errors) = size * size.
Hypothesis i_range : 0 <= i < numTriangles.

Lemma table_entry_loads :
  load (coords_table tileSize numTriangles) (i * 4 + 0) = Ok (u16 (c_ax t))
  /\ load (coords_table tileSize numTriangles) (i * 4 + 1) = Ok (u16 (c_ay t))
  /\ load (coords_table tileSize numTriangles) (i * 4 + 2) = Ok (u16 (c_bx t))
  /\ load (coords_table tileSize numTriangles) (i * 4 + 3) = Ok (u16 (c_by t)).
Proof.
  pose proof (load_coords_table tileSize numTriangles i 0 i_range ltac:(lia)) as H0.
  pose proof (load_coords_table tileSize numTriangles i 1 i_range ltac:(lia)) as H1.
  pose proof (load_coords_table tileSize numTriangles i 2 i_range ltac:(lia)) as H2.
  pose proof (load_coords_table tileSize numTriangles i 3 i_range ltac:(lia)) as H3.
  repeat split; assumption.
Qed.

(** On grids up to tile size [2^14] the uint16 locals of [Update] are
    the corners and midpoints of the triangle of the entry. *)
Lemma table_step_exact :
  (n <= 14)%nat ->
  update_step size numParent (coords_table tileSize numTriangles) terrain errors i
  = Ok (update_at (2 <=? rank n i)%nat terrain errors
          (pos size (c_ax t) (c_ay t)) (pos size (c_bx t) (c_by t))
          (pos size (mid_x t) (mid_y t))
          (pos size (mid_x (left_half t)) (mid_y (left_half t)))
          (pos size (mid_x (right_half t)) (mid_y (right_half t)))).
Proof.
  intros Hn. destruct (table_shape n i i_range) as [Hs Hr]. fold tileSize t in Hs.
  destruct (rank n i) as [|d] eqn:Hrank; [lia|].
  pose proof (shape_in_box _ _ _ Hs) as (Ha & Hb & Hc).
  destruct (shape_mid_exact _ _ _ Hs) as (Hmx & Hmy & Hcx & Hcy).
  destruct (mid_in_box _ _ (shape_in_box _ _ _ Hs)) as [Hmxr Hmyr].
  assert (Hts : tileSize <= 16384).
  { unfold tileSize. change 16384 with (2 ^ Z.of_nat 14). apply pow2_le_mono. exact Hn. }
  destruct table_entry_loads as (L0 & L1 & L2 & L3).
  rewrite !u16_small in L0, L1, L2, L3 by lia.
  assert (Emx : u_mid (c_ax t) (c_bx t) = mid_x t) by (apply u_mid_exact; lia).
  assert (Emy : u_mid (c_ay t) (c_by t) = mid_y t) by (apply u_mid_exact; lia).
  assert (Ecx : u16 (u16 (mid_x t + mid_y t) - c_ay t) = c_cx t)
    by (rewrite (u16_small (_ + _)) by lia; rewrite u16_small by lia; lia).
  assert (Ecy : u16 (u16 (mid_y t + c_ax t) - mid_x t) = c_cy t)
    by (rewrite (u16_small (_ + _)) by lia; rewrite u16_small by lia; lia).
  pose proof (update_step_in_range tileSize numParent (coords_table tileSize numTriangles)
                terrain errors i (c_ax t) (c_ay t) (c_bx t) (c_by t)
                terrain_length errors_length L0 L1 L2 L3) as Hstep.
  rewrite Emx, Emy, Ecx, Ecy in Hstep.
  assert (Elx : u_mid (c_ax t) (c_cx t) = mid_x (left_half t))
    by (rewrite u_mid_exact by lia; unfold mid_x, left_half; cbn; f_equal; lia).
  assert (Ely : u_mid (c_ay t) (c_cy t) = mid_y (left_half t))
    by (rewrite u_mid_exact by lia; unfold mid_y, left_half; cbn; f_equal; lia).
  assert (Erx : u_mid (c_bx t) (c_cx t) = mid_x (right_half t))
    by (rewrite u_mid_exact by lia; unfold mid_x, right_half; cbn; reflexivity).
  assert (Ery : u_mid (c_by t) (c_cy t) = mid_y (right_half t))
    by (rewrite u_mid_exact by lia; unfold mid_y, right_half; cbn; reflexivity).
  rewrite Elx, Ely, Erx, Ery in Hstep.
  assert (Hlb : in_box tileSize (left_half t)).
  { unfold in_box, left_half. cbn. tauto. }
  assert (Hrb : in_box tileSize (right_half t)).
  { unfold in_box, right_half. cbn. tauto. }
  specialize (Hstep ltac:(tauto) ltac:(tauto) ltac:(tauto)
                    (mid_in_box _ _ Hlb) (mid_in_box _ _ Hrb)).
  fold size in Hstep. rewrite Hstep. f_equal. f_equal.
  unfold numParent, numTriangles, tileSize. rewrite parent_rank by exact i_range.
  rewrite Hrank. reflexivity.
Qed.
End TableStep.

(** *** A flat terrain *)

(** The interpolation error of a flat terrain of height [c] vanishes:
    [c + c] does not overflow and cancels against [c]. It holds for
    every finite [c] up to half the largest float64, and fails for the
    larger ones, for the infinities and for NaN. *)
Definition flat_error_zero (c : float) : Prop :=
  goabs ((c + c) / 2 - c)%float = 0%float.

Lemma fl_at_replicate (len p : nat) (c : float) :
  (p < len)%nat -> fl_at (replicate len c) p = c.
Proof. intros Hp. unfold fl_at. rewrite lookup_replicate_2 by exact Hp. reflexivity. Qed.

Lemma update_at_flat (parent : bool) (len : nat) (c : float) (pa pb pm pl pr : nat) :
  flat_error_zero c ->
  (pa < len)%nat -> (pb < len)%nat -> (pm < len)%nat -> (pl < len)%nat -> (pr < len)%nat ->
  update_at parent (replicate len c) (replicate len 0%float) pa pb pm pl pr
  = replicate len 0%float.
Proof.
  intros Hc Ha Hb Hm Hl Hr. unfold update_at.
  rewrite !(fl_at_replicate len _ c) by assumption. rewrite Hc.
  rewrite (fl_at_replicate len pm 0%float) by assumption.
  change (gomax 0 0) with 0%float.
  rewrite (list_insert_id (replicate len 0%float) pm 0%float)
    by (apply lookup_replicate_2; exact Hm).
  destruct parent; [|reflexivity].
  rewrite !(fl_at_replicate len _ 0%float) by assumption.
  change (gomax (gomax 0 0) 0) with 0%float.
  apply list_insert_id. apply lookup_replicate_2. exact Hm.
Qed.

Section FlatUpdate.
Variable n : nat.
Variable c : float.

Let tileSize : Z := 2 ^ Z.of_nat n.
Let size : Z := tileSize + 1.
Let numTriangles : Z := tileSize * tileSize * 2 - 2.
Let numParent : Z := numTriangles - tileSize * tileSize.
Let len : nat := Z.to_nat (size * size).

Hypothesis flat : flat_error_zero c.

Lemma pos_lt_len (x y : Z) :
  0 <= x <= tileSize -> 0 <= y <= tileSize -> (pos size x y < len)%nat.
Proof. intros Hx Hy. apply (pos_in_range n x y Hx Hy). Qed.

Lemma table_step_flat (i : Z) :
  0 <= i < numTriangles ->
  update_step size numParent (coords_table tileSize numTriangles)
              (replicate len c) (replicate len 0%float) i
  = Ok (replicate len 0%float).
Proof.
  intros Hi. pose proof (pow2_pos n) as Hts. fold tileSize in Hts.
  assert (Hlen : forall x : float, Z.of_nat (length (replicate len x)) = size * size).
  { intros x. rewrite length_replicate. unfold len. nia. }
  destruct (table_shape n i Hi) as [Hs Hr]. fold tileSize in Hs.
  set (t := corners_of tileSize (Z.to_pos (i + 2))) in *.
  pose proof (shape_in_box _ _ _ Hs) as (Ha & Hb & Hc).
  destruct (le_lt_dec n 14) as [Hn|Hn].
  - etransitivity; [exact (table_step_exact n _ _ i (Hlen c) (Hlen 0%float) Hi Hn)|].
    fold tileSize size t. f_equal.
    destruct (mid_in_box _ _ (shape_in_box _ _ _ Hs)).
    assert (Hlb : in_box tileSize (left_half t)) by (unfold in_box, left_half; cbn; tauto).
    assert (Hrb : in_box tileSize (right_half t)) by (unfold in_box, right_half; cbn; tauto).
    destruct (mid_in_box _ _ Hlb). destruct (mid_in_box _ _ Hrb).
    apply update_at_flat; [exact flat | apply pos_lt_len; tauto ..].
  - assert (Hbig : 32768 <= tileSize).
    { unfold tileSize. change 32768 with (2 ^ Z.of_nat 15). apply pow2_le_mono. lia. }
    destruct (table_entry_loads n [] [] i Hi) as (L0 & L1 & L2 & L3).
    fold tileSize numTriangles t in L0, L1, L2, L3.
    pose proof (u16_le (c_ax t)). pose proof (u16_le (c_ay t)).
    pose proof (u16_le (c_bx t)). pose proof (u16_le (c_by t)).
    assert (Hum : forall p q, 0 <= u_mid p q <= tileSize)
      by (intros p q; pose proof (u_mid_small p q); lia).
    etransitivity;
      [apply (update_step_in_range tileSize numParent _ _ _ i _ _ _ _
                (Hlen c) (Hlen 0%float) L0 L1 L2 L3); split; (apply Hum || lia)|].
    f_equal. apply update_at_flat; [exact flat | apply pos_lt_len; (apply Hum || lia) ..].
Qed.

Lemma update_errors_flat (m : Martini) :
  GridSize m = size -> NumTriangles m = numTriangles -> NumParentTriangles m = numParent ->
  Coords m = coords_table tileSize numTriangles ->
  update_errors m (replicate len c) (replicate len 0%float) = Ok (replicate len 0%float).
Proof.
  intros Hg Hn Hp Hc. unfold update_errors. rewrite Hg, Hn, Hp, Hc.
  assert (Hall : Forall (fun i => 0 <= i < numTriangles) (reverse (seqZ 0 numTriangles))).
  { apply Forall_forall. intros i Hin. rewrite elem_of_reverse, elem_of_seqZ in Hin. lia. }
  induction (reverse (seqZ 0 numTriangles)) as [|i l IH]; [reflexivity|].
  apply Forall_cons in Hall as [Hi Hall]. cbn [foldM].
  rewrite table_step_flat by exact Hi. cbn [bind]. apply IH. exact Hall.
Qed.
End FlatUpdate.

(** ** C2: a flat terrain *)

Lemma NewMartini_pow2 (n : nat) :
  let tileSize := 2 ^ Z.of_nat n in
  let numTriangles := tileSize * tileSize * 2 - 2 in
  NewMartini (tileSize + 1)
  = Ok (mkMartini (tileSize + 1) numTriangles (numTriangles - tileSize * tileSize)
          (replicate (Z.to_nat ((tileSize + 1) * (tileSize + 1))) 0)
          (coords_table tileSize numTriangles)).
Proof.
  intros tileSize numTriangles. pose proof (pow2_pos n) as Hp. fold tileSize in Hp.
  assert (Htest : (Z.land (tileSize + 1 - 1) (tileSize + 1 - 1 - 1) >? 0) = false).
  { apply grid_test_pow2; [lia|]. exists (Z.of_nat n). split; [lia|]. unfold tileSize. lia. }
  pose proof (NewMartini_table (tileSize + 1) Htest ltac:(nia)) as Hok. cbn zeta in Hok.
  replace (tileSize + 1 - 1) with tileSize in Hok by lia. exact Hok.
Qed.

(** C2 (amended). For every valid grid size, a height field all of
    whose elements are one constant [c] whose interpolation error
    [|(c + c) / 2 - c|] evaluates to zero (every finite [c] of
    magnitude up to half the largest float64) has an error field that
    is zero everywhere, and [GetMesh] with [maxError = 0] returns
    exactly four vertices, the grid corners (as uint16), and the two
    root triangles. *)
Theorem flat_terrain_mesh (n fuel : nat) (c : float) (terrain : list float) :
  flat_error_zero c ->
  Z.of_nat (length terrain) = (2 ^ Z.of_nat n + 1) * (2 ^ Z.of_nat n + 1) ->
  (forall h, h ∈ terrain -> h = c) ->
  (2 * n < fuel)%nat ->
  exists m t t',
    NewMartini (2 ^ Z.of_nat n + 1) = Ok m
    /\ CreateTile m terrain = Ok t
    /\ length (Errors t) = length terrain
    /\ (forall e, e ∈ Errors t -> e = 0%float)
    /\ GetMesh fuel t 0 = Ok (root_mesh (2 ^ Z.of_nat n), t')
    /\ vertices (root_mesh (2 ^ Z.of_nat n))
       = [0; 0; u16 (2 ^ Z.of_nat n); u16 (2 ^ Z.of_nat n);
          u16 (2 ^ Z.of_nat n); 0; 0; u16 (2 ^ Z.of_nat n)]
    /\ triangles (root_mesh (2 ^ Z.of_nat n)) = [0; 1; 2; 1; 0; 3].
Proof.
  intros Hflat Hlen Hall Hfuel.
  set (tileSize := 2 ^ Z.of_nat n) in *. set (size := tileSize + 1) in *.
  set (len := Z.to_nat (size * size)).
  assert (Hterrain : terrain = replicate len c).
  { symmetry. apply replicate_as_elem_of. split; [lia | exact Hall]. }
  subst terrain.
  pose proof (NewMartini_pow2 n) as Hm. cbn zeta in Hm. fold tileSize size in Hm.
  set (numTriangles := tileSize * tileSize * 2 - 2) in *.
  set (m := mkMartini size numTriangles (numTriangles - tileSize * tileSize)
                      (replicate (Z.to_nat (size * size)) 0)
                      (coords_table tileSize numTriangles)) in *.
  pose proof (update_errors_flat n c Hflat m eq_refl eq_refl eq_refl eq_refl) as Hup.
  fold tileSize size len in Hup.
  set (t := mkTile (replicate len c) m (replicate len 0%float)).
  assert (Htile : CreateTile m (replicate len c) = Ok t).
  { unfold CreateTile, NewTile. cbn [GridSize m].
    destruct (Z.eqb_spec (Z.of_nat (length (replicate len c))) (size * size)) as [_|Hne];
      [|contradiction].
    cbn [negb]. unfold make. destruct (Z.ltb_spec (Z.of_nat (length (replicate len c))) 0); [lia|].
    cbn [bind]. rewrite Nat2Z.id, length_replicate. unfold Update.
    cbn [TileMartini Terrain Errors]. rewrite Hup. reflexivity. }
  assert (Hwf : tile_wf n t).
  { unfold tile_wf, t. cbn. fold tileSize size. rewrite !length_replicate.
    repeat split; unfold len; nia. }
  destruct (GetMesh_no_split n fuel t 0%float Hwf Hfuel) as [t' Hmesh].
  { intros p e He. cbn in He. apply lookup_replicate in He as [-> _]. reflexivity. }
  exists m, t, t'. split; [exact Hm|]. split; [exact Htile|].
  split; [cbn; rewrite !length_replicate; reflexivity|].
  split; [intros e He; cbn in He; apply elem_of_replicate in He as [-> _]; reflexivity|].
  split; [exact Hmesh|]. split; reflexivity.
Qed.

Lemma flat_terrain_mesh_witness :
  flat_error_zero 100
  /\ Z.of_nat (length (replicate 9 100%float)) = (2 ^ Z.of_nat 1 + 1) * (2 ^ Z.of_nat 1 + 1)
  /\ (forall h, h ∈ replicate 9 100%float -> h = 100%float)
  /\ (2 * 1 < 3)%nat
  /\ exists m t t',
       NewMartini 3 = Ok m /\ CreateTile m (replicate 9 100%float) = Ok t
       /\ GetMesh 3 t 0 = Ok (root_mesh 2, t').
Proof.
  assert (H1 : flat_error_zero 100) by reflexivity.
  assert (H2 : Z.of_nat (length (replicate 9 100%float))
               = (2 ^ Z.of_nat 1 + 1) * (2 ^ Z.of_nat 1 + 1)) by reflexivity.
  assert (H3 : forall h, h ∈ replicate 9 100%float -> h = 100%float)
    by (intros h Hh; apply elem_of_replicate in Hh as [-> _]; reflexivity).
  assert (H4 : (2 * 1 < 3)%nat) by lia.
  split; [exact H1|]. split; [exact H2|]. split; [exact H3|]. split; [exact H4|].
  destruct (flat_terrain_mesh 1 3 100%float _ H1 H2 H3 H4)
    as (m & t & t' & Hm & Ht & _ & _ & Hg & _).
  exists m, t, t'. split; [exact Hm|]. split; [exact Ht | exact Hg].
Defined.

(** C2 (counterexample). A height field that is [2^1023] everywhere:
    [c + c] overflows to [+Inf], the interpolation error is [+Inf] at
    every midpoint, and on the grid of size 3 [GetMesh] with
    [maxError = 0] returns the eight unit triangles on nine vertices. *)
Lemma flat_terrain_overflow :
  exists m t mesh t',
    NewMartini 3 = Ok m
    /\ CreateTile m (replicate 9 0x1p1023%float) = Ok t
    /\ Errors t !! 4%nat = Some infinity
    /\ GetMesh 3 t 0 = Ok (mesh, t')
    /\ length (vertices mesh) = 18%nat
    /\ length (triangles mesh) = 24%nat.
Proof.
  eexists. eexists. eexists. eexists.
  split; [reflexivity|]. split; [vm_compute; reflexivity|].
  split; [reflexivity|]. split; [vm_compute; reflexivity|].
  split; reflexivity.
Qed.

(** ** Coarser thresholds prune the descent *)

Section Monotone.
Variable size : Z.
Variable errors : list float.
Variables e1 e2 : float.

Hypothesis e1_le_e2 : PrimFloat.leb e1 e2 = true.

Lemma split_at_mono (t : corners) :
  split_at size errors e2 t = true -> split_at size errors e1 t = true.
Proof.
  unfold split_at. intros H. apply andb_true_iff in H as [H1 H2].
  rewrite H1. cbn [andb]. exact (fgt_le_trans _ _ _ e1_le_e2 H2).
Qed.

Lemma leaves_of_nonempty (d : nat) (e : float) (t : corners) :
  (1 <= length (leaves_of d size errors e t))%nat.
Proof.
  revert t. induction d as [|d IH]; intros t; cbn [leaves_of]; [simpl; lia|].
  destruct (split_at size errors e t); [|simpl; lia].
  rewrite length_app. specialize (IH (left_half t)). lia.
Qed.

Lemma leaves_of_mono_length (d : nat) :
  forall t : corners,
    (length (leaves_of d size errors e2 t) <= length (leaves_of d size errors e1 t))%nat.
Proof.
  induction d as [|d IH]; intros t; cbn [leaves_of]; [lia|].
  destruct (split_at size errors e2 t) eqn:E2.
  - rewrite (split_at_mono t E2), !length_app.
    specialize (IH (left_half t)) as IHl. specialize (IH (right_half t)) as IHr. lia.
  - pose proof (leaves_of_nonempty (S d) e1 t) as H. cbn [leaves_of] in H. exact H.
Qed.

(** The corners of a triangle are corners of the leaves below it. *)
Lemma corners_covered (d : nat) (e : float) :
  forall (t : corners) (p : nat),
    p ∈ corner_pos size t -> p ∈ flat_map (corner_pos size) (leaves_of d size errors e t).
Proof.
  induction d as [|d IH]; intros t p Hp; cbn [leaves_of].
  - cbn [flat_map]. rewrite app_nil_r. exact Hp.
  - destruct (split_at size errors e t); [|cbn [flat_map]; rewrite app_nil_r; exact Hp].
    rewrite flat_map_app. apply elem_of_app.
    unfold corner_pos in Hp. apply elem_of_cons in Hp as [->|Hp].
    + left. apply IH. unfold corner_pos, left_half. cbn. set_solver.
    + apply elem_of_cons in Hp as [->|Hp].
      * right. apply IH. unfold corner_pos, right_half. cbn. set_solver.
      * apply list_elem_of_singleton in Hp as ->.
        left. apply IH. unfold corner_pos, left_half. cbn. set_solver.
Qed.

Lemma leaves_of_mono_corners (d : nat) :
  forall (t : corners) (p : nat),
    p ∈ flat_map (corner_pos size) (leaves_of d size errors e2 t) ->
    p ∈ flat_map (corner_pos size) (leaves_of d size errors e1 t).
Proof.
  induction d as [|d IH]; intros t p Hp; cbn [leaves_of] in *; [exact Hp|].
  destruct (split_at size errors e2 t) eqn:E2.
  - rewrite (split_at_mono t E2). rewrite flat_map_app in *.
    apply elem_of_app in Hp as [Hp|Hp]; apply elem_of_app; [left | right]; apply IH; exact Hp.
  - cbn [flat_map] in Hp. rewrite app_nil_r in Hp.
    exact (corners_covered (S d) e1 t p Hp).
Qed.
End Monotone.

Lemma mesh_leaves_mono (n : nat) (errors : list float) (e1 e2 : float) :
  PrimFloat.leb e1 e2 = true ->
  (length (mesh_leaves n errors e2) <= length (mesh_leaves n errors e1))%nat
  /\ (list_to_set (flat_map (corner_pos (2 ^ Z.of_nat n + 1)) (mesh_leaves n errors e2))
      : gset nat)
     ⊆ list_to_set (flat_map (corner_pos (2 ^ Z.of_nat n + 1)) (mesh_leaves n errors e1)).
Proof.
  intros Hle. unfold mesh_leaves. split.
  - rewrite !length_app.
    pose proof (leaves_of_mono_length (2 ^ Z.of_nat n + 1) errors e1 e2 Hle (2 * n)
                  (root_corners (2 ^ Z.of_nat n) 1)).
    pose proof (leaves_of_mono_length (2 ^ Z.of_nat n + 1) errors e1 e2 Hle (2 * n)
                  (root_corners (2 ^ Z.of_nat n) 0)).
    lia.
  - intros p Hp. apply elem_of_list_to_set in Hp. apply elem_of_list_to_set.
    rewrite flat_map_app in *.
    apply elem_of_app in Hp as [Hp|Hp]; apply elem_of_app; [left | right];
      exact (leaves_of_mono_corners _ errors e1 e2 Hle _ _ _ Hp).
Qed.

(** The number of vertices the count pass reports is the number of
    distinct corners of the leaves, as long as that stays below
    [2^16]. *)
Lemma numVertices_distinct (n : nat) (errors : list float) (maxError : float) :
  let corners := (list_to_set (flat_map (corner_pos (2 ^ Z.of_nat n + 1))
                                        (mesh_leaves n errors maxError)) : gset nat) in
  cs_numVertices (count_mesh id n errors maxError) = Z.of_nat (size corners)
  /\ (cs_numVertices (count_mesh u16 n errors maxError) <= 65535
      \/ Z.of_nat (size corners) <= 65535 ->
      count_mesh u16 n errors maxError = count_mesh id n errors maxError).
Proof.
  intros corners. destruct (counted_count_mesh n errors maxError) as (_ & Hnv & _).
  fold corners in Hnv. split; [exact Hnv|]. intros H.
  unfold count_mesh. apply count_pass_no_wrap; [cbn; lia|].
  fold (count_mesh u16 n errors maxError) (count_mesh id n errors maxError).
  rewrite Hnv. exact H.
Qed.

Lemma length_vertices_emit_mesh (n : nat) (errors : list float) (maxError : float) :
  Z.of_nat (length (es_vertices (emit_mesh n errors maxError)))
  = cs_numVertices (count_mesh u16 n errors maxError) * 2.
Proof.
  unfold emit_mesh. rewrite length_vertices_emit_pass. cbn [es_vertices].
  rewrite length_replicate. pose proof (numVertices_count_mesh n errors maxError). lia.
Qed.

Lemma length_triangles_mesh (n : nat) (errors : list float) (maxError : float) (idx : list Z) :
  length (flat_map (tri_entry (2 ^ Z.of_nat n + 1) idx) (mesh_leaves n errors maxError))
  = (3 * length (mesh_leaves n errors maxError))%nat.
Proof.
  induction (mesh_leaves n errors maxError) as [|x l IH]; cbn [flat_map length]; [reflexivity|].
  rewrite length_app, IH. unfold tri_entry. cbn [length]. lia.
Qed.

(** ** Monotonicity in the threshold *)

(** X6. Raising the threshold never increases the number of triangles,
    and never increases the number of vertices of a mesh of at most
    65535 vertices (where no stored index wraps). *)
Theorem extraction_monotone (n fuel : nat) (t : Tile) (e1 e2 : float) :
  tile_wf n t -> (2 * n < fuel)%nat -> PrimFloat.leb e1 e2 = true ->
  exists m1 t1 m2 t2,
    GetMesh fuel t e1 = Ok (m1, t1) /\ GetMesh fuel t e2 = Ok (m2, t2)
    /\ (length (triangles m2) <= length (triangles m1))%nat
    /\ (Z.of_nat (length (vertices m1)) <= 2 * 65535 ->
        (length (vertices m2) <= length (vertices m1))%nat).
Proof.
  intros Hwf Hfuel Hle.
  eexists. eexists. eexists. eexists.
  split; [apply (GetMesh_ok n); assumption|]. split; [apply (GetMesh_ok n); assumption|].
  cbn [triangles vertices].
  destruct (mesh_leaves_mono n (Errors t) e1 e2 Hle) as [Hlen Hsub].
  split; [rewrite !length_triangles_mesh; lia|].
  intros Hsmall.
  pose proof (length_vertices_emit_mesh n (Errors t) e1) as L1.
  pose proof (length_vertices_emit_mesh n (Errors t) e2) as L2.
  destruct (numVertices_distinct n (Errors t) e1) as [D1 W1].
  destruct (numVertices_distinct n (Errors t) e2) as [D2 W2].
  pose proof (subseteq_size _ _ Hsub) as Hsize.
  rewrite W1 in L1 by lia. rewrite D1 in L1.
  rewrite W2 in L2 by lia. rewrite D2 in L2. lia.
Qed.

Lemma extraction_monotone_witness :
  exists t : Tile,
    tile_wf 1 t /\ (2 * 1 < 3)%nat /\ PrimFloat.leb 0 1 = true
    /\ exists m1 t1 m2 t2,
         GetMesh 3 t 0 = Ok (m1, t1) /\ GetMesh 3 t 1 = Ok (m2, t2)
         /\ (length (triangles m2) <= length (triangles m1))%nat.
Proof.
  exists (mkTile peak3 (mkMartini 3 6 2 (replicate 9 0) (coords_table 2 6))
                 [0; 2; 0; 0; 2; 0; 0; 0; 0]%float).
  assert (Hwf : tile_wf 1 (mkTile peak3 (mkMartini 3 6 2 (replicate 9 0) (coords_table 2 6))
                                  [0; 2; 0; 0; 2; 0; 0; 0; 0]%float)).
  { unfold tile_wf. cbn. repeat split; reflexivity. }
  split; [exact Hwf|]. split; [lia|]. split; [reflexivity|].
  destruct (extraction_monotone 1 3 _ 0%float 1%float Hwf ltac:(lia) eq_refl)
    as (m1 & t1 & m2 & t2 & H1 & H2 & H3 & _).
  exists m1, t1, m2, t2. split; [exact H1|]. split; [exact H2 | exact H3].
Defined.

(** ** C10: the stored vertex indices *)

(** The entries of a leaf in [triangles] when the indices are the
    assignment order itself. *)
Definition true_entry (size : Z) (indices : list Z) (t : corners) : list Z :=
  [idx_at indices (pos size (c_ax t) (c_ay t)) - 1;
   idx_at indices (pos size (c_bx t) (c_by t)) - 1;
   idx_at indices (pos size (c_cx t) (c_cy t)) - 1].

(** In the count with unbounded indices every assigned number stays in
    [Indices]. *)
Definition numbered (st : CountState) : Prop :=
  forall k, 1 <= k <= cs_numVertices st -> exists p, cs_indices st !! p = Some k.

Lemma numbered_count_vertex (p : nat) (st : CountState) :
  0 <= cs_numVertices st -> numbered st -> numbered (count_vertex_w id p st).
Proof.
  intros Hnv Hn. unfold count_vertex_w.
  destruct (cs_indices st !! p) as [v|] eqn:Hp; [|exact Hn].
  destruct (Z.eqb_spec v 0) as [->|Hv]; [|exact Hn].
  intros k Hk. cbn [cs_indices cs_numVertices] in *.
  destruct (Z.eq_dec k (cs_numVertices st + 1)) as [->|Hne].
  - exists p. apply list_lookup_insert_eq. eapply lookup_lt_Some; eassumption.
  - destruct (Hn k ltac:(lia)) as [q Hq]. exists q.
    rewrite list_lookup_insert_ne; [exact Hq|]. intros <-. rewrite Hp in Hq.
    injection Hq as <-. lia.
Qed.

Lemma numbered_count_pass (size : Z) (ls : list corners) :
  forall st : CountState,
    0 <= cs_numVertices st -> numbered st -> numbered (count_pass_w id size ls st).
Proof.
  unfold count_pass_w. induction ls as [|t ls IH]; intros st Hnv Hn; [exact Hn|].
  cbn [fold_left].
  set (p1 := pos size (c_ax t) (c_ay t)). set (p2 := pos size (c_bx t) (c_by t)).
  set (p3 := pos size (c_cx t) (c_cy t)).
  pose proof (numVertices_count_vertex_w id p1 st) as M1.
  pose proof (numVertices_count_vertex_w id p2 (count_vertex_w id p1 st)) as M2.
  pose proof (numVertices_count_vertex_w id p3
                (count_vertex_w id p2 (count_vertex_w id p1 st))) as M3.
  pose proof (numbered_count_vertex p1 st Hnv Hn) as A1.
  assert (A2 : numbered (count_vertex_w id p2 (count_vertex_w id p1 st)))
    by (apply numbered_count_vertex; [lia | exact A1]).
  assert (A3 : numbered (count_vertex_w id p3
                           (count_vertex_w id p2 (count_vertex_w id p1 st))))
    by (apply numbered_count_vertex; [lia | exact A2]).
  apply IH.
  - unfold count_leaf_w. cbn [cs_numVertices]. fold p1 p2 p3. lia.
  - unfold count_leaf_w. fold p1 p2 p3. exact A3.
Qed.

(** C10. [GetMesh] stores, for every vertex it numbers, the 1-based
    assignment counter reduced modulo [2^16], and emits for every
    corner of a leaf that stored value minus one (as a uint16). When
    the leaves have at most 65535 distinct corners, the stored indices
    are the assignment order itself and the emitted entries are that
    order minus one; when they have more, the stored indices differ
    from the assignment order. *)
Theorem stored_indices_wrap (n fuel : nat) (t : Tile) (maxError : float) :
  tile_wf n t -> (2 * n < fuel)%nat ->
  let sz := 2 ^ Z.of_nat n + 1 in
  let ls := mesh_leaves n (Errors t) maxError in
  let distinct := size (list_to_set (flat_map (corner_pos sz) ls) : gset nat) in
  let stored := count_mesh u16 n (Errors t) maxError in
  let order := count_mesh id n (Errors t) maxError in
  exists mesh t',
    GetMesh fuel t maxError = Ok (mesh, t')
    /\ Indices (TileMartini t') = cs_indices stored
    /\ triangles mesh = flat_map (tri_entry sz (cs_indices stored)) ls
    /\ (forall p v, cs_indices stored !! p = Some v ->
          v = 0 \/ exists k, 1 <= k <= cs_numVertices stored /\ v = k mod 65536)
    /\ cs_numVertices order = Z.of_nat distinct
    /\ (Z.of_nat distinct <= 65535 ->
        stored = order
        /\ triangles mesh = flat_map (true_entry sz (cs_indices order)) ls
        /\ Z.of_nat (length (vertices mesh)) = 2 * Z.of_nat distinct)
    /\ (65535 < Z.of_nat distinct -> cs_indices stored <> cs_indices order).
Proof.
  intros Hwf Hfuel sz ls distinct stored order.
  eexists. eexists. split; [apply (GetMesh_ok n); assumption|].
  cbn [with_indices TileMartini Indices triangles vertices].
  fold sz ls stored.
  destruct (numVertices_distinct n (Errors t) maxError) as [Hd Hw].
  fold sz ls distinct stored order in Hd, Hw.
  split; [reflexivity|]. split; [reflexivity|]. split; [|split; [exact Hd|split]].
  - assert (Ha : assigned stored).
    { unfold stored, count_mesh. apply assigned_count_pass; [cbn; lia|].
      intros q x Hq. cbn [cs_indices] in Hq. apply lookup_replicate in Hq as [-> _].
      left. reflexivity. }
    exact Ha.
  - intros Hsmall. assert (E : stored = order) by (apply Hw; right; exact Hsmall).
    split; [exact E|]. split.
    + rewrite E. destruct (counted_count_mesh n (Errors t) maxError) as (Hmem & Hnv & Hle).
      fold sz ls order in Hmem, Hnv, Hle.
      assert (Hentry : forall l, l ∈ ls ->
                tri_entry sz (cs_indices order) l = true_entry sz (cs_indices order) l).
      { intros l Hl. unfold tri_entry, true_entry.
        assert (Hc : forall p, p ∈ corner_pos sz l ->
                   u16 (idx_at (cs_indices order) p - 1) = idx_at (cs_indices order) p - 1).
        { intros p Hp.
          assert (Hin : p ∈ (list_to_set (flat_map (corner_pos sz) ls) : gset nat)).
          { apply elem_of_list_to_set, list_elem_of_In, in_flat_map. exists l.
            split; apply list_elem_of_In; assumption. }
          apply Hmem in Hin as (v & Hv & Hne). unfold idx_at. rewrite Hv. cbn [default].
          specialize (Hle _ _ Hv). rewrite Hd in Hle. apply u16_small. unfold id. lia. }
        rewrite !Hc by (unfold corner_pos; set_solver). reflexivity. }
      clear -Hentry. induction ls as [|l ls' IH]; [reflexivity|]. cbn [flat_map].
      rewrite Hentry by set_solver. f_equal. apply IH. intros l' Hl'. apply Hentry. set_solver.
    + rewrite length_vertices_emit_mesh. fold stored. rewrite E, Hd. lia.
  - intros Hbig Heq.
    assert (Hn : numbered order).
    { unfold order, count_mesh. apply numbered_count_pass; [cbn; lia|].
      intros k Hk. cbn in Hk. lia. }
    destruct (Hn 65536 ltac:(lia)) as [p Hp]. rewrite <- Heq in Hp.
    assert (Hu : entries_u16 (cs_indices stored)).
    { unfold stored, count_mesh. apply entries_u16_count_pass. apply entries_u16_zero. }
    specialize (Hu _ _ Hp). lia.
Qed.

Lemma stored_indices_wrap_witness :
  exists t : Tile,
    tile_wf 1 t /\ (2 * 1 < 3)%nat
    /\ exists mesh t',
         GetMesh 3 t 0 = Ok (mesh, t')
         /\ Indices (TileMartini t') = cs_indices (count_mesh u16 1 (Errors t) 0).
Proof.
  exists (mkTile peak3 (mkMartini 3 6 2 (replicate 9 0) (coords_table 2 6))
                 [0; 2; 0; 0; 2; 0; 0; 0; 0]%float).
  assert (Hwf : tile_wf 1 (mkTile peak3 (mkMartini 3 6 2 (replicate 9 0) (coords_table 2 6))
                                  [0; 2; 0; 0; 2; 0; 0; 0; 0]%float)).
  { unfold tile_wf. cbn. repeat split; reflexivity. }
  split; [exact Hwf|]. split; [lia|].
  destruct (stored_indices_wrap 1 3 _ 0%float Hwf ltac:(lia)) as (mesh & t' & H1 & H2 & _).
  exists mesh, t'. split; [exact H1 | exact H2].
Defined.

(** ** [math.Max] on the floats that are not NaN *)

Definition fle (x y : float) : Prop := PrimFloat.leb x y = true.

Lemma SFeqb_refl (s : spec_float) : s <> S754_nan -> SFeqb s s = true.
Proof.
  unfold SFeqb. destruct s as [b|b| |b m e]; cbn [SFcompare]; try congruence; intros _;
    destruct b; try reflexivity; rewrite Z.compare_refl, Pos.compare_cont_refl; reflexivity.
Qed.

Lemma is_nan_spec (x : float) : is_nan x = false <-> Prim2SF x <> S754_nan.
Proof.
  unfold is_nan. rewrite FloatAxioms.eqb_spec. split.
  - intros H Hn. rewrite Hn in H. discriminate.
  - intros H. rewrite SFeqb_refl by exact H. reflexivity.
Qed.

Lemma Prim2SF_inj (x y : float) : Prim2SF x = Prim2SF y -> x = y.
Proof. intros H. rewrite <- (SF2Prim_Prim2SF x), <- (SF2Prim_Prim2SF y), H. reflexivity. Qed.

Lemma eqb_infinity_eq (x : float) : PrimFloat.eqb x infinity = true -> x = infinity.
Proof.
  rewrite FloatAxioms.eqb_spec. change (Prim2SF infinity) with (S754_infinity false). intros H.
  apply Prim2SF_inj. change (Prim2SF infinity) with (S754_infinity false).
  unfold SFeqb in H. destruct (Prim2SF x) as [b|b| |b m e]; cbn [SFcompare] in H;
    try discriminate; destruct b; try discriminate; reflexivity.
Qed.

Lemma SFleb_refl (s : spec_float) : s <> S754_nan -> SFleb s s = true.
Proof.
  unfold SFleb. destruct s as [b|b| |b m e]; cbn [SFcompare]; try congruence; intros _;
    destruct b; try reflexivity; rewrite Z.compare_refl, Pos.compare_cont_refl; reflexivity.
Qed.

Lemma SFleb_trans (x y z : spec_float) :
  SFleb x y = true -> SFleb y z = true -> SFleb x z = true.
Proof.
  unfold SFleb.
  destruct x as [sx|sx| |sx mx ex], y as [sy|sy| |sy my ey], z as [sz|sz| |sz mz ez];
    cbn [SFcompare]; try discriminate; sf_cases.
Qed.

Lemma SFleb_infinity (s : spec_float) :
  s <> S754_nan -> SFleb s (S754_infinity false) = true.
Proof.
  unfold SFleb. destruct s as [b|b| |b m e]; cbn [SFcompare]; try congruence; intros _;
    destruct b; reflexivity.
Qed.

Lemma SFeqb_leb (x y : spec_float) :
  SFeqb x y = true -> SFleb x y = true /\ SFleb y x = true.
Proof.
  unfold SFeqb, SFleb.
  destruct x as [sx|sx| |sx mx ex], y as [sy|sy| |sy my ey];
    cbn [SFcompare]; try discriminate; sf_cases; split; sf_cases.
Qed.

Lemma SFltb_leb (x y : spec_float) : SFltb x y = true -> SFleb x y = true.
Proof.
  unfold SFltb, SFleb.
  destruct x as [sx|sx| |sx mx ex], y as [sy|sy| |sy my ey];
    cbn [SFcompare]; try discriminate; sf_cases.
Qed.

Lemma SFleb_total (x y : spec_float) :
  x <> S754_nan -> y <> S754_nan -> SFltb y x = false -> SFleb x y = true.
Proof.
  unfold SFltb, SFleb.
  destruct x as [sx|sx| |sx mx ex], y as [sy|sy| |sy my ey];
    cbn [SFcompare]; try congruence; intros _ _; sf_cases.
Qed.

Lemma fle_refl (x : float) : is_nan x = false -> fle x x.
Proof. intros H. unfold fle. rewrite FloatAxioms.leb_spec. apply SFleb_refl, is_nan_spec, H. Qed.

Lemma fle_trans (x y z : float) : fle x y -> fle y z -> fle x z.
Proof. unfold fle. rewrite !FloatAxioms.leb_spec. apply SFleb_trans. Qed.

(** [math.Max] of two floats that are not NaN is one of them, and not
    below either. *)
Lemma gomax_cases (x y : float) :
  is_nan x = false -> is_nan y = false -> gomax x y = x \/ gomax x y = y.
Proof.
  intros Hx Hy. unfold gomax.
  destruct (PrimFloat.eqb x infinity) eqn:Ex.
  { left. cbn [orb]. symmetry. apply eqb_infinity_eq, Ex. }
  destruct (PrimFloat.eqb y infinity) eqn:Ey.
  { right. cbn [orb]. symmetry. apply eqb_infinity_eq, Ey. }
  cbn [orb]. rewrite Hx, Hy. cbn [orb].
  destruct (PrimFloat.eqb x 0 && PrimFloat.eqb x y).
  - destruct (get_sign x); [right | left]; reflexivity.
  - destruct (PrimFloat.ltb y x); [left | right]; reflexivity.
Qed.

Lemma gomax_not_nan (x y : float) :
  is_nan x = false -> is_nan y = false -> is_nan (gomax x y) = false.
Proof.
  intros Hx Hy. destruct (gomax_cases x y Hx Hy) as [-> | ->]; assumption.
Qed.

Lemma gomax_upper (x y : float) :
  is_nan x = false -> is_nan y = false -> fle x (gomax x y) /\ fle y (gomax x y).
Proof.
  intros Hx Hy. pose proof (proj1 (is_nan_spec x) Hx) as Sx.
  pose proof (proj1 (is_nan_spec y) Hy) as Sy. unfold gomax, fle.
  destruct (PrimFloat.eqb x infinity) eqn:Ex.
  { cbn [orb]. rewrite !FloatAxioms.leb_spec. change (Prim2SF infinity) with (S754_infinity false).
    split; apply SFleb_infinity; assumption. }
  destruct (PrimFloat.eqb y infinity) eqn:Ey.
  { cbn [orb]. rewrite !FloatAxioms.leb_spec. change (Prim2SF infinity) with (S754_infinity false).
    split; apply SFleb_infinity; assumption. }
  cbn [orb]. rewrite Hx, Hy. cbn [orb].
  destruct (PrimFloat.eqb x 0 && PrimFloat.eqb x y) eqn:Ez.
  - apply andb_true_iff in Ez as [_ Exy]. rewrite FloatAxioms.eqb_spec in Exy.
    destruct (SFeqb_leb _ _ Exy) as [Hxy Hyx].
    destruct (get_sign x); rewrite !FloatAxioms.leb_spec; split;
      (assumption || (apply SFleb_refl; assumption)).
  - destruct (PrimFloat.ltb y x) eqn:El; rewrite FloatAxioms.ltb_spec in El; rewrite !FloatAxioms.leb_spec; split.
    + apply SFleb_refl; assumption.
    + apply SFltb_leb; assumption.
    + apply SFleb_total; assumption.
    + apply SFleb_refl; assumption.
Qed.

(** A first error written over the initial zero is stored as it is. *)
Lemma gomax_zero_abs (z : float) : gomax 0 (goabs z) = goabs z.
Proof.
  unfold gomax, goabs.
  change (PrimFloat.eqb 0 infinity) with false. cbn [orb].
  destruct (PrimFloat.eqb (abs z) infinity) eqn:Ei.
  { symmetry. apply eqb_infinity_eq, Ei. }
  change (is_nan 0) with false. cbn [orb].
  destruct (is_nan (abs z)) eqn:En.
  { apply Prim2SF_inj. change (Prim2SF nan) with S754_nan.
    destruct (Prim2SF (abs z)) as [b|b| |b m e] eqn:E; try reflexivity;
      assert (Hnn : is_nan (abs z) = false)
        by (apply is_nan_spec; rewrite E; discriminate); congruence. }
  change (PrimFloat.eqb 0 0) with true. cbn [andb].
  pose proof (FloatAxioms.abs_spec z) as Habs.
  destruct (PrimFloat.eqb 0 (abs z)) eqn:Ez.
  - change (get_sign 0) with false. cbv iota.
    apply Prim2SF_inj. change (Prim2SF 0) with (S754_zero false).
    rewrite FloatAxioms.eqb_spec in Ez. change (Prim2SF 0) with (S754_zero false) in Ez.
    rewrite Habs in *. unfold SFeqb in Ez.
    destruct (Prim2SF z) as [b|b| |b m e]; cbn in Ez |- *; try discriminate; try reflexivity.
  - destruct (PrimFloat.ltb (abs z) 0) eqn:El; [|reflexivity].
    rewrite FloatAxioms.ltb_spec, Habs in El. change (Prim2SF 0) with (S754_zero false) in El.
    unfold SFltb in El. destruct (Prim2SF z) as [b|b| |b m e]; cbn in El; discriminate.
Qed.

(** ** The midpoints of the hierarchy *)

Definition odd_mult (g x : Z) : Prop := exists k, x = (2 * k + 1) * g.
Definition even_mult (g x : Z) : Prop := exists k, x = 2 * k * g.

(** The grid vertices that are hypotenuse midpoints of the triangles
    [d + 1] bisections above the unit triangles: both coordinates odd
    multiples of the step on the levels whose hypotenuse is a diagonal,
    one odd and one even on the levels whose hypotenuse is along an
    axis. *)
Definition mid_class (d : nat) (x y : Z) : Prop :=
  let g := 2 ^ Z.of_nat (Nat.div2 d) in
  if Nat.odd d then odd_mult g x /\ odd_mult g y
  else (even_mult g x /\ odd_mult g y) \/ (odd_mult g x /\ even_mult g y).

Lemma shape_mid_class (d : nat) (tileSize : Z) (t : corners) :
  shape (S d) tileSize t -> mid_class d (mid_x t) (mid_y t).
Proof.
  intros Hs. destruct (shape_mid_exact _ _ _ Hs) as (Hmx & Hmy & _ & _). revert Hs.
  unfold shape, shape_k, legs, mid_class, odd_mult, even_mult.
  rewrite Nat.odd_succ, <- Nat.negb_odd, div2_succ.
  destruct (Nat.odd d); simpl negb; cbv iota.
  - rewrite Nat2Z.inj_succ, Z.pow_succ_r by apply Nat2Z.is_nonneg.
    set (g := 2 ^ Z.of_nat (Nat.div2 d)).
    intros (_ & Hbx & Hby & Hl & [k1 Hk1] & [k2 Hk2]).
    destruct Hl as [[[Hx|Hx] Hy]|[Hx [Hy|Hy]]];
      (split; [first [exists k1; lia | exists (k1 - 1); lia]
              | first [exists k2; lia | exists (k2 - 1); lia]]).
  - set (g := 2 ^ Z.of_nat (Nat.div2 d)).
    intros (_ & Hbx & Hby & Hl & [k1 Hk1] & [k2 Hk2]).
    destruct Hl as [[Hx|Hx] [Hy|Hy]];
      first [ left; split; [exists k1; lia | first [exists k2; lia | exists (k2 - 1); lia]]
            | right; split; [first [exists k1; lia | exists (k1 - 1); lia] | exists k2; lia] ].
Qed.

Lemma mult_parity (g x : Z) : 0 < g -> odd_mult g x -> even_mult g x -> False.
Proof.
  intros Hg [k Hk] [k' Hk'].
  assert (H0 : (2 * k + 1 - 2 * k') * g = 0) by lia.
  apply Z.mul_eq_0 in H0. lia.
Qed.

Lemma mult_coarser (e e' : nat) (x : Z) :
  (e < e')%nat ->
  odd_mult (2 ^ Z.of_nat e') x \/ even_mult (2 ^ Z.of_nat e') x ->
  even_mult (2 ^ Z.of_nat e) x.
Proof.
  intros He H.
  assert (Hp : 2 ^ Z.of_nat e' = 2 ^ Z.of_nat (e' - e - 1) * 2 * 2 ^ Z.of_nat e).
  { replace (Z.of_nat e') with (Z.of_nat (e' - e - 1) + 1 + Z.of_nat e) at 1 by lia.
    rewrite !Z.pow_add_r by lia. reflexivity. }
  set (q := 2 ^ Z.of_nat (e' - e - 1)) in *. set (g := 2 ^ Z.of_nat e) in *.
  destruct H as [[k Hk] | [k Hk]]; rewrite Hp in Hk.
  - exists ((2 * k + 1) * q). rewrite Hk. ring.
  - exists (2 * k * q). rewrite Hk. ring.
Qed.

(** No grid vertex is a hypotenuse midpoint on two levels. *)
Lemma mid_class_apart (d d' : nat) (x y : Z) :
  (d < d')%nat -> mid_class d x y -> mid_class d' x y -> False.
Proof.
  intros Hd H H'. unfold mid_class in H, H'.
  pose proof (Nat.div2_odd d) as E. pose proof (Nat.div2_odd d') as E'.
  pose proof (pow2_pos (Nat.div2 d)) as Hg.
  destruct (Nat.eq_dec (Nat.div2 d) (Nat.div2 d')) as [Heq | Hne].
  - rewrite <- Heq in *.
    destruct (Nat.odd d), (Nat.odd d'); cbn [Nat.b2n] in E, E'; try lia.
    destruct H' as [Hx Hy].
    destruct H as [[Hx' _] | [_ Hy']];
      [apply (mult_parity _ x) with (2 := Hx) (3 := Hx')
      | apply (mult_parity _ y) with (2 := Hy) (3 := Hy')]; lia.
  - assert (Hlt : (Nat.div2 d < Nat.div2 d')%nat).
    { destruct (Nat.odd d), (Nat.odd d'); cbn [Nat.b2n] in E, E'; lia. }
    assert (Hx : even_mult (2 ^ Z.of_nat (Nat.div2 d)) x).
    { apply (mult_coarser _ _ _ Hlt). destruct (Nat.odd d'); tauto. }
    assert (Hy : even_mult (2 ^ Z.of_nat (Nat.div2 d)) y).
    { apply (mult_coarser _ _ _ Hlt). destruct (Nat.odd d'); tauto. }
    destruct (Nat.odd d).
    + destruct H as [Hx' _]. apply (mult_parity _ x) with (2 := Hx') (3 := Hx). lia.
    + destruct H as [[_ Hy'] | [Hx' _]];
        [apply (mult_parity _ y) with (2 := Hy') (3 := Hy)
        | apply (mult_parity _ x) with (2 := Hx') (3 := Hx)]; lia.
Qed.

Lemma pos_inj (size x y x' y' : Z) :
  0 <= x < size -> 0 <= x' < size -> 0 <= y -> 0 <= y' ->
  pos size x y = pos size x' y' -> x = x' /\ y = y'.
Proof.
  intros Hx Hx' Hy Hy' H. unfold pos in H. apply Z2Nat.inj in H; [|nia|nia].
  assert (Hyy : y = y').
  { destruct (Z.lt_trichotomy y y') as [L | [L | L]]; [|exact L|]; exfalso.
    - assert ((y + 1) * size <= y' * size) by (apply Z.mul_le_mono_nonneg_r; lia). lia.
    - assert ((y' + 1) * size <= y * size) by (apply Z.mul_le_mono_nonneg_r; lia). lia. }
  subst y'. lia.
Qed.

(** ** The grid vertices a triangle covers *)

(** The vertex [(x, y)] lies in the closed triangle [t]: with the legs
    [u = a - c] and [v = b - c] at the right angle [c] and
    [p = (x, y) - c], the products [p.u] and [p.v] are not negative and
    [p.u + p.v <= u.u]. *)
Definition inside (t : corners) (x y : Z) : Prop :=
  let ux := c_ax t - c_cx t in
  let uy := c_ay t - c_cy t in
  let vx := c_bx t - c_cx t in
  let vy := c_by t - c_cy t in
  let px := x - c_cx t in
  let py := y - c_cy t in
  0 <= px * ux + py * uy /\ 0 <= px * vx + py * vy
  /\ px * ux + py * uy + (px * vx + py * vy) <= ux * ux + uy * uy.

(** The four corners of the grid. *)
Definition grid_corner (tileSize x y : Z) : Prop :=
  (x = 0 \/ x = tileSize) /\ (y = 0 \/ y = tileSize).

Ltac solve_corners h ax ay bx by_ cx cy mx my Hx Hy :=
  match type of Hx with cx - ax = ?e => assert (ax = cx - e) by lia end;
  match type of Hy with cy - ay = ?e => assert (ay = cy - e) by lia end;
  clear Hx Hy; subst bx by_; subst ax ay;
  first [assert (mx = cx) by lia | assert (mx = cx + h) by lia | assert (mx = cx - h) by lia];
  first [assert (my = cy) by lia | assert (my = cy + h) by lia | assert (my = cy - h) by lia];
  subst mx my.

Lemma inside_axis (h tileSize : Z) (t : corners) (x y : Z) :
  0 < h -> shape_k false (2 * h) tileSize t -> inside t x y ->
  inside (left_half t) x y \/ inside (right_half t) x y.
Proof.
  destruct t as [ax ay bx by_ cx cy].
  unfold shape_k, in_box, legs, inside, left_half, right_half, mid_x, mid_y; cbn.
  rewrite !shiftr_1.
  intros Hh (_ & Hbx & Hby & Hl & _ & _).
  assert (Hm : (ax + bx) / 2 * 2 = ax + bx /\ (ay + by_) / 2 * 2 = ay + by_) by zlia.
  destruct Hm as [Hmx Hmy].
  set (mx := (ax + bx) / 2) in *. set (my := (ay + by_) / 2) in *.
  clearbody mx my.
  intros (HS & HT & HL).
  set (ex := x - cx) in *. set (ey := y - cy) in *.
  assert (Ex : x = cx + ex) by (unfold ex; lia). assert (Ey : y = cy + ey) by (unfold ey; lia).
  clearbody ex ey. subst x y.
  match type of HL with (?s1 + ?s2 <= _) => destruct (Z_le_gt_dec s2 s1) as [Hc | Hc] end;
    [left | right].
  all: (destruct Hl as [[[Hx|Hx] Hy]|[Hx [Hy|Hy]]];
   solve_corners h ax ay bx by_ cx cy mx my Hx Hy;
   ring_simplify in HS; ring_simplify in HT; ring_simplify in HL; ring_simplify in Hc;
   repeat split; nia).
Qed.

Lemma inside_diag (h tileSize : Z) (t : corners) (x y : Z) :
  0 < h -> shape_k true h tileSize t -> inside t x y ->
  inside (left_half t) x y \/ inside (right_half t) x y.
Proof.
  destruct t as [ax ay bx by_ cx cy].
  unfold shape_k, in_box, legs, inside, left_half, right_half, mid_x, mid_y; cbn.
  rewrite !shiftr_1.
  intros Hh (_ & Hbx & Hby & Hl & _ & _).
  assert (Hm : (ax + bx) / 2 * 2 = ax + bx /\ (ay + by_) / 2 * 2 = ay + by_) by zlia.
  destruct Hm as [Hmx Hmy].
  set (mx := (ax + bx) / 2) in *. set (my := (ay + by_) / 2) in *.
  clearbody mx my.
  intros (HS & HT & HL).
  set (ex := x - cx) in *. set (ey := y - cy) in *.
  assert (Ex : x = cx + ex) by (unfold ex; lia). assert (Ey : y = cy + ey) by (unfold ey; lia).
  clearbody ex ey. subst x y.
  match type of HL with (?s1 + ?s2 <= _) => destruct (Z_le_gt_dec s2 s1) as [Hc | Hc] end;
    [left | right].
  all: (destruct Hl as [[Hx|Hx] [Hy|Hy]];
   solve_corners h ax ay bx by_ cx cy mx my Hx Hy;
   ring_simplify in HS; ring_simplify in HT; ring_simplify in HL; ring_simplify in Hc;
   repeat split; nia).
Qed.

(** A vertex in a triangle lies in one of its halves. *)
Lemma inside_step (d : nat) (tileSize : Z) (t : corners) (x y : Z) :
  shape (S d) tileSize t -> inside t x y ->
  inside (left_half t) x y \/ inside (right_half t) x y.
Proof.
  unfold shape. rewrite Nat.odd_succ, <- Nat.negb_odd, div2_succ.
  pose proof (pow2_pos (Nat.div2 d)) as Hp.
  destruct (Nat.odd d); simpl negb.
  - rewrite Nat2Z.inj_succ, Z.pow_succ_r by apply Nat2Z.is_nonneg. apply inside_axis. lia.
  - apply inside_diag. lia.
Qed.

(** The only grid vertices in a unit triangle are its corners. *)
Lemma inside_unit (tileSize : Z) (t : corners) (x y : Z) :
  shape 0 tileSize t -> inside t x y -> (x, y) ∈ corner_xy t.
Proof.
  destruct t as [ax ay bx by_ cx cy].
  unfold shape, shape_k, legs, inside, corner_xy; cbn.
  intros (_ & Hbx & Hby & Hl & _) (HS & HT & HL).
  assert (H : (x = ax /\ y = ay) \/ (x = bx /\ y = by_) \/ (x = cx /\ y = cy))
    by (destruct Hl as [[[Hx|Hx] Hy]|[Hx [Hy|Hy]]];
        (assert (Eax : ax = cx - (cx - ax)) by lia; assert (Eay : ay = cy - (cy - ay)) by lia;
         rewrite Hx in Eax; rewrite Hy in Eay; clear Hx Hy; subst bx by_; subst ax ay;
         ring_simplify in HS; ring_simplify in HT; ring_simplify in HL; lia)).
  destruct H as [[-> ->] | [[-> ->] | [-> ->]]]; set_solver.
Qed.

(** The two root triangles cover the grid. *)
Lemma inside_roots (tileSize x y : Z) :
  0 <= x <= tileSize -> 0 <= y <= tileSize ->
  inside (root_corners tileSize 0) x y \/ inside (root_corners tileSize 1) x y.
Proof.
  intros Hx Hy. rewrite root_corners_0, root_corners_1. unfold inside.
  cbn [c_ax c_ay c_bx c_by c_cx c_cy].
  assert (H1 : 0 <= x * tileSize) by (apply Z.mul_nonneg_nonneg; lia).
  assert (H2 : 0 <= y * tileSize) by (apply Z.mul_nonneg_nonneg; lia).
  assert (H3 : 0 <= (tileSize - x) * tileSize) by (apply Z.mul_nonneg_nonneg; lia).
  assert (H4 : 0 <= (tileSize - y) * tileSize) by (apply Z.mul_nonneg_nonneg; lia).
  destruct (Z_le_gt_dec x y) as [Hc | Hc]; [left | right].
  - assert (H5 : 0 <= (y - x) * tileSize) by (apply Z.mul_nonneg_nonneg; lia).
    repeat split; lia.
  - assert (H5 : 0 <= (x - y) * tileSize) by (apply Z.mul_nonneg_nonneg; lia).
    repeat split; lia.
Qed.

Lemma root_corner_grid (tileSize id x y : Z) :
  (x, y) ∈ corner_xy (root_corners tileSize id) -> grid_corner tileSize x y.
Proof.
  unfold root_corners, corner_xy, grid_corner. intros Hc.
  destruct (Z.land id 1 >? 0); cbn [c_ax c_ay c_bx c_by c_cx c_cy] in Hc;
    repeat (apply elem_of_cons in Hc as [Hc | Hc]; [injection Hc as -> ->; lia|]);
    apply elem_of_nil in Hc; contradiction.
Qed.

(** A corner of a half is a corner of the triangle or the midpoint of
    its hypotenuse. *)
Lemma half_corner (t : corners) (xy : Z * Z) :
  xy ∈ corner_xy (left_half t) \/ xy ∈ corner_xy (right_half t) ->
  xy ∈ corner_xy t \/ xy = (mid_x t, mid_y t).
Proof.
  unfold corner_xy, left_half, right_half. cbn [c_ax c_ay c_bx c_by c_cx c_cy].
  intros [H | H];
    (apply elem_of_cons in H as [-> | H]; [left; set_solver|]);
    (apply elem_of_cons in H as [-> | H]; [left; set_solver|]);
    apply list_elem_of_singleton in H as ->; right; reflexivity.
Qed.

(** No hypotenuse midpoint of the hierarchy is a corner of the grid. *)
Lemma shape_mid_not_corner (n d : nat) (t : corners) :
  shape (S d) (2 ^ Z.of_nat n) t -> (d < 2 * n)%nat ->
  ~ grid_corner (2 ^ Z.of_nat n) (mid_x t) (mid_y t).
Proof.
  intros Hs Hd [Hx Hy]. pose proof (pow2_pos n) as Hp.
  pose proof (shape_mid_class _ _ _ Hs) as Hc.
  pose proof (Nat.div2_odd d) as Ed.
  assert (He : (Nat.div2 d < n)%nat) by (destruct (Nat.odd d); cbn [Nat.b2n] in Ed; lia).
  pose proof (pow2_pos (Nat.div2 d)) as Hg.
  assert (Heven : forall z, z = 0 \/ z = 2 ^ Z.of_nat n ->
                            even_mult (2 ^ Z.of_nat (Nat.div2 d)) z).
  { intros z [-> | ->]; [exists 0; lia|].
    apply (mult_coarser _ n _ He). left. exists 0. lia. }
  unfold mid_class in Hc. destruct (Nat.odd d).
  - destruct Hc as [Hox _].
    apply (mult_parity _ (mid_x t)) with (2 := Hox); [lia | apply Heven, Hx].
  - destruct Hc as [[_ Hoy] | [Hox _]].
    + apply (mult_parity _ (mid_y t)) with (2 := Hoy); [lia | apply Heven, Hy].
    + apply (mult_parity _ (mid_x t)) with (2 := Hox); [lia | apply Heven, Hx].
Qed.

Section UnitLeaves.
Variable n : nat.
Variable errors : list float.
Variable maxError : float.

Let tileSize : Z := 2 ^ Z.of_nat n.
Let size : Z := tileSize + 1.

(** The error exceeds the threshold at every grid vertex that is not a
    corner of the grid. *)
Definition exceeds_inside : Prop :=
  forall x y, 0 <= x <= tileSize -> 0 <= y <= tileSize -> ~ grid_corner tileSize x y ->
    fgt (fl_at errors (pos size x y)) maxError = true.

(** Where the error exceeds the threshold at every vertex but the grid
    corners, the descent stops at the unit triangles only. *)
Lemma leaves_of_inner_split (d : nat) :
  exceeds_inside ->
  forall t : corners,
    (d <= 2 * n)%nat -> shape d tileSize t ->
    Forall unit_triangle (leaves_of d size errors maxError t).
Proof.
  intros Hall. induction d as [|d IH]; intros t Hd Hs; cbn [leaves_of].
  - apply Forall_singleton. exact (manhattan_unit _ _ Hs).
  - destruct (mid_in_box _ _ (shape_in_box _ _ _ Hs)) as [Hx Hy].
    assert (Hg : fgt (err_at size errors (mid_x t) (mid_y t)) maxError = true).
    { apply (Hall _ _ Hx Hy). apply (shape_mid_not_corner n d t Hs). lia. }
    unfold split_at. rewrite Hg, andb_true_r.
    pose proof (manhattan_large _ _ _ Hs) as Hm.
    destruct (Z.gtb_spec (Z.abs (c_ax t - c_cx t) + Z.abs (c_ay t - c_cy t)) 1); [|lia].
    destruct (shape_step _ _ _ Hs) as [Hl Hr].
    apply Forall_app. split; apply IH; (lia || assumption).
Qed.

(** Where the descent stops at unit triangles only, the error exceeds
    the threshold at every vertex in the triangle but its corners. *)
Lemma unit_leaves_exceed (d : nat) :
  forall (t : corners) (x y : Z),
    shape d tileSize t ->
    Forall unit_triangle (leaves_of d size errors maxError t) ->
    inside t x y ->
    (x, y) ∈ corner_xy t \/ fgt (fl_at errors (pos size x y)) maxError = true.
Proof.
  induction d as [|d IH]; intros t x y Hs Hu Hin; cbn [leaves_of] in Hu.
  - left. exact (inside_unit _ _ _ _ Hs Hin).
  - destruct (split_at size errors maxError t) eqn:Es.
    + apply Forall_app in Hu as [Hul Hur].
      unfold split_at in Es. apply andb_true_iff in Es as [_ Hg].
      change (err_at size errors (mid_x t) (mid_y t))
        with (fl_at errors (pos size (mid_x t) (mid_y t))) in Hg.
      destruct (shape_step _ _ _ Hs) as [Sl Sr].
      assert (H : ((x, y) ∈ corner_xy (left_half t) \/ (x, y) ∈ corner_xy (right_half t))
                  \/ fgt (fl_at errors (pos size x y)) maxError = true).
      { destruct (inside_step _ _ _ _ _ Hs Hin) as [H | H].
        - destruct (IH _ _ _ Sl Hul H) as [H' | H']; [left; left; exact H' | right; exact H'].
        - destruct (IH _ _ _ Sr Hur H) as [H' | H']; [left; right; exact H' | right; exact H']. }
      destruct H as [H | H]; [|right; exact H].
      apply half_corner in H as [H | H]; [left; exact H|].
      right. injection H as -> ->. exact Hg.
    + apply Forall_cons in Hu as [Hu _]. unfold unit_triangle in Hu.
      pose proof (manhattan_large _ _ _ Hs) as Hm. lia.
Qed.

(** The mesh consists of unit triangles exactly when the error exceeds
    the threshold at every grid vertex but the four corners of the
    grid. *)
Lemma mesh_leaves_unit :
  Forall unit_triangle (mesh_leaves n errors maxError) <-> exceeds_inside.
Proof.
  unfold mesh_leaves. fold tileSize size. rewrite Forall_app. split.
  - intros [H1 H0] x y Hx Hy Hnc.
    destruct (inside_roots tileSize x y Hx Hy) as [Hin | Hin].
    + destruct (unit_leaves_exceed _ _ x y (shape_root n 0) H0 Hin) as [Hc | Hg];
        [destruct (Hnc (root_corner_grid _ _ _ _ Hc)) | exact Hg].
    + destruct (unit_leaves_exceed _ _ x y (shape_root n 1) H1 Hin) as [Hc | Hg];
        [destruct (Hnc (root_corner_grid _ _ _ _ Hc)) | exact Hg].
  - intros Hall.
    split; apply leaves_of_inner_split; (exact Hall || apply shape_root || lia).
Qed.
End UnitLeaves.

(** ** C5: threshold zero and large thresholds *)

(** C5 (amended). The descent subdivides where the error at the
    midpoint is strictly greater than the threshold. With
    [maxError = 0], the mesh consists of unit triangles only (every
    emitted triangle has Manhattan distance 1 between its corners [a]
    and [c]) exactly when the error is strictly positive at every grid
    vertex other than the four corners of the grid, whose entries
    [Update] never writes and the descent never tests. A threshold that
    no entry of the error field exceeds, and [+Inf] is one for every
    error field, yields exactly the two root triangles. *)
Theorem extraction_extremes (n fuel : nat) (t : Tile) :
  tile_wf n t -> (2 * n < fuel)%nat ->
  (exists mesh t',
     GetMesh fuel t 0 = Ok (mesh, t')
     /\ triangles mesh
        = flat_map (tri_entry (2 ^ Z.of_nat n + 1) (Indices (TileMartini t')))
                   (mesh_leaves n (Errors t) 0)
     /\ (Forall unit_triangle (mesh_leaves n (Errors t) 0)
         <-> forall x y,
               0 <= x <= 2 ^ Z.of_nat n -> 0 <= y <= 2 ^ Z.of_nat n ->
               ~ grid_corner (2 ^ Z.of_nat n) x y ->
               fgt (fl_at (Errors t) (pos (2 ^ Z.of_nat n + 1) x y)) 0 = true))
  /\ (forall maxError,
        (forall p e, Errors t !! p = Some e -> fgt e maxError = false) ->
        exists t', GetMesh fuel t maxError = Ok (root_mesh (2 ^ Z.of_nat n), t'))
  /\ (exists t', GetMesh fuel t infinity = Ok (root_mesh (2 ^ Z.of_nat n), t')).
Proof.
  intros Hwf Hfuel. pose proof Hwf as (_ & _ & Herr). split; [|split].
  - eexists. eexists. split; [apply (GetMesh_ok n); assumption|].
    cbn [triangles with_indices TileMartini Indices]. split; [reflexivity|].
    apply mesh_leaves_unit.
  - intros maxError Hnone. apply GetMesh_no_split; assumption.
  - apply GetMesh_no_split; [assumption .. |]. intros p e _. apply fgt_infinity.
Qed.

(** A height field on the grid of size 3 with a peak in the middle and
    lower heights on the four edges. *)
Definition ridge3 : list float := [0; 1; 0; 1; 5; 1; 0; 1; 0]%float.

Lemma extraction_extremes_witness :
  exists m t,
    NewMartini 3 = Ok m /\ CreateTile m ridge3 = Ok t
    /\ tile_wf 1 t /\ (2 * 1 < 3)%nat
    /\ Errors t = [0; 1; 0; 1; 5; 1; 0; 1; 0]%float
    /\ (exists mesh t', GetMesh 3 t 0 = Ok (mesh, t')
                        /\ Forall unit_triangle (mesh_leaves 1 (Errors t) 0)
                        /\ length (triangles mesh) = 24%nat)
    /\ (exists t', GetMesh 3 t infinity = Ok (root_mesh (2 ^ Z.of_nat 1), t')).
Proof.
  set (t := mkTile ridge3 (mkMartini 3 6 2 (replicate 9 0) (coords_table 2 6))
                   [0; 1; 0; 1; 5; 1; 0; 1; 0]%float).
  exists (mkMartini 3 6 2 (replicate 9 0) (coords_table 2 6)), t.
  assert (Hwf : tile_wf 1 t) by (unfold tile_wf; cbn; repeat split; reflexivity).
  split; [reflexivity|]. split; [vm_compute; reflexivity|].
  split; [exact Hwf|]. split; [lia|]. split; [reflexivity|].
  destruct (extraction_extremes 1 3 t Hwf ltac:(lia)) as ((mesh & t' & H1 & H2 & H3) & _ & HC).
  split; [|exact HC].
  assert (Hu : Forall unit_triangle (mesh_leaves 1 (Errors t) 0)).
  { apply H3. intros x y Hx Hy Hnc. change (2 ^ Z.of_nat 1) with 2 in *.
    unfold grid_corner in Hnc.
    assert (Hc : (x = 1 /\ y = 0) \/ (x = 0 /\ y = 1) \/ (x = 1 /\ y = 1)
                 \/ (x = 2 /\ y = 1) \/ (x = 1 /\ y = 2)) by lia.
    destruct Hc as [[-> ->] | [[-> ->] | [[-> ->] | [[-> ->] | [-> ->]]]]];
      vm_compute; reflexivity. }
  exists mesh, t'. split; [exact H1|]. split; [exact Hu|].
  rewrite H2. vm_compute. reflexivity.
Defined.

(** C5 (counterexample). On the error field that is zero everywhere
    (the field of a flat terrain), [GetMesh] with [maxError = 0] does
    not subdivide at all: on the grid of size 3 it returns the two root
    triangles, and the corners [a = (0,0)] and [c = (2,0)] of the first
    are at Manhattan distance 2. *)
Lemma zero_threshold_flat_field_not_subdivided :
  exists m t mesh t',
    NewMartini 3 = Ok m /\ CreateTile m (replicate 9 0%float) = Ok t
    /\ Errors t = replicate 9 0%float
    /\ GetMesh 3 t 0 = Ok (mesh, t')
    /\ mesh = mkMesh [0; 0; 2; 2; 2; 0; 0; 2] [0; 1; 2; 1; 0; 3]
    /\ mesh_leaves 1 (Errors t) 0 = [mkCorners 0 0 2 2 2 0; mkCorners 2 2 0 0 0 2]
    /\ Z.abs (c_ax (mkCorners 0 0 2 2 2 0) - c_cx (mkCorners 0 0 2 2 2 0))
       + Z.abs (c_ay (mkCorners 0 0 2 2 2 0) - c_cy (mkCorners 0 0 2 2 2 0)) = 2.
Proof.
  eexists. eexists. eexists. eexists.
  split; [reflexivity|]. split; [vm_compute; reflexivity|].
  split; [reflexivity|]. split; [vm_compute; reflexivity|].
  split; [reflexivity|]. split; [vm_compute; reflexivity | reflexivity].
Qed.

(** ** The error field after [Update] *)

(** The interpolation error of one triangle (lines 117-120). *)
Definition middle_error (terrain : list float) (pa pb pm : nat) : float :=
  goabs ((fl_at terrain pa + fl_at terrain pb) / 2 - fl_at terrain pm)%float.

(** The triangles that feed the error stored at the hypotenuse midpoint
    of triangle [i]: those with the same midpoint, and those whose
    midpoint is the midpoint of a child of a parent triangle already
    reached. *)
Inductive reach (N : Z) (parent : Z -> bool) (mpos lpos rpos : Z -> nat) (i : Z)
    : Z -> Prop :=
| reach_self (j : Z) :
    0 <= j < N -> mpos j = mpos i -> reach N parent mpos lpos rpos i j
| reach_child (k j : Z) :
    reach N parent mpos lpos rpos i k -> parent k = true -> 0 <= j < N ->
    mpos j = lpos k \/ mpos j = rpos k ->
    reach N parent mpos lpos rpos i j.

Lemma fl_at_insert (l : list float) (m p : nat) (v : float) :
  (m < length l)%nat ->
  fl_at (<[m := v]> l) p = if decide (p = m) then v else fl_at l p.
Proof.
  intros Hm. unfold fl_at. case_decide as Hp.
  - subst p. rewrite list_lookup_insert_eq by exact Hm. reflexivity.
  - rewrite list_lookup_insert_ne by congruence. reflexivity.
Qed.

Section Propagation.
Variable N : Z.
Variables apos bpos mpos lpos rpos : Z -> nat.
Variable parent : Z -> bool.
Variable terrain : list float.

Let loc (i : Z) : float := middle_error terrain (apos i) (bpos i) (mpos i).
Let step (E : list float) (i : Z) : list float :=
  update_at (parent i) terrain E (apos i) (bpos i) (mpos i) (lpos i) (rpos i).

Hypothesis loc_not_nan : forall i, 0 <= i < N -> is_nan (loc i) = false.
Hypothesis child_apart :
  forall i k, 0 <= i <= k -> k < N -> parent k = true ->
              mpos i <> lpos k /\ mpos i <> rpos k.

(** The state of the loop of [Update] when the entries [lo .. N-1] have
    been visited. *)
Definition propagated (lo : Z) (E : list float) : Prop :=
  (forall i, 0 <= i < N -> (mpos i < length E)%nat) /\
  (forall p, is_nan (fl_at E p) = false) /\
  (forall j, lo <= j < N -> fle (loc j) (fl_at E (mpos j))) /\
  (forall k, lo <= k < N -> parent k = true ->
             fle (fl_at E (lpos k)) (fl_at E (mpos k))
             /\ fle (fl_at E (rpos k)) (fl_at E (mpos k))) /\
  (forall p,
      (fl_at E p = 0%float /\ forall j, lo <= j < N -> mpos j <> p)
      \/ (exists j, lo <= j < N /\ mpos j = p /\ fl_at E p = loc j)
      \/ (exists k, lo <= k < N /\ parent k = true /\ mpos k = p
                    /\ (fl_at E p = fl_at E (lpos k) \/ fl_at E p = fl_at E (rpos k)))).

Lemma propagated_init (len : nat) :
  (forall i, 0 <= i < N -> (mpos i < len)%nat) ->
  propagated N (replicate len 0%float).
Proof.
  intros Hlen.
  assert (Hz : forall p, fl_at (replicate len 0%float) p = 0%float).
  { intros p. unfold fl_at. destruct (replicate len 0%float !! p) as [x|] eqn:E; [|reflexivity].
    apply lookup_replicate in E as [-> _]. reflexivity. }
  split; [intros i Hi; rewrite length_replicate; apply Hlen, Hi|].
  split; [intros p; rewrite Hz; reflexivity|].
  split; [intros j Hj; lia|].
  split; [intros k Hk; lia|].
  intros p. left. split; [apply Hz | intros j Hj; lia].
Qed.

Lemma step_value (E : list float) (i : Z) :
  0 <= i < N -> (mpos i < length E)%nat -> (forall p, is_nan (fl_at E p) = false) ->
  exists v,
    step E i = <[mpos i := v]> E /\ is_nan v = false
    /\ fle (fl_at E (mpos i)) v /\ fle (loc i) v
    /\ (parent i = true -> fle (fl_at E (lpos i)) v /\ fle (fl_at E (rpos i)) v)
    /\ (v = fl_at E (mpos i) \/ v = loc i
        \/ (parent i = true /\ (v = fl_at E (lpos i) \/ v = fl_at E (rpos i))))
    /\ (fl_at E (mpos i) = 0%float ->
        v = loc i \/ (parent i = true /\ (v = fl_at E (lpos i) \/ v = fl_at E (rpos i)))).
Proof.
  intros Hi Hm Hnn. pose proof (loc_not_nan i Hi) as Hloc.
  unfold step, update_at. change (goabs _) with (loc i).
  set (v1 := gomax (fl_at E (mpos i)) (loc i)).
  pose proof (gomax_not_nan _ _ (Hnn (mpos i)) Hloc) as N1. fold v1 in N1.
  destruct (gomax_upper _ _ (Hnn (mpos i)) Hloc) as [U1 U1']. fold v1 in U1, U1'.
  pose proof (gomax_cases _ _ (Hnn (mpos i)) Hloc) as C1. fold v1 in C1.
  assert (Z1 : fl_at E (mpos i) = 0%float -> v1 = loc i).
  { intros Hz. unfold v1. rewrite Hz. apply gomax_zero_abs. }
  destruct (parent i) eqn:Hp.
  - destruct (child_apart i i ltac:(lia) ltac:(lia) Hp) as [Al Ar].
    rewrite !fl_at_insert by exact Hm.
    rewrite decide_True by reflexivity. rewrite !decide_False by congruence.
    rewrite list_insert_insert_eq.
    set (w := gomax v1 (fl_at E (lpos i))).
    pose proof (gomax_not_nan _ _ N1 (Hnn (lpos i))) as N2. fold w in N2.
    destruct (gomax_upper _ _ N1 (Hnn (lpos i))) as [U2 U2']. fold w in U2, U2'.
    pose proof (gomax_cases _ _ N1 (Hnn (lpos i))) as C2. fold w in C2.
    set (v := gomax w (fl_at E (rpos i))).
    pose proof (gomax_not_nan _ _ N2 (Hnn (rpos i))) as N3. fold v in N3.
    destruct (gomax_upper _ _ N2 (Hnn (rpos i))) as [U3 U3']. fold v in U3, U3'.
    pose proof (gomax_cases _ _ N2 (Hnn (rpos i))) as C3. fold v in C3.
    exists v. split; [reflexivity|]. split; [exact N3|].
    split; [apply fle_trans with w; [apply fle_trans with v1|]; assumption|].
    split; [apply fle_trans with w; [apply fle_trans with v1|]; assumption|].
    split; [intros _; split; [apply fle_trans with w|]; assumption|].
    split.
    + destruct C3 as [-> | ->]; [|tauto]. destruct C2 as [-> | ->]; [|tauto].
      destruct C1 as [-> | ->]; tauto.
    + intros Hz. specialize (Z1 Hz).
      destruct C3 as [-> | ->]; [|tauto]. destruct C2 as [-> | ->]; [|tauto]. tauto.
  - exists v1. split; [reflexivity|]. split; [exact N1|]. split; [exact U1|].
    split; [exact U1'|]. split; [discriminate|]. split.
    + destruct C1 as [-> | ->]; tauto.
    + intros Hz. left. apply Z1, Hz.
Qed.

Lemma propagated_step (E : list float) (i : Z) :
  0 <= i < N -> propagated (i + 1) E -> propagated i (step E i).
Proof.
  intros Hi (Hlen & Hnn & H1 & H2 & H3).
  destruct (step_value E i Hi (Hlen i Hi) Hnn) as (v & -> & Hv & Hmv & Hlv & Hpv & Hc & Hz).
  pose proof (Hlen i Hi) as Hm.
  assert (Hat : forall p, fl_at (<[mpos i := v]> E) p
                          = if decide (p = mpos i) then v else fl_at E p)
    by (intros p; apply fl_at_insert; exact Hm).
  assert (Hmono : forall p, fle (fl_at E p) (fl_at (<[mpos i := v]> E) p)).
  { intros p. rewrite Hat. case_decide as Hp; [subst p; exact Hmv | apply fle_refl, Hnn]. }
  assert (Hchild : forall k, i <= k < N -> parent k = true ->
             fl_at (<[mpos i := v]> E) (lpos k) = fl_at E (lpos k)
             /\ fl_at (<[mpos i := v]> E) (rpos k) = fl_at E (rpos k)).
  { intros k Hk Hp. destruct (child_apart i k ltac:(lia) ltac:(lia) Hp) as [Al Ar].
    rewrite !Hat, !decide_False by congruence. split; reflexivity. }
  split; [intros j Hj; rewrite length_insert; apply Hlen, Hj|].
  split; [intros p; rewrite Hat; case_decide; [exact Hv | apply Hnn]|].
  split.
  { intros j Hj. destruct (Z.eq_dec j i) as [-> | Hne].
    - rewrite Hat, decide_True by reflexivity. exact Hlv.
    - apply fle_trans with (fl_at E (mpos j)); [apply H1; lia | apply Hmono]. }
  split.
  { intros k Hk Hp. destruct (Hchild k Hk Hp) as [-> ->].
    destruct (Z.eq_dec k i) as [-> | Hne].
    - rewrite Hat, decide_True by reflexivity. apply Hpv, Hp.
    - destruct (H2 k ltac:(lia) Hp) as [Hl Hr].
      split; [apply fle_trans with (fl_at E (mpos k)) | apply fle_trans with (fl_at E (mpos k))];
        first [assumption | apply Hmono]. }
  assert (Hnew : v = loc i
                 \/ (parent i = true /\ (v = fl_at E (lpos i) \/ v = fl_at E (rpos i))) ->
            (exists j, i <= j < N /\ mpos j = mpos i /\ v = loc j)
            \/ (exists k, i <= k < N /\ parent k = true /\ mpos k = mpos i
                  /\ (v = fl_at (<[mpos i := v]> E) (lpos k)
                      \/ v = fl_at (<[mpos i := v]> E) (rpos k)))).
  { intros [Hvl | [Hp Hvc]].
    - left. exists i. split; [lia|]. split; [reflexivity | exact Hvl].
    - right. exists i. split; [lia|]. split; [exact Hp|]. split; [reflexivity|].
      destruct (Hchild i ltac:(lia) Hp) as [-> ->]. exact Hvc. }
  intros p. rewrite Hat. case_decide as Hpm.
  - subst p. right. destruct (H3 (mpos i)) as [[Hz0 _] | Hold].
    + apply Hnew, Hz, Hz0.
    + destruct Hc as [Hc | Hc]; [|apply Hnew, Hc].
      destruct Hold as [(j & Hj & Hjm & Hje) | (k & Hk & Hp & Hkm & Hke)].
      * left. exists j. split; [lia|]. split; [exact Hjm|]. rewrite Hc. exact Hje.
      * right. exists k. split; [lia|]. split; [exact Hp|]. split; [exact Hkm|].
        destruct (Hchild k ltac:(lia) Hp) as [-> ->]. rewrite Hc. exact Hke.
  - destruct (H3 p) as [[Hz0 Hno] | [(j & Hj & Hjm & Hje) | (k & Hk & Hp & Hkm & Hke)]].
    + left. split; [exact Hz0|]. intros j Hj.
      destruct (Z.eq_dec j i) as [-> | Hne]; [congruence | apply Hno; lia].
    + right; left. exists j. split; [lia|]. split; assumption.
    + right; right. exists k. split; [lia|]. split; [exact Hp|]. split; [exact Hkm|].
      destruct (Hchild k ltac:(lia) Hp) as [-> ->]. exact Hke.
Qed.

(** *** What the final state says *)

Variable E : list float.
Hypothesis final : propagated 0 E.

Lemma reach_range (i j : Z) : reach N parent mpos lpos rpos i j -> 0 <= j < N.
Proof. destruct 1; assumption. Qed.

Lemma reach_below (i j : Z) :
  reach N parent mpos lpos rpos i j -> fle (fl_at E (mpos j)) (fl_at E (mpos i)).
Proof.
  destruct final as (_ & Hnn & _ & H2 & _).
  induction 1 as [j Hj Hjm | k j Hk IH Hp Hj Hjm].
  - rewrite Hjm. apply fle_refl, Hnn.
  - apply fle_trans with (fl_at E (mpos k)); [|exact IH].
    pose proof (reach_range _ _ Hk) as Hkr.
    destruct (H2 k ltac:(lia) Hp) as [Hl Hr].
    destruct Hjm as [-> | ->]; assumption.
Qed.

(** The stored error bounds the interpolation error of every triangle
    reached. *)
Lemma reach_bound (i j : Z) :
  reach N parent mpos lpos rpos i j -> fle (loc j) (fl_at E (mpos i)).
Proof.
  intros Hr. pose proof (reach_range _ _ Hr) as Hj.
  destruct final as (_ & _ & H1 & _).
  apply fle_trans with (fl_at E (mpos j)); [apply H1; lia | apply reach_below, Hr].
Qed.

Lemma reach_extend (c j : Z) :
  reach N parent mpos lpos rpos c j ->
  forall i k, reach N parent mpos lpos rpos i k -> parent k = true ->
              mpos c = lpos k \/ mpos c = rpos k ->
              reach N parent mpos lpos rpos i j.
Proof.
  induction 1 as [j Hj Hjm | k' j Hk' IH Hp' Hj Hjm]; intros i k Hik Hp Hc.
  - apply (reach_child _ _ _ _ _ _ k j Hik Hp Hj). rewrite Hjm. exact Hc.
  - apply (reach_child _ _ _ _ _ _ k' j (IH i k Hik Hp Hc) Hp' Hj Hjm).
Qed.

Variable rk : Z -> nat.
Hypothesis rk_mid : forall i k, 0 <= i < N -> 0 <= k < N -> mpos i = mpos k -> rk i = rk k.
Hypothesis child_entry :
  forall k, 0 <= k < N -> parent k = true ->
            (exists c, 0 <= c < N /\ mpos c = lpos k /\ (rk c < rk k)%nat)
            /\ (exists c, 0 <= c < N /\ mpos c = rpos k /\ (rk c < rk k)%nat).

(** The stored error is the interpolation error of a triangle reached. *)
Lemma reach_attained (r : nat) :
  forall i, (rk i <= r)%nat -> 0 <= i < N ->
            exists j, reach N parent mpos lpos rpos i j /\ fl_at E (mpos i) = loc j.
Proof.
  destruct final as (_ & _ & _ & _ & H3).
  induction r as [|r IH]; intros i Hr Hi;
    (destruct (H3 (mpos i)) as [[_ Hno] | [(j & Hj & Hjm & Hje) | (k & Hk & Hp & Hkm & Hke)]];
     [exfalso; apply (Hno i); [lia | reflexivity]
     |exists j; split; [apply reach_self; [lia | exact Hjm] | exact Hje]
     |]);
    pose proof (rk_mid k i ltac:(lia) Hi Hkm) as Hrk;
    destruct (child_entry k ltac:(lia) Hp) as [(cl & Hcl & Hml & Hrl) (cr & Hcr & Hmr & Hrr)];
    [lia|].
  assert (Hik : reach N parent mpos lpos rpos i k) by (apply reach_self; [lia | exact Hkm]).
  destruct Hke as [Hke | Hke].
  - destruct (IH cl ltac:(lia) Hcl) as (j & Hj & Hje).
    exists j. split; [apply (reach_extend cl j Hj i k Hik Hp); left; exact Hml|].
    rewrite Hke, <- Hml. exact Hje.
  - destruct (IH cr ltac:(lia) Hcr) as (j & Hj & Hje).
    exists j. split; [apply (reach_extend cr j Hj i k Hik Hp); right; exact Hmr|].
    rewrite Hke, <- Hmr. exact Hje.
Qed.
End Propagation.

(** *** The triangles of the table as a hierarchy *)

(** The id of a child: the bit of the bisection goes in front of the
    top bit. *)
Fixpoint snoc_bit (p : positive) (b : bool) : positive :=
  match p with
  | xH => if b then 3%positive else 2%positive
  | xO q => xO (snoc_bit q b)
  | xI q => xI (snoc_bit q b)
  end.

Lemma path_corners_snoc (q : positive) (b : bool) :
  forall t : corners, path_corners (snoc_bit q b) t = bisect (path_corners q t) b.
Proof.
  induction q as [q IH | q IH |]; intros t; cbn [snoc_bit path_corners];
    [apply IH | apply IH | destruct b; reflexivity].
Qed.

Lemma corners_of_snoc (tileSize : Z) (p : positive) (b : bool) :
  p <> 1%positive -> corners_of tileSize (snoc_bit p b) = bisect (corners_of tileSize p) b.
Proof.
  destruct p as [q | q |]; [| |congruence]; intros _; cbn [snoc_bit corners_of];
    apply path_corners_snoc.
Qed.

Lemma size_snoc_bit (p : positive) (b : bool) :
  Pos.size_nat (snoc_bit p b) = S (Pos.size_nat p).
Proof.
  induction p as [q IH | q IH |]; cbn [snoc_bit Pos.size_nat];
    [rewrite IH; reflexivity | rewrite IH; reflexivity | destruct b; reflexivity].
Qed.

Lemma log2_snoc_bit (p : positive) (b : bool) :
  p <> 1%positive -> Z.log2 (Z.pos (snoc_bit p b)) = Z.log2 (Z.pos p) + 1.
Proof.
  intros Hp.
  assert (Hs : snoc_bit p b <> 1%positive) by (destruct p, b; discriminate).
  pose proof (log2_size_nat _ Hs) as H1. pose proof (log2_size_nat _ Hp) as H2.
  rewrite size_snoc_bit in H1.
  pose proof (Z.log2_nonneg (Z.pos (snoc_bit p b))). pose proof (Z.log2_nonneg (Z.pos p)).
  lia.
Qed.

Definition tri (n : nat) (i : Z) : corners :=
  corners_of (2 ^ Z.of_nat n) (Z.to_pos (i + 2)).

Definition num_triangles (n : nat) : Z := 2 ^ Z.of_nat n * 2 ^ Z.of_nat n * 2 - 2.

Definition num_parents (n : nat) : Z := num_triangles n - 2 ^ Z.of_nat n * 2 ^ Z.of_nat n.

(** [i < NumParentTriangles] (line 122). *)
Definition is_parent (n : nat) (i : Z) : bool := i <? num_parents n.

(** The entries of the grid vertices [a], [b], of the hypotenuse
    midpoint, and of the hypotenuse midpoints of the two children. *)
Definition a_pos (n : nat) (i : Z) : nat :=
  pos (2 ^ Z.of_nat n + 1) (c_ax (tri n i)) (c_ay (tri n i)).
Definition b_pos (n : nat) (i : Z) : nat :=
  pos (2 ^ Z.of_nat n + 1) (c_bx (tri n i)) (c_by (tri n i)).
Definition mid_pos (n : nat) (i : Z) : nat :=
  pos (2 ^ Z.of_nat n + 1) (mid_x (tri n i)) (mid_y (tri n i)).
Definition left_pos (n : nat) (i : Z) : nat :=
  pos (2 ^ Z.of_nat n + 1) (mid_x (left_half (tri n i))) (mid_y (left_half (tri n i))).
Definition right_pos (n : nat) (i : Z) : nat :=
  pos (2 ^ Z.of_nat n + 1) (mid_x (right_half (tri n i))) (mid_y (right_half (tri n i))).

(** The interpolation error of table entry [i]. *)
Definition local_error (n : nat) (terrain : list float) (i : Z) : float :=
  middle_error terrain (a_pos n i) (b_pos n i) (mid_pos n i).

(** [feeds n i j]: the interpolation error of entry [j] is propagated
    to the hypotenuse midpoint of entry [i]. *)
Definition feeds (n : nat) : Z -> Z -> Prop :=
  reach (num_triangles n) (is_parent n) (mid_pos n) (left_pos n) (right_pos n).

Lemma is_parent_rank (n : nat) (i : Z) :
  0 <= i < num_triangles n -> is_parent n i = (2 <=? rank n i)%nat.
Proof. intros Hi. unfold is_parent, num_parents, num_triangles. apply parent_rank, Hi. Qed.

Lemma tri_mid_class (n : nat) (i : Z) :
  0 <= i < num_triangles n ->
  mid_class (rank n i - 1) (mid_x (tri n i)) (mid_y (tri n i))
  /\ 0 <= mid_x (tri n i) <= 2 ^ Z.of_nat n /\ 0 <= mid_y (tri n i) <= 2 ^ Z.of_nat n.
Proof.
  intros Hi. destruct (table_shape n i Hi) as [Hs Hr]. fold (tri n i) in Hs.
  split; [|apply (mid_in_box _ _ (shape_in_box _ _ _ Hs))].
  destruct (rank n i) as [|d]; [lia|]. replace (S d - 1)%nat with d by lia.
  apply (shape_mid_class _ _ _ Hs).
Qed.

Lemma tri_child_mid_class (n : nat) (i : Z) :
  0 <= i < num_triangles n -> is_parent n i = true ->
  let l := left_half (tri n i) in
  let r := right_half (tri n i) in
  (mid_class (rank n i - 2) (mid_x l) (mid_y l)
   /\ 0 <= mid_x l <= 2 ^ Z.of_nat n /\ 0 <= mid_y l <= 2 ^ Z.of_nat n)
  /\ (mid_class (rank n i - 2) (mid_x r) (mid_y r)
      /\ 0 <= mid_x r <= 2 ^ Z.of_nat n /\ 0 <= mid_y r <= 2 ^ Z.of_nat n).
Proof.
  intros Hi Hp l r. rewrite is_parent_rank in Hp by exact Hi. apply Nat.leb_le in Hp.
  destruct (table_shape n i Hi) as [Hs Hr]. fold (tri n i) in Hs.
  destruct (rank n i) as [|[|d]]; [lia | lia |].
  replace (S (S d) - 2)%nat with d by lia.
  destruct (shape_step _ _ _ Hs) as [Hl Hrr].
  split.
  - split; [apply (shape_mid_class _ _ _ Hl) | apply (mid_in_box _ _ (shape_in_box _ _ _ Hl))].
  - split; [apply (shape_mid_class _ _ _ Hrr) | apply (mid_in_box _ _ (shape_in_box _ _ _ Hrr))].
Qed.

Lemma rank_mono (n : nat) (i k : Z) : 0 <= i <= k -> (rank n k <= rank n i)%nat.
Proof.
  intros H. unfold rank.
  assert (Z.log2 (i + 2) <= Z.log2 (k + 2)) by (apply Z.log2_le_mono; lia).
  pose proof (Z.log2_nonneg (i + 2)). lia.
Qed.

Lemma tri_mid_lt (n : nat) (i : Z) :
  0 <= i < num_triangles n ->
  (mid_pos n i < Z.to_nat ((2 ^ Z.of_nat n + 1) * (2 ^ Z.of_nat n + 1)))%nat.
Proof.
  intros Hi. destruct (tri_mid_class n i Hi) as (_ & Hx & Hy).
  apply (pos_in_range n _ _ Hx Hy).
Qed.

(** The midpoint of a child is on a finer level than the midpoint of
    every triangle visited after its parent. *)
Lemma tri_child_apart (n : nat) (i k : Z) :
  0 <= i <= k -> k < num_triangles n -> is_parent n k = true ->
  mid_pos n i <> left_pos n k /\ mid_pos n i <> right_pos n k.
Proof.
  intros Hik Hk Hp.
  destruct (tri_mid_class n i ltac:(lia)) as (Hc & Hx & Hy).
  destruct (tri_child_mid_class n k ltac:(lia) Hp) as [(Hl & Hlx & Hly) (Hr & Hrx & Hry)].
  pose proof (rank_mono n i k Hik) as Hrk.
  assert (H2 : (2 <= rank n k)%nat)
    by (rewrite is_parent_rank in Hp by lia; apply Nat.leb_le, Hp).
  unfold mid_pos, left_pos, right_pos.
  split; intros Heq; apply pos_inj in Heq as [Ex Ey]; try lia.
  - rewrite Ex, Ey in Hc.
    apply (mid_class_apart (rank n k - 2) (rank n i - 1) _ _ ltac:(lia) Hl Hc).
  - rewrite Ex, Ey in Hc.
    apply (mid_class_apart (rank n k - 2) (rank n i - 1) _ _ ltac:(lia) Hr Hc).
Qed.

(** Triangles that share the hypotenuse are on the same level. *)
Lemma tri_rank_mid (n : nat) (i k : Z) :
  0 <= i < num_triangles n -> 0 <= k < num_triangles n ->
  mid_pos n i = mid_pos n k -> rank n i = rank n k.
Proof.
  intros Hi Hk Heq.
  destruct (tri_mid_class n i Hi) as (Hc & Hx & Hy).
  destruct (tri_mid_class n k Hk) as (Hc' & Hx' & Hy').
  destruct (table_shape n i Hi) as [_ Hr]. destruct (table_shape n k Hk) as [_ Hr'].
  unfold mid_pos in Heq. apply pos_inj in Heq as [Ex Ey]; try lia.
  rewrite Ex, Ey in Hc.
  destruct (lt_eq_lt_dec (rank n i) (rank n k)) as [[Hlt | Heq] | Hgt]; [|exact Heq|]; exfalso.
  - apply (mid_class_apart (rank n i - 1) (rank n k - 1) _ _ ltac:(lia) Hc Hc').
  - apply (mid_class_apart (rank n k - 1) (rank n i - 1) _ _ ltac:(lia) Hc' Hc).
Qed.

(** Both halves of a parent triangle are entries of the table. *)
Lemma tri_child (n : nat) (k : Z) (b : bool) :
  0 <= k < num_triangles n -> is_parent n k = true ->
  exists c, 0 <= c < num_triangles n /\ tri n c = bisect (tri n k) b
            /\ (rank n c < rank n k)%nat.
Proof.
  intros Hk Hp. rewrite is_parent_rank in Hp by exact Hk. apply Nat.leb_le in Hp.
  pose proof (log2_table_id n k Hk) as Hlog. unfold rank in Hp.
  set (p := Z.to_pos (k + 2)).
  assert (Hp1 : p <> 1%positive) by (unfold p; lia).
  assert (Hpz : Z.pos p = k + 2) by (unfold p; lia).
  pose proof (log2_snoc_bit p b Hp1) as Hl. rewrite Hpz in Hl.
  assert (Hlt : Z.pos (snoc_bit p b) < 2 ^ (2 * Z.of_nat n + 1)).
  { apply Z.log2_lt_pow2; lia. }
  assert (H4 : 2 ^ (2 * Z.of_nat n + 1) = 2 ^ Z.of_nat n * 2 ^ Z.of_nat n * 2).
  { rewrite Z.pow_add_r, Z.pow_mul_r by lia. change (2 ^ 2) with 4. change (2 ^ 1) with 2.
    rewrite <- Z.pow_mul_l. reflexivity. }
  assert (Hge : 2 <= Z.pos (snoc_bit p b)) by (destruct p, b; cbn [snoc_bit]; lia).
  exists (Z.pos (snoc_bit p b) - 2).
  split; [unfold num_triangles; lia|].
  replace (Z.pos (snoc_bit p b) - 2 + 2) with (Z.pos (snoc_bit p b)) by lia.
  split.
  - unfold tri. replace (Z.pos (snoc_bit p b) - 2 + 2) with (Z.pos (snoc_bit p b)) by lia.
    cbn [Z.to_pos]. fold p. apply corners_of_snoc, Hp1.
  - unfold rank. replace (Z.pos (snoc_bit p b) - 2 + 2) with (Z.pos (snoc_bit p b)) by lia.
    lia.
Qed.

Lemma tri_child_entry (n : nat) (k : Z) :
  0 <= k < num_triangles n -> is_parent n k = true ->
  (exists c, 0 <= c < num_triangles n /\ mid_pos n c = left_pos n k
             /\ (rank n c < rank n k)%nat)
  /\ (exists c, 0 <= c < num_triangles n /\ mid_pos n c = right_pos n k
                /\ (rank n c < rank n k)%nat).
Proof.
  intros Hk Hp.
  destruct (tri_child n k true Hk Hp) as (cl & Hcl & Htl & Hrl).
  destruct (tri_child n k false Hk Hp) as (cr & Hcr & Htr & Hrr).
  split; [exists cl | exists cr]; (split; [assumption|]); (split; [|assumption]).
  - unfold mid_pos, left_pos. rewrite Htl. reflexivity.
  - unfold mid_pos, right_pos. rewrite Htr. reflexivity.
Qed.

(** *** The loop of [Update] over the table *)

Definition tri_propagated (n : nat) (terrain : list float) : Z -> list float -> Prop :=
  propagated (num_triangles n) (a_pos n) (b_pos n) (mid_pos n) (left_pos n) (right_pos n)
             (is_parent n) terrain.

Lemma tri_step (n : nat) (terrain errors : list float) (i : Z) :
  (n <= 14)%nat ->
  Z.of_nat (length terrain) = (2 ^ Z.of_nat n + 1) * (2 ^ Z.of_nat n + 1) ->
  Z.of_nat (length errors) = (2 ^ Z.of_nat n + 1) * (2 ^ Z.of_nat n + 1) ->
  0 <= i < num_triangles n ->
  update_step (2 ^ Z.of_nat n + 1) (num_parents n)
              (coords_table (2 ^ Z.of_nat n) (num_triangles n)) terrain errors i
  = Ok (update_at (is_parent n i) terrain errors
          (a_pos n i) (b_pos n i) (mid_pos n i) (left_pos n i) (right_pos n i)).
Proof.
  intros Hn Ht He Hi. rewrite is_parent_rank by exact Hi.
  exact (table_step_exact n terrain errors i Ht He Hi Hn).
Qed.

Lemma update_loop_propagated (n : nat) (terrain : list float) :
  (n <= 14)%nat ->
  Z.of_nat (length terrain) = (2 ^ Z.of_nat n + 1) * (2 ^ Z.of_nat n + 1) ->
  (forall i, 0 <= i < num_triangles n -> is_nan (local_error n terrain i) = false) ->
  forall (lo : nat) (errors : list float),
    Z.of_nat lo <= num_triangles n ->
    Z.of_nat (length errors) = (2 ^ Z.of_nat n + 1) * (2 ^ Z.of_nat n + 1) ->
    tri_propagated n terrain (Z.of_nat lo) errors ->
    exists errors',
      foldM (update_step (2 ^ Z.of_nat n + 1) (num_parents n)
                         (coords_table (2 ^ Z.of_nat n) (num_triangles n)) terrain)
            (reverse (seqZ 0 (Z.of_nat lo))) errors
      = Ok errors'
      /\ tri_propagated n terrain 0 errors'.
Proof.
  intros Hn Ht Hnan. induction lo as [|lo IH]; intros errors Hlo He Hinv.
  - exists errors. split; [reflexivity | exact Hinv].
  - rewrite seqZ_S, reverse_snoc. cbn [foldM]. replace (0 + Z.of_nat lo) with (Z.of_nat lo) by lia.
    rewrite tri_step by (assumption || lia). cbn [bind].
    apply IH; [lia | rewrite length_update_at; exact He |].
    apply (propagated_step (num_triangles n) (a_pos n) (b_pos n) (mid_pos n)
             (left_pos n) (right_pos n) (is_parent n) terrain Hnan
             (tri_child_apart n) errors (Z.of_nat lo) ltac:(lia)).
    replace (Z.of_nat lo + 1) with (Z.of_nat (S lo)) by lia. exact Hinv.
Qed.

(** ** C1: the error field holds propagated maxima *)

(** C1 (amended). On a grid of size [2^n + 1] with [n <= 14], for a
    height field none of whose interpolation errors is NaN, [Update]
    leaves at the hypotenuse midpoint of every triangle [i] of the table
    the maximum of the interpolation errors over the triangles that feed
    it: the triangles with that midpoint, and, transitively, every
    triangle whose hypotenuse midpoint is the hypotenuse midpoint of a
    child of a parent triangle already reached - the sub-hierarchy below
    [i] and also the sub-hierarchies of the triangles that share a
    hypotenuse with one of its members. The stored value bounds each of
    these interpolation errors, is equal to one of them, and the error
    stored for a parent triangle is not below those stored for its two
    children. *)
Theorem errors_are_propagated_maxima (n : nat) (terrain : list float) :
  (n <= 14)%nat ->
  Z.of_nat (length terrain) = (2 ^ Z.of_nat n + 1) * (2 ^ Z.of_nat n + 1) ->
  (forall i, 0 <= i < num_triangles n -> is_nan (local_error n terrain i) = false) ->
  exists m t,
    NewMartini (2 ^ Z.of_nat n + 1) = Ok m
    /\ CreateTile m terrain = Ok t
    /\ forall i, 0 <= i < num_triangles n ->
         feeds n i i
         /\ (forall j c, feeds n i j -> is_parent n j = true -> 0 <= c < num_triangles n ->
                         tri n c = left_half (tri n j) \/ tri n c = right_half (tri n j) ->
                         feeds n i c)
         /\ (forall j, feeds n i j ->
                       fle (local_error n terrain j) (fl_at (Errors t) (mid_pos n i)))
         /\ (exists j, feeds n i j
                       /\ fl_at (Errors t) (mid_pos n i) = local_error n terrain j)
         /\ (is_parent n i = true ->
             fle (fl_at (Errors t) (left_pos n i)) (fl_at (Errors t) (mid_pos n i))
             /\ fle (fl_at (Errors t) (right_pos n i)) (fl_at (Errors t) (mid_pos n i))).
Proof.
  intros Hn Hlen Hnan.
  pose proof (NewMartini_pow2 n) as Hm. cbn zeta in Hm.
  fold (num_triangles n) in Hm. fold (num_parents n) in Hm.
  pose proof (pow2_pos n) as Hp.
  set (size := 2 ^ Z.of_nat n + 1) in *.
  set (m := mkMartini size (num_triangles n) (num_parents n)
                      (replicate (Z.to_nat (size * size)) 0)
                      (coords_table (2 ^ Z.of_nat n) (num_triangles n))) in *.
  assert (HN : 0 <= num_triangles n) by (unfold num_triangles; nia).
  assert (Hinit : tri_propagated n terrain (Z.of_nat (Z.to_nat (num_triangles n)))
                    (replicate (length terrain) 0%float)).
  { rewrite Z2Nat.id by exact HN. apply propagated_init. intros i Hi.
    pose proof (tri_mid_lt n i Hi) as Hlt. fold size in Hlt. lia. }
  destruct (update_loop_propagated n terrain Hn Hlen Hnan (Z.to_nat (num_triangles n))
              (replicate (length terrain) 0%float) ltac:(lia)
              ltac:(rewrite length_replicate; exact Hlen) Hinit) as (errors & Hloop & Hfin).
  rewrite Z2Nat.id in Hloop by exact HN. fold size in Hloop.
  exists m, (mkTile terrain m errors). split; [exact Hm|]. split.
  { unfold CreateTile, NewTile. cbn [GridSize m].
    destruct (Z.eqb_spec (Z.of_nat (length terrain)) (size * size)) as [_ | Hne];
      [|contradiction].
    cbn [negb]. unfold make. destruct (Z.ltb_spec (Z.of_nat (length terrain)) 0); [lia|].
    cbn [bind]. rewrite Nat2Z.id. unfold Update, update_errors.
    cbn [TileMartini Terrain Errors GridSize NumParentTriangles NumTriangles Coords m].
    rewrite Hloop. reflexivity. }
  intros i Hi. cbn [Errors].
  split; [apply reach_self; [exact Hi | reflexivity]|].
  split.
  { intros j c Hj Hpj Hc Htri. apply (reach_child _ _ _ _ _ _ j c Hj Hpj Hc).
    unfold mid_pos, left_pos, right_pos. destruct Htri as [-> | ->]; [left | right]; reflexivity. }
  split; [intros j Hj; apply (reach_bound _ _ _ _ _ _ _ _ _ Hfin i j Hj)|].
  split.
  { apply (reach_attained _ _ _ _ _ _ _ _ _ Hfin (rank n) (tri_rank_mid n)
             (tri_child_entry n) (rank n i) i (le_n _) Hi). }
  intros Hpi. destruct Hfin as (_ & _ & _ & H2 & _). apply (H2 i ltac:(lia) Hpi).
Qed.

Lemma errors_are_propagated_maxima_witness :
  (1 <= 14)%nat
  /\ Z.of_nat (length peak3) = (2 ^ Z.of_nat 1 + 1) * (2 ^ Z.of_nat 1 + 1)
  /\ (forall i, 0 <= i < num_triangles 1 -> is_nan (local_error 1 peak3 i) = false)
  /\ exists m t,
       NewMartini 3 = Ok m /\ CreateTile m peak3 = Ok t
       /\ exists j, feeds 1 0 j /\ fl_at (Errors t) (mid_pos 1 0) = local_error 1 peak3 j.
Proof.
  assert (H1 : (1 <= 14)%nat) by lia.
  assert (H2 : Z.of_nat (length peak3) = (2 ^ Z.of_nat 1 + 1) * (2 ^ Z.of_nat 1 + 1))
    by reflexivity.
  assert (H3 : forall i, 0 <= i < num_triangles 1 ->
                         is_nan (local_error 1 peak3 i) = false).
  { intros i Hi. change (num_triangles 1) with 6 in Hi.
    assert (Hc : i = 0 \/ i = 1 \/ i = 2 \/ i = 3 \/ i = 4 \/ i = 5) by lia.
    destruct Hc as [-> | [-> | [-> | [-> | [-> | ->]]]]]; vm_compute; reflexivity. }
  split; [exact H1|]. split; [exact H2|]. split; [exact H3|].
  destruct (errors_are_propagated_maxima 1 peak3 H1 H2 H3) as (m & t & Hm & Ht & Hall).
  exists m, t. split; [exact Hm|]. split; [exact Ht|].
  assert (H0 : 0 <= 0 < num_triangles 1) by (change (num_triangles 1) with 6; lia).
  destruct (Hall 0 H0) as (_ & _ & _ & Hex & _). exact Hex.
Defined.

(** The triangles of the sub-hierarchy rooted at [t], [d] levels deep. *)
Fixpoint subtree (d : nat) (t : corners) : list corners :=
  match d with
  | O => [t]
  | S d' => t :: subtree d' (left_half t) ++ subtree d' (right_half t)
  end.

(** A height field on the grid of size 5 that is zero except for the
    height 2 at the vertex [(0, 1)]. *)
Definition spike5 : list float := <[5%nat := 2%float]> (replicate 25 0%float).

(** C1 (counterexample). On the grid of size 5 with the height field
    [spike5], the vertex [(2, 0)] (entry 2) is the hypotenuse midpoint
    of one triangle of the table, entry 5 with [a = (4,0)], [b = (0,0)],
    [c = (2,2)]. The sub-hierarchy rooted at it consists of the entries
    5, 13, 29, 21, 9, 25 and 17, and the interpolation error of each of
    them is 0; yet [Update] stores the error 2 at the vertex: it comes
    from entry 18, which lies outside that triangle and is a child of
    entry 10, the triangle on the other side of the hypotenuse of
    entry 9. *)
Lemma errors_exceed_sub_hierarchy :
  exists m t,
    NewMartini 5 = Ok m
    /\ CreateTile m spike5 = Ok t
    /\ filter (fun i => mid_pos 2 i = 2%nat) (seqZ 0 (num_triangles 2)) = [5]
    /\ tri 2 5 = mkCorners 4 0 0 0 2 2
    /\ subtree (rank 2 5 - 1) (tri 2 5) = map (tri 2) [5; 13; 29; 21; 9; 25; 17]
    /\ map (local_error 2 spike5) [5; 13; 29; 21; 9; 25; 17] = replicate 7 0%float
    /\ fl_at (Errors t) 2 = 2%float
    /\ local_error 2 spike5 18 = 2%float
    /\ mid_pos 2 9 = mid_pos 2 10
    /\ mid_pos 2 18 = right_pos 2 10.
Proof.
  eexists. eexists.
  split; [vm_compute; reflexivity|]. split; [vm_compute; reflexivity|].
  split; [vm_compute; reflexivity|]. split; [vm_compute; reflexivity|].
  split; [vm_compute; reflexivity|]. split; [vm_compute; reflexivity|].
  split; [vm_compute; reflexivity|]. split; [vm_compute; reflexivity|].
  split; vm_compute; reflexivity.
Qed.

(** * Further properties of the code *)

(** ** What [NewMartini] builds *)

(** X1. For every grid size [2^n + 1] with [n <= 22] (the tables
    within the allocation limit of [make] on a 64-bit platform),
    [NewMartini] returns a table with [2 * tileSize^2 - 2] triangles of
    which [tileSize^2 - 2] are parents (for the grid of size 2: no
    triangle, and a parent count of [-1]), a zeroed [Indices] slice with
    one entry for each grid vertex, and a [Coords] slice of four uint16
    entries for each triangle. *)
Theorem NewMartini_builds_table (n : nat) :
  let tileSize := 2 ^ Z.of_nat n in
  (n <= 22)%nat ->
  exists m,
    NewMartini (tileSize + 1) = Ok m
    /\ GridSize m = tileSize + 1
    /\ NumTriangles m = 2 * tileSize * tileSize - 2
    /\ NumParentTriangles m = tileSize * tileSize - 2
    /\ Z.of_nat (length (Indices m)) = (tileSize + 1) * (tileSize + 1)
    /\ (forall v, v ∈ Indices m -> v = 0)
    /\ Z.of_nat (length (Coords m)) = 4 * NumTriangles m
    /\ (forall v, v ∈ Coords m -> 0 <= v < 65536).
Proof.
  intros tileSize _.
  pose proof (NewMartini_pow2 n) as Hm. cbn zeta in Hm. fold tileSize in Hm.
  pose proof (pow2_pos n) as Hp. fold tileSize in Hp.
  eexists. split; [exact Hm|].
  cbn [GridSize NumTriangles NumParentTriangles Indices Coords].
  split; [reflexivity|]. split; [lia|]. split; [lia|].
  split; [rewrite length_replicate; nia|].
  split; [intros v Hv; apply elem_of_replicate in Hv as [-> _]; reflexivity|].
  split; [rewrite length_coords_table by nia; lia|].
  intros v Hv. unfold coords_table in Hv.
  apply list_elem_of_In, in_flat_map in Hv as (i & _ & Hv).
  unfold coords_entry in Hv. cbn [In] in Hv.
  destruct Hv as [<- | [<- | [<- | [<- | []]]]]; apply u16_range.
Qed.

Lemma NewMartini_builds_table_witness :
  (1 <= 22)%nat
  /\ exists m, NewMartini 3 = Ok m /\ NumTriangles m = 6 /\ NumParentTriangles m = 2.
Proof.
  assert (H1 : (1 <= 22)%nat) by lia.
  split; [exact H1|].
  destruct (NewMartini_builds_table 1 H1) as (m & Hm & _ & Ht & Hp & _).
  exists m. split; [exact Hm|]. split; [exact Ht | exact Hp].
Defined.

(** ** The hierarchy inside the table *)

Lemma pos_snoc_bit (p : positive) (b : bool) :
  Z.pos (snoc_bit p b) = Z.pos p + (if b then 2 else 1) * 2 ^ Z.log2 (Z.pos p).
Proof.
  induction p as [q IH | q IH |]; cbn [snoc_bit].
  - rewrite (Pos2Z.inj_xI (snoc_bit q b)), IH, (Pos2Z.inj_xI q).
    rewrite Z.log2_succ_double by lia.
    rewrite Z.pow_succ_r by apply Z.log2_nonneg. destruct b; lia.
  - rewrite (Pos2Z.inj_xO (snoc_bit q b)), IH, (Pos2Z.inj_xO q).
    rewrite Z.log2_double by lia.
    rewrite Z.pow_succ_r by apply Z.log2_nonneg. destruct b; lia.
  - destruct b; reflexivity.
Qed.

(** X2. The two halves of a parent triangle are entries of the table
    themselves: with [step] the largest power of two not above the id
    [i + 2], the right half of entry [i] is entry [i + step] and the left
    half is entry [i + 2 * step]. Both lie after [i] and inside the
    table, so the descending loop of [Update] has visited both children
    of a triangle when it reaches the triangle. *)
Theorem table_children_entries (n : nat) (i : Z) :
  let tileSize := 2 ^ Z.of_nat n in
  let numTriangles := tileSize * tileSize * 2 - 2 in
  let numParentTriangles := numTriangles - tileSize * tileSize in
  let step := 2 ^ Z.log2 (i + 2) in
  0 <= i < numParentTriangles ->
  exists t,
    triangle_corners tileSize i = Ok t
    /\ i < i + step < i + 2 * step
    /\ i + 2 * step < numTriangles
    /\ triangle_corners tileSize (i + 2 * step) = Ok (left_half t)
    /\ triangle_corners tileSize (i + step) = Ok (right_half t).
Proof.
  intros tileSize numTriangles numParentTriangles step Hi.
  pose proof (pow2_pos n) as Hts. fold tileSize in Hts.
  assert (Hr : 0 <= i < numTriangles) by (unfold numParentTriangles in Hi; nia).
  pose proof (log2_table_id n i Hr) as Hlog.
  assert (Hpar : (2 <= rank n i)%nat).
  { apply Nat.leb_le. rewrite <- (parent_rank n i Hr). apply Z.ltb_lt. exact (proj2 Hi). }
  unfold rank in Hpar.
  set (p := Z.to_pos (i + 2)).
  assert (Hp1 : p <> 1%positive) by (unfold p; lia).
  assert (Hpz : Z.pos p = i + 2) by (unfold p; lia).
  assert (Hstep : 0 < step) by (apply Z.pow_pos_nonneg; lia).
  assert (Hle : step <= i + 2) by (apply Z.log2_spec; lia).
  assert (Hl : Z.pos (snoc_bit p true) = i + 2 * step + 2)
    by (rewrite pos_snoc_bit, Hpz; fold step; lia).
  assert (Hrr : Z.pos (snoc_bit p false) = i + step + 2)
    by (rewrite pos_snoc_bit, Hpz; fold step; lia).
  assert (H4 : 2 ^ (2 * Z.of_nat n + 1) = tileSize * tileSize * 2).
  { rewrite Z.pow_add_r, Z.pow_mul_r by lia. change (2 ^ 2) with 4. change (2 ^ 1) with 2.
    unfold tileSize. rewrite <- Z.pow_mul_l. reflexivity. }
  assert (Hlt : Z.pos (snoc_bit p true) < 2 ^ (2 * Z.of_nat n + 1)).
  { apply Z.log2_lt_pow2; [lia|]. rewrite log2_snoc_bit by exact Hp1. rewrite Hpz. lia. }
  exists (corners_of tileSize p).
  split; [apply triangle_corners_spec; lia|]. split; [lia|]. split; [lia|].
  rewrite !triangle_corners_spec by lia.
  replace (Z.to_pos (i + 2 * step + 2)) with (snoc_bit p true) by lia.
  replace (Z.to_pos (i + step + 2)) with (snoc_bit p false) by lia.
  rewrite !corners_of_snoc by exact Hp1. split; reflexivity.
Qed.

Lemma table_children_entries_witness :
  0 <= 5 < 2 ^ Z.of_nat 2 * 2 ^ Z.of_nat 2 * 2 - 2 - 2 ^ Z.of_nat 2 * 2 ^ Z.of_nat 2
  /\ triangle_corners 4 13 = Ok (left_half (mkCorners 4 0 0 0 2 2))
  /\ triangle_corners 4 9 = Ok (right_half (mkCorners 4 0 0 0 2 2)).
Proof.
  assert (H : 0 <= 5 < 2 ^ Z.of_nat 2 * 2 ^ Z.of_nat 2 * 2 - 2
                      - 2 ^ Z.of_nat 2 * 2 ^ Z.of_nat 2) by (cbn; lia).
  split; [exact H|].
  destruct (table_children_entries 2 5 H) as (t & Ht & _ & _ & Hl & Hr).
  assert (E : t = mkCorners 4 0 0 0 2 2).
  { change (2 ^ Z.of_nat 2) with 4 in Ht. vm_compute in Ht. congruence. }
  subst t. split; [exact Hl | exact Hr].
Defined.

(** ** [Update] indexes inside its slices *)

(** An iteration of [Update] returns on every grid: up to tile size
    [2^14] its uint16 locals are the exact midpoints, and above that
    the wrapped values are still vertices of the (larger) grid. *)
Lemma update_step_total (n : nat) (terrain errors : list float) (i : Z) :
  let tileSize := 2 ^ Z.of_nat n in
  Z.of_nat (length terrain) = (tileSize + 1) * (tileSize + 1) ->
  Z.of_nat (length errors) = (tileSize + 1) * (tileSize + 1) ->
  0 <= i < num_triangles n ->
  exists errors',
    update_step (tileSize + 1) (num_parents n) (coords_table tileSize (num_triangles n))
                terrain errors i = Ok errors'
    /\ length errors' = length errors.
Proof.
  intros tileSize Ht He Hi.
  destruct (le_lt_dec n 14) as [Hn | Hn].
  - eexists. split; [apply (tri_step n terrain errors i Hn Ht He Hi)|].
    apply length_update_at.
  - assert (Hbig : 32768 <= tileSize).
    { unfold tileSize. change 32768 with (2 ^ Z.of_nat 15). apply pow2_le_mono. lia. }
    destruct (table_shape n i Hi) as [Hs _]. fold tileSize in Hs.
    set (t := corners_of tileSize (Z.to_pos (i + 2))) in *.
    pose proof (shape_in_box _ _ _ Hs) as (Ha & Hb & Hc).
    destruct (table_entry_loads n [] [] i Hi) as (L0 & L1 & L2 & L3).
    fold tileSize t in L0, L1, L2, L3. fold (num_triangles n) in L0, L1, L2, L3.
    pose proof (u16_le (c_ax t)). pose proof (u16_le (c_ay t)).
    pose proof (u16_le (c_bx t)). pose proof (u16_le (c_by t)).
    assert (Hum : forall p q, 0 <= u_mid p q <= tileSize)
      by (intros p q; pose proof (u_mid_small p q); lia).
    eexists. split.
    + apply (update_step_in_range tileSize (num_parents n) _ terrain errors i _ _ _ _
               Ht He L0 L1 L2 L3); split; (apply Hum || lia).
    + apply length_update_at.
Qed.

Lemma update_errors_total (n : nat) (terrain : list float) :
  let tileSize := 2 ^ Z.of_nat n in
  Z.of_nat (length terrain) = (tileSize + 1) * (tileSize + 1) ->
  forall (lo : nat) (errors : list float),
    Z.of_nat lo <= num_triangles n ->
    Z.of_nat (length errors) = (tileSize + 1) * (tileSize + 1) ->
    exists errors',
      foldM (update_step (tileSize + 1) (num_parents n)
                         (coords_table tileSize (num_triangles n)) terrain)
            (reverse (seqZ 0 (Z.of_nat lo))) errors
      = Ok errors'
      /\ length errors' = length errors.
Proof.
  intros tileSize Ht. subst tileSize. induction lo as [|lo IH]; intros errors Hlo He.
  - exists errors. split; reflexivity.
  - rewrite seqZ_S, reverse_snoc. cbn [foldM].
    replace (0 + Z.of_nat lo) with (Z.of_nat lo) by lia.
    destruct (update_step_total n terrain errors (Z.of_nat lo) Ht He ltac:(lia))
      as (e1 & -> & Hl1).
    cbn [bind]. destruct (IH e1 ltac:(lia) ltac:(lia)) as (e2 & -> & Hl2).
    exists e2. split; [reflexivity | lia].
Qed.

(** X3. [CreateTile] on the table of a grid of size [2^n + 1] with
    [n <= 22] returns the length error when the height field has not
    one value for each grid vertex, and a tile otherwise - no index of
    [Update] leaves its slice, for any heights. The tile holds the
    height field and the table it was given, and an error field with
    one entry for each grid vertex. *)
Theorem CreateTile_returns (n : nat) (terrain : list float) :
  let size := 2 ^ Z.of_nat n + 1 in
  (n <= 22)%nat ->
  exists m,
    NewMartini size = Ok m
    /\ (Z.of_nat (length terrain) <> size * size ->
        CreateTile m terrain = Err "Expected terrain data of length ")
    /\ (Z.of_nat (length terrain) = size * size ->
        exists t,
          CreateTile m terrain = Ok t
          /\ Terrain t = terrain
          /\ TileMartini t = m
          /\ length (Errors t) = length terrain).
Proof.
  intros size _. pose proof (NewMartini_pow2 n) as Hm. cbn zeta in Hm.
  fold (num_triangles n) in Hm. fold (num_parents n) in Hm. fold size in Hm.
  pose proof (pow2_pos n) as Hp.
  eexists. split; [exact Hm|].
  unfold CreateTile, NewTile. cbn [GridSize].
  split; intros Hlen.
  - destruct (Z.eqb_spec (Z.of_nat (length terrain)) (size * size)) as [E | _];
      [contradiction | reflexivity].
  - destruct (Z.eqb_spec (Z.of_nat (length terrain)) (size * size)) as [_ | E];
      [|contradiction].
    cbn [negb]. unfold make. destruct (Z.ltb_spec (Z.of_nat (length terrain)) 0); [lia|].
    cbn [bind]. rewrite Nat2Z.id. unfold Update, update_errors.
    cbn [TileMartini Terrain Errors GridSize NumParentTriangles NumTriangles Coords].
    assert (HN : 0 <= num_triangles n) by (unfold num_triangles; nia).
    destruct (update_errors_total n terrain Hlen (Z.to_nat (num_triangles n))
                (replicate (length terrain) 0%float) ltac:(lia)
                ltac:(rewrite length_replicate; exact Hlen)) as (errors & Hloop & Hl).
    rewrite Z2Nat.id in Hloop by exact HN. fold size in Hloop. rewrite Hloop. cbn [bind].
    eexists. split; [reflexivity|]. cbn [Terrain TileMartini Errors].
    split; [reflexivity|]. split; [reflexivity|].
    rewrite Hl. apply length_replicate.
Qed.

Lemma CreateTile_returns_witness :
  (1 <= 22)%nat
  /\ exists m t, NewMartini 3 = Ok m /\ CreateTile m peak3 = Ok t /\ Terrain t = peak3.
Proof.
  assert (H1 : (1 <= 22)%nat) by lia.
  split; [exact H1|].
  destruct (CreateTile_returns 1 peak3 H1) as (m & Hm & _ & Hok).
  destruct (Hok eq_refl) as (t & Ht & Hterrain & _).
  exists m, t. split; [exact Hm|]. split; [exact Ht | exact Hterrain].
Defined.

(** ** [math.Max] of an error and a value it bounds *)

Lemma SF_le_not_lt_eq (a b : spec_float) :
  SFleb a b = true -> SFltb a b = false ->
  SFeqb b (S754_zero false) && SFeqb b a = false -> a = b.
Proof.
  unfold SFleb, SFltb, SFeqb.
  destruct a as [sa|sa| |sa ma ea], b as [sb|sb| |sb mb eb];
    cbn [SFcompare]; try discriminate; sf_cases.
Qed.

(** A float that [math.Abs] leaves alone: no negative number and not
    the negative zero. *)
Definition nonneg (x : float) : Prop := goabs x = x.

Lemma nonneg_goabs (z : float) : nonneg (goabs z).
Proof.
  unfold nonneg, goabs. apply Prim2SF_inj. rewrite !FloatAxioms.abs_spec.
  destruct (Prim2SF z); reflexivity.
Qed.

Lemma nonneg_zero : nonneg 0.
Proof. reflexivity. Qed.

Lemma gomax_absorb (x y : float) :
  is_nan x = false -> is_nan y = false -> nonneg x -> fle y x -> gomax x y = x.
Proof.
  intros Hx Hy Hax Hle. unfold gomax.
  destruct (PrimFloat.eqb x infinity) eqn:Ex.
  { cbn [orb]. symmetry. apply eqb_infinity_eq, Ex. }
  unfold fle in Hle. rewrite FloatAxioms.leb_spec in Hle.
  destruct (PrimFloat.eqb y infinity) eqn:Ey.
  { exfalso. apply eqb_infinity_eq in Ey. subst y.
    rewrite FloatAxioms.eqb_spec in Ex.
    change (Prim2SF infinity) with (S754_infinity false) in Hle, Ex.
    unfold SFleb, SFeqb in *.
    destruct (Prim2SF x) as [b|b| |b m e]; cbn in Hle, Ex; try discriminate;
      destruct b; discriminate. }
  cbn [orb]. rewrite Hx, Hy. cbn [orb].
  destruct (PrimFloat.eqb x 0 && PrimFloat.eqb x y) eqn:Ez.
  - apply andb_true_iff in Ez as [Ez _].
    assert (E0 : x = 0%float).
    { apply Prim2SF_inj. change (Prim2SF 0) with (S754_zero false).
      rewrite FloatAxioms.eqb_spec in Ez. change (Prim2SF 0) with (S754_zero false) in Ez.
      pose proof (f_equal Prim2SF Hax) as H. unfold goabs in H.
      rewrite FloatAxioms.abs_spec in H. unfold SFeqb in Ez.
      destruct (Prim2SF x) as [b|b| |b m e]; cbn in Ez, H; try discriminate;
        try (symmetry; exact H); destruct b; discriminate. }
    subst x. reflexivity.
  - destruct (PrimFloat.ltb y x) eqn:El; [reflexivity|].
    apply Prim2SF_inj. rewrite FloatAxioms.ltb_spec in El.
    rewrite !FloatAxioms.eqb_spec in Ez. change (Prim2SF 0) with (S754_zero false) in Ez.
    apply (SF_le_not_lt_eq _ _ Hle El Ez).
Qed.

(** ** [Update] on a tile that already holds errors *)

Section Accumulation.
Variable N : Z.
Variables apos bpos mpos lpos rpos : Z -> nat.
Variable parent : Z -> bool.
Variable terrain : list float.

Let loc (i : Z) : float := middle_error terrain (apos i) (bpos i) (mpos i).
Let step (E : list float) (i : Z) : list float :=
  update_at (parent i) terrain E (apos i) (bpos i) (mpos i) (lpos i) (rpos i).

Hypothesis loc_not_nan : forall i, 0 <= i < N -> is_nan (loc i) = false.
Hypothesis child_apart :
  forall i k, 0 <= i <= k -> k < N -> parent k = true ->
              mpos i <> lpos k /\ mpos i <> rpos k.

(** What holds of every entry and of the interpolation error holds of
    every entry after the iteration. *)
Lemma step_entries (P : float -> Prop) (E : list float) (i : Z) :
  0 <= i < N -> (mpos i < length E)%nat -> (forall p, is_nan (fl_at E p) = false) ->
  (forall p, P (fl_at E p)) -> P (loc i) -> forall p, P (fl_at (step E i) p).
Proof.
  intros Hi Hm Hnn HP Hloc p.
  destruct (step_value N apos bpos mpos lpos rpos parent terrain loc_not_nan child_apart
              E i Hi Hm Hnn) as (v & Hs & _ & _ & _ & _ & Hc & _).
  fold (step E i) in Hs. rewrite Hs, fl_at_insert by exact Hm.
  case_decide; [|apply HP].
  destruct Hc as [-> | [-> | [_ [-> | ->]]]]; first [apply HP | exact Hloc].
Qed.

(** The state of the loop started on the error field [E0], when the
    entries [lo .. N-1] have been visited. *)
Definition accumulated (E0 : list float) (lo : Z) (E : list float) : Prop :=
  length E = length E0 /\
  (forall i, 0 <= i < N -> (mpos i < length E)%nat) /\
  (forall p, is_nan (fl_at E p) = false) /\
  (forall p, fle (fl_at E0 p) (fl_at E p)) /\
  (forall j, lo <= j < N -> fle (loc j) (fl_at E (mpos j))) /\
  (forall k, lo <= k < N -> parent k = true ->
             fle (fl_at E (lpos k)) (fl_at E (mpos k))
             /\ fle (fl_at E (rpos k)) (fl_at E (mpos k))) /\
  (forall p, (forall j, lo <= j < N -> mpos j <> p) -> fl_at E p = fl_at E0 p).

Lemma accumulated_init (E0 : list float) :
  (forall i, 0 <= i < N -> (mpos i < length E0)%nat) ->
  (forall p, is_nan (fl_at E0 p) = false) ->
  accumulated E0 N E0.
Proof.
  intros Hlen Hnn. split; [reflexivity|]. split; [exact Hlen|]. split; [exact Hnn|].
  split; [intros p; apply fle_refl, Hnn|].
  split; [intros j Hj; lia|]. split; [intros k Hk; lia|]. intros p _. reflexivity.
Qed.

Lemma accumulated_step (E0 E : list float) (i : Z) :
  0 <= i < N -> accumulated E0 (i + 1) E -> accumulated E0 i (step E i).
Proof.
  intros Hi (Hl0 & Hlen & Hnn & Hge & H1 & H2 & Hun).
  destruct (step_value N apos bpos mpos lpos rpos parent terrain loc_not_nan child_apart
              E i Hi (Hlen i Hi) Hnn) as (v & Hs & Hv & Hmv & Hlv & Hpv & _ & _).
  fold (step E i) in Hs. rewrite Hs.
  pose proof (Hlen i Hi) as Hm.
  assert (Hat : forall p, fl_at (<[mpos i := v]> E) p
                          = if decide (p = mpos i) then v else fl_at E p)
    by (intros p; apply fl_at_insert; exact Hm).
  assert (Hmono : forall p, fle (fl_at E p) (fl_at (<[mpos i := v]> E) p)).
  { intros p. rewrite Hat. case_decide as Hp; [subst p; exact Hmv | apply fle_refl, Hnn]. }
  assert (Hchild : forall k, i <= k < N -> parent k = true ->
             fl_at (<[mpos i := v]> E) (lpos k) = fl_at E (lpos k)
             /\ fl_at (<[mpos i := v]> E) (rpos k) = fl_at E (rpos k)).
  { intros k Hk Hp. destruct (child_apart i k ltac:(lia) ltac:(lia) Hp) as [Al Ar].
    rewrite !Hat, !decide_False by congruence. split; reflexivity. }
  split; [rewrite length_insert; exact Hl0|].
  split; [intros j Hj; rewrite length_insert; apply Hlen, Hj|].
  split; [intros p; rewrite Hat; case_decide; [exact Hv | apply Hnn]|].
  split; [intros p; apply fle_trans with (fl_at E p); [apply Hge | apply Hmono]|].
  split.
  { intros j Hj. destruct (Z.eq_dec j i) as [-> | Hne].
    - rewrite Hat, decide_True by reflexivity. exact Hlv.
    - apply fle_trans with (fl_at E (mpos j)); [apply H1; lia | apply Hmono]. }
  split.
  { intros k Hk Hp. destruct (Hchild k Hk Hp) as [-> ->].
    destruct (Z.eq_dec k i) as [-> | Hne].
    - rewrite Hat, decide_True by reflexivity. apply Hpv, Hp.
    - destruct (H2 k ltac:(lia) Hp) as [Hl Hr].
      split; [apply fle_trans with (fl_at E (mpos k)) | apply fle_trans with (fl_at E (mpos k))];
        first [assumption | apply Hmono]. }
  intros p Hp. rewrite Hat, decide_False.
  - apply Hun. intros j Hj. apply Hp. lia.
  - intros ->. apply (Hp i); [lia | reflexivity].
Qed.

(** An iteration on an error field that already bounds the
    interpolation error and the errors of the children writes back what
    it has read. *)
Lemma step_fixed (E : list float) (i : Z) :
  0 <= i < N -> (mpos i < length E)%nat ->
  (forall p, is_nan (fl_at E p) = false) -> (forall p, nonneg (fl_at E p)) ->
  fle (loc i) (fl_at E (mpos i)) ->
  (parent i = true -> fle (fl_at E (lpos i)) (fl_at E (mpos i))
                      /\ fle (fl_at E (rpos i)) (fl_at E (mpos i))) ->
  step E i = E.
Proof.
  intros Hi Hm Hnn Hpos Hloc Hch. pose proof (loc_not_nan i Hi) as Hn.
  assert (Hid : <[mpos i := fl_at E (mpos i)]> E = E).
  { apply list_insert_id. unfold fl_at.
    destruct (lookup_lt_is_Some_2 E (mpos i) Hm) as [x ->]. reflexivity. }
  unfold step, update_at. change (goabs _) with (loc i).
  rewrite (gomax_absorb _ _ (Hnn _) Hn (Hpos _) Hloc), Hid.
  destruct (parent i); [|reflexivity].
  destruct (Hch eq_refl) as [Hl Hr].
  rewrite (gomax_absorb _ _ (Hnn _) (Hnn _) (Hpos _) Hl).
  rewrite (gomax_absorb _ _ (Hnn _) (Hnn _) (Hpos _) Hr). exact Hid.
Qed.
End Accumulation.

(** The fields of a table that [Update] reads, as [NewMartini] builds
    them for the grid of tile size [2^n]. *)
Definition table_of (n : nat) (m : Martini) : Prop :=
  GridSize m = 2 ^ Z.of_nat n + 1 /\
  NumTriangles m = num_triangles n /\
  NumParentTriangles m = num_parents n /\
  Coords m = coords_table (2 ^ Z.of_nat n) (num_triangles n).

Definition tri_accumulated (n : nat) (terrain : list float)
    : list float -> Z -> list float -> Prop :=
  accumulated (num_triangles n) (a_pos n) (b_pos n) (mid_pos n) (left_pos n) (right_pos n)
              (is_parent n) terrain.

(** No hypotenuse midpoint is a corner of the grid. *)
Lemma tri_mid_not_corner (n : nat) (i x y : Z) :
  0 <= i < num_triangles n ->
  x = 0 \/ x = 2 ^ Z.of_nat n -> y = 0 \/ y = 2 ^ Z.of_nat n ->
  mid_pos n i <> pos (2 ^ Z.of_nat n + 1) x y.
Proof.
  intros Hi Hx Hy Heq. pose proof (pow2_pos n) as Hp.
  destruct (tri_mid_class n i Hi) as (Hc & Hmx & Hmy).
  destruct (table_shape n i Hi) as [_ Hr].
  unfold mid_pos in Heq. apply pos_inj in Heq as [Ex Ey]; try lia.
  rewrite Ex, Ey in Hc. clear Ex Ey Hmx Hmy.
  set (d := (rank n i - 1)%nat) in *.
  pose proof (Nat.div2_odd d) as Ed.
  assert (He : (Nat.div2 d < n)%nat) by (destruct (Nat.odd d); cbn [Nat.b2n] in Ed; lia).
  pose proof (pow2_pos (Nat.div2 d)) as Hg.
  assert (Heven : forall z, z = 0 \/ z = 2 ^ Z.of_nat n ->
                            even_mult (2 ^ Z.of_nat (Nat.div2 d)) z).
  { intros z [-> | ->]; [exists 0; lia|].
    apply (mult_coarser _ n _ He). left. exists 0. lia. }
  unfold mid_class in Hc. destruct (Nat.odd d).
  - destruct Hc as [Hox _]. apply (mult_parity _ x) with (2 := Hox); [lia | apply Heven, Hx].
  - destruct Hc as [[_ Hoy] | [Hox _]].
    + apply (mult_parity _ y) with (2 := Hoy); [lia | apply Heven, Hy].
    + apply (mult_parity _ x) with (2 := Hox); [lia | apply Heven, Hx].
Qed.

Lemma update_loop_accumulated (n : nat) (terrain E0 : list float) :
  (n <= 14)%nat ->
  Z.of_nat (length terrain) = (2 ^ Z.of_nat n + 1) * (2 ^ Z.of_nat n + 1) ->
  Z.of_nat (length E0) = (2 ^ Z.of_nat n + 1) * (2 ^ Z.of_nat n + 1) ->
  (forall i, 0 <= i < num_triangles n -> is_nan (local_error n terrain i) = false) ->
  forall (lo : nat) (errors : list float),
    Z.of_nat lo <= num_triangles n ->
    tri_accumulated n terrain E0 (Z.of_nat lo) errors ->
    exists errors',
      foldM (update_step (2 ^ Z.of_nat n + 1) (num_parents n)
                         (coords_table (2 ^ Z.of_nat n) (num_triangles n)) terrain)
            (reverse (seqZ 0 (Z.of_nat lo))) errors
      = Ok errors'
      /\ tri_accumulated n terrain E0 0 errors'.
Proof.
  intros Hn Ht He0 Hnan. induction lo as [|lo IH]; intros errors Hlo Hinv.
  - exists errors. split; [reflexivity | exact Hinv].
  - rewrite seqZ_S, reverse_snoc. cbn [foldM]. replace (0 + Z.of_nat lo) with (Z.of_nat lo) by lia.
    assert (He : Z.of_nat (length errors) = (2 ^ Z.of_nat n + 1) * (2 ^ Z.of_nat n + 1))
      by (destruct Hinv as (Hl & _); rewrite Hl; exact He0).
    rewrite tri_step by (assumption || lia). cbn [bind].
    apply IH; [lia|].
    apply (accumulated_step (num_triangles n) (a_pos n) (b_pos n) (mid_pos n)
             (left_pos n) (right_pos n) (is_parent n) terrain Hnan
             (tri_child_apart n) E0 errors (Z.of_nat lo) ltac:(lia)).
    replace (Z.of_nat lo + 1) with (Z.of_nat (S lo)) by lia. exact Hinv.
Qed.

(** X4. [Update] on a tile that already holds an error field (after the
    height field has been changed, say) accumulates: on a grid of tile
    size up to [2^14], with no NaN among the errors held and the
    interpolation errors of the heights, it changes nothing but
    [Errors], no entry of [Errors] gets smaller, and the new field
    bounds the interpolation error of every triangle and, for a parent
    triangle, the errors of its two children. The entries of the four
    grid corners are never written. *)
Theorem Update_accumulates (n : nat) (t : Tile) :
  let tileSize := 2 ^ Z.of_nat n in
  (n <= 14)%nat ->
  table_of n (TileMartini t) ->
  Z.of_nat (length (Terrain t)) = (tileSize + 1) * (tileSize + 1) ->
  Z.of_nat (length (Errors t)) = (tileSize + 1) * (tileSize + 1) ->
  (forall p, is_nan (fl_at (Errors t) p) = false) ->
  (forall i, 0 <= i < num_triangles n -> is_nan (local_error n (Terrain t) i) = false) ->
  exists t',
    Update t = Ok t'
    /\ Terrain t' = Terrain t
    /\ TileMartini t' = TileMartini t
    /\ length (Errors t') = length (Errors t)
    /\ (forall p, fle (fl_at (Errors t) p) (fl_at (Errors t') p))
    /\ (forall i, 0 <= i < num_triangles n ->
                  fle (local_error n (Terrain t) i) (fl_at (Errors t') (mid_pos n i)))
    /\ (forall i, 0 <= i < num_parents n ->
                  fle (fl_at (Errors t') (left_pos n i)) (fl_at (Errors t') (mid_pos n i))
                  /\ fle (fl_at (Errors t') (right_pos n i)) (fl_at (Errors t') (mid_pos n i)))
    /\ (forall x y, x = 0 \/ x = tileSize -> y = 0 \/ y = tileSize ->
                    fl_at (Errors t') (pos (tileSize + 1) x y)
                    = fl_at (Errors t) (pos (tileSize + 1) x y)).
Proof.
  intros tileSize Hn (Hg & HN & HP & HC) Ht He Hnn Hnan. subst tileSize.
  pose proof (pow2_pos n) as Hp.
  assert (HN0 : 0 <= num_triangles n) by (unfold num_triangles; nia).
  assert (Hinit : tri_accumulated n (Terrain t) (Errors t)
                    (Z.of_nat (Z.to_nat (num_triangles n))) (Errors t)).
  { rewrite Z2Nat.id by exact HN0. apply accumulated_init; [|exact Hnn]. intros i Hi.
    pose proof (tri_mid_lt n i Hi) as Hlt. lia. }
  destruct (update_loop_accumulated n (Terrain t) (Errors t) Hn Ht He Hnan
              (Z.to_nat (num_triangles n)) (Errors t) ltac:(lia) Hinit)
    as (errors & Hloop & Hl & _ & _ & Hge & H1 & H2 & Hun).
  rewrite Z2Nat.id in Hloop by exact HN0.
  exists (mkTile (Terrain t) (TileMartini t) errors).
  split.
  { unfold Update, update_errors. rewrite Hg, HN, HP, HC, Hloop. reflexivity. }
  cbn [Terrain TileMartini Errors].
  split; [reflexivity|]. split; [reflexivity|]. split; [exact Hl|]. split; [exact Hge|].
  split; [intros i Hi; apply H1; lia|].
  split.
  { intros i Hi. apply H2; [unfold num_parents in Hi; nia|].
    unfold is_parent. apply Z.ltb_lt. lia. }
  intros x y Hx Hy. apply Hun. intros j Hj. apply tri_mid_not_corner; [lia | exact Hx | exact Hy].
Qed.

Lemma Update_accumulates_witness :
  let t := mkTile peak3 (mkMartini 3 6 2 (replicate 9 0) (coords_table 2 6))
                  (replicate 9 5%float) in
  (1 <= 14)%nat
  /\ table_of 1 (TileMartini t)
  /\ Z.of_nat (length (Terrain t)) = (2 ^ Z.of_nat 1 + 1) * (2 ^ Z.of_nat 1 + 1)
  /\ Z.of_nat (length (Errors t)) = (2 ^ Z.of_nat 1 + 1) * (2 ^ Z.of_nat 1 + 1)
  /\ (forall p, is_nan (fl_at (Errors t) p) = false)
  /\ (forall i, 0 <= i < num_triangles 1 -> is_nan (local_error 1 (Terrain t) i) = false)
  /\ exists t', Update t = Ok t'
                /\ forall p, fle (fl_at (Errors t) p) (fl_at (Errors t') p).
Proof.
  intros t.
  assert (H1 : (1 <= 14)%nat) by lia.
  assert (H2 : table_of 1 (TileMartini t)) by (repeat split; reflexivity).
  assert (H3 : Z.of_nat (length (Terrain t)) = (2 ^ Z.of_nat 1 + 1) * (2 ^ Z.of_nat 1 + 1))
    by reflexivity.
  assert (H4 : Z.of_nat (length (Errors t)) = (2 ^ Z.of_nat 1 + 1) * (2 ^ Z.of_nat 1 + 1))
    by reflexivity.
  assert (H5 : forall p, is_nan (fl_at (Errors t) p) = false).
  { intros p. unfold fl_at. cbn [Errors t].
    destruct (replicate 9 5%float !! p) as [x|] eqn:E; [|reflexivity].
    apply lookup_replicate in E as [-> _]. reflexivity. }
  assert (H6 : forall i, 0 <= i < num_triangles 1 ->
                         is_nan (local_error 1 (Terrain t) i) = false).
  { intros i Hi. change (num_triangles 1) with 6 in Hi.
    assert (Hc : i = 0 \/ i = 1 \/ i = 2 \/ i = 3 \/ i = 4 \/ i = 5) by lia.
    destruct Hc as [-> | [-> | [-> | [-> | [-> | ->]]]]]; vm_compute; reflexivity. }
  split; [exact H1|]. split; [exact H2|]. split; [exact H3|]. split; [exact H4|].
  split; [exact H5|]. split; [exact H6|].
  destruct (Update_accumulates 1 t H1 H2 H3 H4 H5 H6) as (t' & Hu & _ & _ & _ & Hge & _).
  exists t'. split; [exact Hu | exact Hge].
Defined.

(** ** [Update] a second time *)

Lemma update_loop_nonneg (n : nat) (terrain : list float) :
  (n <= 14)%nat ->
  Z.of_nat (length terrain) = (2 ^ Z.of_nat n + 1) * (2 ^ Z.of_nat n + 1) ->
  (forall i, 0 <= i < num_triangles n -> is_nan (local_error n terrain i) = false) ->
  forall (lo : nat) (errors errors' : list float),
    Z.of_nat lo <= num_triangles n ->
    Z.of_nat (length errors) = (2 ^ Z.of_nat n + 1) * (2 ^ Z.of_nat n + 1) ->
    (forall p, is_nan (fl_at errors p) = false /\ nonneg (fl_at errors p)) ->
    foldM (update_step (2 ^ Z.of_nat n + 1) (num_parents n)
                       (coords_table (2 ^ Z.of_nat n) (num_triangles n)) terrain)
          (reverse (seqZ 0 (Z.of_nat lo))) errors
    = Ok errors' ->
    forall p, nonneg (fl_at errors' p).
Proof.
  intros Hn Ht Hnan. induction lo as [|lo IH]; intros errors errors' Hlo He HP Hrun.
  - injection Hrun as <-. intros p. apply HP.
  - rewrite seqZ_S, reverse_snoc in Hrun. cbn [foldM] in Hrun.
    replace (0 + Z.of_nat lo) with (Z.of_nat lo) in Hrun by lia.
    rewrite tri_step in Hrun by (assumption || lia). cbn [bind] in Hrun.
    match type of Hrun with foldM _ _ ?E1 = _ => apply (IH E1 errors') end;
      [lia | rewrite length_update_at; exact He | | exact Hrun].
    assert (Hm : (mid_pos n (Z.of_nat lo) < length errors)%nat).
    { pose proof (tri_mid_lt n (Z.of_nat lo) ltac:(lia)). lia. }
    apply (step_entries (num_triangles n) (a_pos n) (b_pos n) (mid_pos n)
             (left_pos n) (right_pos n) (is_parent n) terrain Hnan (tri_child_apart n)
             (fun x => is_nan x = false /\ nonneg x) errors (Z.of_nat lo)
             ltac:(lia) Hm (fun p => proj1 (HP p)) HP).
    split; [apply Hnan; lia | apply nonneg_goabs].
Qed.

Lemma update_loop_fixed (n : nat) (terrain errors : list float) :
  (n <= 14)%nat ->
  Z.of_nat (length terrain) = (2 ^ Z.of_nat n + 1) * (2 ^ Z.of_nat n + 1) ->
  Z.of_nat (length errors) = (2 ^ Z.of_nat n + 1) * (2 ^ Z.of_nat n + 1) ->
  (forall i, 0 <= i < num_triangles n -> is_nan (local_error n terrain i) = false) ->
  tri_propagated n terrain 0 errors ->
  (forall p, nonneg (fl_at errors p)) ->
  forall lo : nat,
    Z.of_nat lo <= num_triangles n ->
    foldM (update_step (2 ^ Z.of_nat n + 1) (num_parents n)
                       (coords_table (2 ^ Z.of_nat n) (num_triangles n)) terrain)
          (reverse (seqZ 0 (Z.of_nat lo))) errors
    = Ok errors.
Proof.
  intros Hn Ht He Hnan (Hlen & Hnn & H1 & H2 & _) Hpos.
  induction lo as [|lo IH]; intros Hlo; [reflexivity|].
  rewrite seqZ_S, reverse_snoc. cbn [foldM]. replace (0 + Z.of_nat lo) with (Z.of_nat lo) by lia.
  rewrite tri_step by (assumption || lia). cbn [bind].
  rewrite (step_fixed (num_triangles n) (a_pos n) (b_pos n) (mid_pos n)
             (left_pos n) (right_pos n) (is_parent n) terrain Hnan errors (Z.of_nat lo)
             ltac:(lia) (Hlen (Z.of_nat lo) ltac:(lia)) Hnn Hpos
             (H1 (Z.of_nat lo) ltac:(lia)) (H2 (Z.of_nat lo) ltac:(lia))).
  apply IH. lia.
Qed.

(** X5. [Update] is idempotent on the tile [CreateTile] returns: on a
    grid of tile size up to [2^14], for a height field none of whose
    interpolation errors is NaN, a second [Update] returns the tile
    unchanged - every [math.Max] finds its first argument already at
    the maximum. *)
Theorem Update_is_idempotent (n : nat) (terrain : list float) :
  (n <= 14)%nat ->
  Z.of_nat (length terrain) = (2 ^ Z.of_nat n + 1) * (2 ^ Z.of_nat n + 1) ->
  (forall i, 0 <= i < num_triangles n -> is_nan (local_error n terrain i) = false) ->
  exists m t,
    NewMartini (2 ^ Z.of_nat n + 1) = Ok m
    /\ CreateTile m terrain = Ok t
    /\ Update t = Ok t.
Proof.
  intros Hn Hlen Hnan.
  pose proof (NewMartini_pow2 n) as Hm. cbn zeta in Hm.
  fold (num_triangles n) in Hm. fold (num_parents n) in Hm.
  pose proof (pow2_pos n) as Hp.
  set (size := 2 ^ Z.of_nat n + 1) in *.
  set (m := mkMartini size (num_triangles n) (num_parents n)
                      (replicate (Z.to_nat (size * size)) 0)
                      (coords_table (2 ^ Z.of_nat n) (num_triangles n))) in *.
  assert (HN : 0 <= num_triangles n) by (unfold num_triangles; nia).
  assert (Hl0 : Z.of_nat (length (replicate (length terrain) 0%float)) = size * size)
    by (rewrite length_replicate; exact Hlen).
  assert (Hz : forall p, fl_at (replicate (length terrain) 0%float) p = 0%float).
  { intros p. unfold fl_at.
    destruct (replicate (length terrain) 0%float !! p) as [x|] eqn:E; [|reflexivity].
    apply lookup_replicate in E as [-> _]. reflexivity. }
  assert (Hinit : tri_propagated n terrain (Z.of_nat (Z.to_nat (num_triangles n)))
                    (replicate (length terrain) 0%float)).
  { rewrite Z2Nat.id by exact HN. apply propagated_init. intros i Hi.
    pose proof (tri_mid_lt n i Hi) as Hlt. fold size in Hlt. lia. }
  destruct (update_loop_propagated n terrain Hn Hlen Hnan (Z.to_nat (num_triangles n))
              (replicate (length terrain) 0%float) ltac:(lia) Hl0 Hinit)
    as (errors & Hloop & Hfin).
  assert (Hpos : forall p, nonneg (fl_at errors p)).
  { apply (update_loop_nonneg n terrain Hn Hlen Hnan (Z.to_nat (num_triangles n))
             (replicate (length terrain) 0%float) errors ltac:(lia) Hl0); [|exact Hloop].
    intros p. rewrite Hz. split; reflexivity. }
  assert (Hle : Z.of_nat (length errors) = size * size).
  { destruct (update_errors_total n terrain Hlen (Z.to_nat (num_triangles n))
                (replicate (length terrain) 0%float) ltac:(lia) Hl0) as (e' & He' & Hl').
    unfold size in Hloop. rewrite Hloop in He'. injection He' as <-. rewrite Hl'. exact Hl0. }
  pose proof (update_loop_fixed n terrain errors Hn Hlen Hle Hnan Hfin Hpos
                (Z.to_nat (num_triangles n)) ltac:(lia)) as Hfix.
  rewrite Z2Nat.id in Hloop, Hfix by exact HN. fold size in Hloop, Hfix.
  exists m, (mkTile terrain m errors). split; [exact Hm|]. split.
  - unfold CreateTile, NewTile. cbn [GridSize m].
    destruct (Z.eqb_spec (Z.of_nat (length terrain)) (size * size)) as [_ | Hne];
      [|contradiction].
    cbn [negb]. unfold make. destruct (Z.ltb_spec (Z.of_nat (length terrain)) 0); [lia|].
    cbn [bind]. rewrite Nat2Z.id. unfold Update, update_errors.
    cbn [TileMartini Terrain Errors GridSize NumParentTriangles NumTriangles Coords m].
    rewrite Hloop. reflexivity.
  - unfold Update, update_errors.
    cbn [TileMartini Terrain Errors GridSize NumParentTriangles NumTriangles Coords m].
    rewrite Hfix. reflexivity.
Qed.

Lemma Update_is_idempotent_witness :
  (1 <= 14)%nat
  /\ Z.of_nat (length peak3) = (2 ^ Z.of_nat 1 + 1) * (2 ^ Z.of_nat 1 + 1)
  /\ (forall i, 0 <= i < num_triangles 1 -> is_nan (local_error 1 peak3 i) = false)
  /\ exists m t, NewMartini 3 = Ok m /\ CreateTile m peak3 = Ok t /\ Update t = Ok t.
Proof.
  assert (H1 : (1 <= 14)%nat) by lia.
  assert (H2 : Z.of_nat (length peak3) = (2 ^ Z.of_nat 1 + 1) * (2 ^ Z.of_nat 1 + 1))
    by reflexivity.
  assert (H3 : forall i, 0 <= i < num_triangles 1 ->
                         is_nan (local_error 1 peak3 i) = false).
  { intros i Hi. change (num_triangles 1) with 6 in Hi.
    assert (Hc : i = 0 \/ i = 1 \/ i = 2 \/ i = 3 \/ i = 4 \/ i = 5) by lia.
    destruct Hc as [-> | [-> | [-> | [-> | [-> | ->]]]]]; vm_compute; reflexivity. }
  split; [exact H1|]. split; [exact H2|]. split; [exact H3|].
  exact (Update_is_idempotent 1 peak3 H1 H2 H3).
Defined.

(** ** The triangles of a mesh *)









(** ** The vertex slots of a mesh *)

(** In the count with unbounded indices no entry exceeds the counter
    and no two entries hold the same number. *)
Definition distinctly_numbered (st : CountState) : Prop :=
  (forall (p : nat) (v : Z), cs_indices st !! p = Some v -> 0 <= v <= cs_numVertices st) /\
  (forall (p q : nat) (v : Z),
      cs_indices st !! p = Some v -> cs_indices st !! q = Some v -> v <> 0 -> p = q).

Lemma distinctly_count_vertex (p : nat) (st : CountState) :
  distinctly_numbered st -> distinctly_numbered (count_vertex_w id p st).
Proof.
  intros [Hle Hinj]. unfold count_vertex_w.
  destruct (cs_indices st !! p) as [v|] eqn:Hp; [|split; assumption].
  destruct (Z.eqb_spec v 0) as [-> | Hv]; [|split; assumption].
  assert (Hlt : (p < length (cs_indices st))%nat) by (eapply lookup_lt_Some; eassumption).
  unfold id, distinctly_numbered. cbn [cs_indices cs_numVertices]. split.
  - intros q x Hq. destruct (decide (q = p)) as [-> | Hne].
    + rewrite list_lookup_insert_eq in Hq by exact Hlt. injection Hq as <-.
      specialize (Hle _ _ Hp). lia.
    + rewrite list_lookup_insert_ne in Hq by congruence. specialize (Hle _ _ Hq). lia.
  - intros q1 q2 x H1 H2 Hx.
    destruct (decide (q1 = p)) as [-> | N1], (decide (q2 = p)) as [-> | N2].
    + reflexivity.
    + rewrite list_lookup_insert_eq in H1 by exact Hlt. injection H1 as <-.
      rewrite list_lookup_insert_ne in H2 by congruence. specialize (Hle _ _ H2). lia.
    + rewrite list_lookup_insert_eq in H2 by exact Hlt. injection H2 as <-.
      rewrite list_lookup_insert_ne in H1 by congruence. specialize (Hle _ _ H1). lia.
    + rewrite list_lookup_insert_ne in H1, H2 by congruence. exact (Hinj _ _ _ H1 H2 Hx).
Qed.

Lemma distinctly_count_pass (size : Z) (ls : list corners) :
  forall st : CountState,
    distinctly_numbered st -> distinctly_numbered (count_pass_w id size ls st).
Proof.
  unfold count_pass_w. induction ls as [|t ls IH]; intros st H; [exact H|].
  cbn [fold_left]. apply IH. unfold count_leaf_w.
  set (st3 := count_vertex_w id _ (count_vertex_w id _ (count_vertex_w id _ st))).
  assert (H3 : distinctly_numbered st3) by (unfold st3; do 3 apply distinctly_count_vertex; exact H).
  destruct H3 as [Hle Hinj]. split; [exact Hle | exact Hinj].
Qed.

Section VertexSlots.
Variable n : nat.
Variable indices : list Z.
Variable nv : Z.

Let tileSize : Z := 2 ^ Z.of_nat n.
Let size : Z := tileSize + 1.

Hypothesis grid_fits : tileSize <= 32768.
Hypothesis count_fits : 0 <= nv <= 32768.
Hypothesis indices_distinct :
  forall p q : nat, idx_at indices p <> 0 -> idx_at indices p = idx_at indices q -> p = q.

(** A grid vertex that has a number. *)
Definition numbered_vertex (xy : Z * Z) : Prop :=
  0 <= fst xy <= tileSize /\ 0 <= snd xy <= tileSize
  /\ 1 <= idx_at indices (pos size (fst xy) (snd xy)) <= nv.

(** The two slots of the vertex hold its coordinates. *)
Definition slots_hold (vs : list Z) (xy : Z * Z) : Prop :=
  let k := idx_at indices (pos size (fst xy) (snd xy)) - 1 in
  vs !! Z.to_nat (2 * k) = Some (fst xy) /\ vs !! Z.to_nat (2 * k + 1) = Some (snd xy).

Lemma put_vertex_exact (vs : list Z) (xy : Z * Z) :
  numbered_vertex xy ->
  let k := idx_at indices (pos size (fst xy) (snd xy)) - 1 in
  put_vertex vs (u16 k) (fst xy) (snd xy)
  = <[Z.to_nat (2 * k + 1) := snd xy]> (<[Z.to_nat (2 * k) := fst xy]> vs).
Proof.
  intros (Hx & Hy & Hk) k. unfold put_vertex. fold k in Hk.
  rewrite (u16_small k) by lia. rewrite (u16_small (2 * k)) by lia.
  rewrite (u16_small (2 * k + 1)) by lia.
  rewrite (u16_small (fst xy)), (u16_small (snd xy)) by lia. reflexivity.
Qed.

Lemma put_vertex_slots (vs : list Z) (xy : Z * Z) :
  numbered_vertex xy -> Z.of_nat (length vs) = 2 * nv ->
  slots_hold (put_vertex vs (u16 (idx_at indices (pos size (fst xy) (snd xy)) - 1))
                         (fst xy) (snd xy)) xy
  /\ forall xy', numbered_vertex xy' -> slots_hold vs xy' ->
                 slots_hold (put_vertex vs (u16 (idx_at indices (pos size (fst xy) (snd xy)) - 1))
                                        (fst xy) (snd xy)) xy'.
Proof.
  intros Hg Hlen. rewrite (put_vertex_exact vs xy Hg). cbn zeta.
  pose proof Hg as (Hx & Hy & Hk).
  set (k := idx_at indices (pos size (fst xy) (snd xy)) - 1) in *.
  assert (Hown : slots_hold (<[Z.to_nat (2 * k + 1) := snd xy]>
                               (<[Z.to_nat (2 * k) := fst xy]> vs)) xy).
  { unfold slots_hold. cbn zeta. fold k. split.
    - rewrite list_lookup_insert_ne by lia. apply list_lookup_insert_eq. lia.
    - apply list_lookup_insert_eq. rewrite length_insert. lia. }
  split; [exact Hown|].
  intros xy' Hg' Hh'. pose proof Hg' as (Hx' & Hy' & Hk').
  destruct (decide (pos size (fst xy') (snd xy') = pos size (fst xy) (snd xy))) as [Heq | Hne].
  - apply pos_inj in Heq as [Ex Ey]; try (unfold size; lia).
    assert (E : xy' = xy) by (destruct xy, xy'; cbn in *; congruence).
    rewrite E. exact Hown.
  - assert (Hk2 : idx_at indices (pos size (fst xy') (snd xy')) - 1 <> k).
    { intros E. apply Hne. apply indices_distinct; [lia | unfold k in E; lia]. }
    unfold slots_hold in *. cbn zeta in *.
    set (k' := idx_at indices (pos size (fst xy') (snd xy')) - 1) in *.
    rewrite !list_lookup_insert_ne by lia. exact Hh'.
Qed.

Lemma emit_leaf_slots (t : corners) (st : EmitState) :
  Forall numbered_vertex (corner_xy t) ->
  Z.of_nat (length (es_vertices st)) = 2 * nv ->
  Forall (slots_hold (es_vertices (emit_leaf_w size indices st t))) (corner_xy t)
  /\ forall xy', numbered_vertex xy' -> slots_hold (es_vertices st) xy' ->
                 slots_hold (es_vertices (emit_leaf_w size indices st t)) xy'.
Proof.
  intros Hg Hlen. unfold corner_xy in Hg.
  apply Forall_cons in Hg as [Ga Hg]. apply Forall_cons in Hg as [Gb Hg].
  apply Forall_cons in Hg as [Gc _].
  unfold emit_leaf_w. cbn [es_vertices].
  set (v0 := es_vertices st) in *.
  destruct (put_vertex_slots v0 (c_ax t, c_ay t) Ga Hlen) as [Oa Ka].
  cbn [fst snd] in Oa, Ka.
  set (v1 := put_vertex v0 _ (c_ax t) (c_ay t)) in *.
  assert (L1 : Z.of_nat (length v1) = 2 * nv) by (unfold v1; rewrite length_put_vertex; exact Hlen).
  destruct (put_vertex_slots v1 (c_bx t, c_by t) Gb L1) as [Ob Kb].
  cbn [fst snd] in Ob, Kb.
  set (v2 := put_vertex v1 _ (c_bx t) (c_by t)) in *.
  assert (L2 : Z.of_nat (length v2) = 2 * nv) by (unfold v2; rewrite length_put_vertex; exact L1).
  destruct (put_vertex_slots v2 (c_cx t, c_cy t) Gc L2) as [Oc Kc].
  cbn [fst snd] in Oc, Kc.
  split.
  - unfold corner_xy. repeat apply Forall_cons_2; [| | |apply Forall_nil_2].
    + apply Kc; [exact Ga|]. apply Kb; [exact Ga | exact Oa].
    + apply Kc; [exact Gb | exact Ob].
    + exact Oc.
  - intros xy' Hg' Hh'. apply Kc; [exact Hg'|]. apply Kb; [exact Hg'|]. apply Ka; assumption.
Qed.

Lemma emit_pass_slots (ls : list corners) :
  forall st : EmitState,
    Forall (fun t => Forall numbered_vertex (corner_xy t)) ls ->
    Z.of_nat (length (es_vertices st)) = 2 * nv ->
    Forall (fun t => Forall (slots_hold (es_vertices (emit_pass_w size indices ls st)))
                            (corner_xy t)) ls
    /\ forall xy', numbered_vertex xy' -> slots_hold (es_vertices st) xy' ->
                   slots_hold (es_vertices (emit_pass_w size indices ls st)) xy'.
Proof.
  unfold emit_pass_w. induction ls as [|t ls IH]; intros st Hg Hlen; cbn [fold_left].
  - split; [apply Forall_nil_2 | intros xy' _ H; exact H].
  - apply Forall_cons in Hg as [Gt Hg].
    destruct (emit_leaf_slots t st Gt Hlen) as [Ot Kt].
    assert (L1 : Z.of_nat (length (es_vertices (emit_leaf_w size indices st t))) = 2 * nv)
      by (rewrite length_vertices_emit_leaf_w; exact Hlen).
    destruct (IH _ Hg L1) as [Ols Kls].
    split.
    + apply Forall_cons_2; [|exact Ols].
      apply Forall_forall. intros xy Hxy.
      apply Kls; [exact (proj1 (Forall_forall _ _) Gt xy Hxy)|].
      exact (proj1 (Forall_forall _ _) Ot xy Hxy).
    + intros xy' Hg' Hh'. apply Kls; [exact Hg'|]. apply Kt; assumption.
Qed.
End VertexSlots.

Lemma distinctly_count_mesh (n : nat) (errors : list float) (maxError : float) :
  distinctly_numbered (count_mesh id n errors maxError).
Proof.
  unfold count_mesh. apply distinctly_count_pass. split; cbn [cs_indices cs_numVertices].
  - intros p v Hv. apply lookup_replicate in Hv as [-> _]. lia.
  - intros p q v Hp _ Hv. apply lookup_replicate in Hp as [-> _]. congruence.
Qed.

Lemma corner_xy_pos (size : Z) (t : corners) (xy : Z * Z) :
  xy ∈ corner_xy t -> pos size (fst xy) (snd xy) ∈ corner_pos size t.
Proof.
  unfold corner_xy, corner_pos. intros H.
  apply elem_of_cons in H as [-> | H]; [set_solver|].
  apply elem_of_cons in H as [-> | H]; [set_solver|].
  apply elem_of_cons in H as [-> | H]; [set_solver|].
  apply elem_of_nil in H. contradiction.
Qed.

Lemma corner_xy_in_box (tileSize : Z) (t : corners) (xy : Z * Z) :
  in_box tileSize t -> xy ∈ corner_xy t ->
  0 <= fst xy <= tileSize /\ 0 <= snd xy <= tileSize.
Proof.
  intros (Ha & Hb & Hc) H. unfold corner_xy in H.
  apply elem_of_cons in H as [-> | H]; [exact Ha|].
  apply elem_of_cons in H as [-> | H]; [exact Hb|].
  apply elem_of_cons in H as [-> | H]; [exact Hc|].
  apply elem_of_nil in H. contradiction.
Qed.

(** X8. A mesh of at most 32768 vertices on a grid of size up to 32769
    is indexed faithfully: [vertices] has two entries for each distinct
    corner, every entry of [triangles] is the 0-based number [k] of the
    corner it stands for, and the slots [2k] and [2k + 1] of [vertices]
    hold the coordinates of that corner. (Beyond these bounds the
    uint16 products [2 * a] and the uint16 coordinates wrap.) *)
Theorem mesh_vertices_hold_corners (n fuel : nat) (t : Tile) (maxError : float) :
  let sz := 2 ^ Z.of_nat n + 1 in
  let ls := mesh_leaves n (Errors t) maxError in
  let distinct := size (list_to_set (flat_map (corner_pos sz) ls) : gset nat) in
  tile_wf n t -> (2 * n < fuel)%nat -> (n <= 15)%nat -> Z.of_nat distinct <= 32768 ->
  exists mesh t',
    GetMesh fuel t maxError = Ok (mesh, t')
    /\ Z.of_nat (length (vertices mesh)) = 2 * Z.of_nat distinct
    /\ triangles mesh = flat_map (true_entry sz (Indices (TileMartini t'))) ls
    /\ forall l xy, l ∈ ls -> xy ∈ corner_xy l ->
         let k := idx_at (Indices (TileMartini t')) (pos sz (fst xy) (snd xy)) - 1 in
         0 <= k < Z.of_nat distinct
         /\ vertices mesh !! Z.to_nat (2 * k) = Some (fst xy)
         /\ vertices mesh !! Z.to_nat (2 * k + 1) = Some (snd xy).
Proof.
  intros sz ls distinct Hwf Hfuel Hn Hsmall.
  eexists. eexists. split; [apply (GetMesh_ok n); assumption|].
  cbn [with_indices TileMartini Indices triangles vertices]. fold sz ls.
  destruct (numVertices_distinct n (Errors t) maxError) as [Hd Hw].
  fold sz ls distinct in Hd, Hw.
  assert (E : count_mesh u16 n (Errors t) maxError = count_mesh id n (Errors t) maxError)
    by (apply Hw; right; lia).
  destruct (counted_count_mesh n (Errors t) maxError) as (Hmem & _ & Hle).
  fold sz ls in Hmem.
  destruct (distinctly_count_mesh n (Errors t) maxError) as [_ Hinj].
  pose proof (mesh_leaves_in_box n (Errors t) maxError) as Hbox. fold ls in Hbox.
  set (order := count_mesh id n (Errors t) maxError) in *.
  set (idx := cs_indices order) in *.
  assert (Hts : 2 ^ Z.of_nat n <= 32768).
  { change 32768 with (2 ^ Z.of_nat 15). apply pow2_le_mono. exact Hn. }
  assert (Hnum : forall l xy, l ∈ ls -> xy ∈ corner_xy l ->
                   numbered_vertex n idx (Z.of_nat distinct) xy).
  { intros l xy Hl Hxy.
    destruct (corner_xy_in_box _ l xy (proj1 (Forall_forall _ _) Hbox l Hl) Hxy) as [Hx Hy].
    split; [exact Hx|]. split; [exact Hy|].
    assert (Hin : pos sz (fst xy) (snd xy)
                  ∈ (list_to_set (flat_map (corner_pos sz) ls) : gset nat)).
    { apply elem_of_list_to_set, list_elem_of_In, in_flat_map. exists l.
      split; apply list_elem_of_In; [exact Hl | apply corner_xy_pos, Hxy]. }
    apply Hmem in Hin as (v & Hv & Hne). fold idx in Hv.
    specialize (Hle _ _ Hv). rewrite Hd in Hle. fold sz.
    unfold idx_at. rewrite Hv. cbn [default]. unfold id. lia. }
  assert (Hdist : forall p q : nat, idx_at idx p <> 0 -> idx_at idx p = idx_at idx q -> p = q).
  { intros p q Hp Heq. unfold idx_at in *.
    destruct (idx !! p) as [v|] eqn:Ep; cbn [default] in *; unfold id in *; [|congruence].
    destruct (idx !! q) as [w|] eqn:Eq; cbn [default] in *; unfold id in *; [|congruence].
    subst w. exact (Hinj _ _ _ Ep Eq Hp). }
  rewrite E. fold order idx.
  split.
  { rewrite length_vertices_emit_mesh, E. fold order. rewrite Hd. lia. }
  split.
  { assert (Hentry : forall l, l ∈ ls -> tri_entry sz idx l = true_entry sz idx l).
    { intros l Hl. unfold tri_entry, true_entry.
      pose proof (Hnum l (c_ax l, c_ay l) Hl ltac:(unfold corner_xy; set_solver)) as (_ & _ & Ha).
      pose proof (Hnum l (c_bx l, c_by l) Hl ltac:(unfold corner_xy; set_solver)) as (_ & _ & Hb).
      pose proof (Hnum l (c_cx l, c_cy l) Hl ltac:(unfold corner_xy; set_solver)) as (_ & _ & Hc).
      cbn [fst snd] in Ha, Hb, Hc. fold sz in Ha, Hb, Hc.
      rewrite !u16_small by lia. reflexivity. }
    clear -Hentry. induction ls as [|l ls' IH]; [reflexivity|]. cbn [flat_map].
    rewrite Hentry by set_solver. f_equal. apply IH. intros l' Hl'. apply Hentry. set_solver. }
  intros l xy Hl Hxy. cbn zeta.
  pose proof (Hnum l xy Hl Hxy) as (_ & _ & Hk). fold sz in Hk.
  split; [lia|].
  unfold emit_mesh. rewrite E. fold order idx sz ls.
  assert (Hall : Forall (fun l' => Forall (numbered_vertex n idx (Z.of_nat distinct))
                                          (corner_xy l')) ls).
  { apply Forall_forall. intros l' Hl'. apply Forall_forall. intros xy' Hxy'.
    exact (Hnum l' xy' Hl' Hxy'). }
  destruct (emit_pass_slots n idx (Z.of_nat distinct) Hts ltac:(lia) Hdist ls
              (mkEmit 0 (replicate (Z.to_nat (cs_numVertices order * 2)) 0)
                      (replicate (Z.to_nat (cs_numTriangles order * 3)) 0))
              Hall) as [Hheld _].
  { cbn [es_vertices]. rewrite length_replicate, Hd. lia. }
  pose proof (proj1 (Forall_forall _ _) (proj1 (Forall_forall _ _) Hheld l Hl) xy Hxy) as Hs.
  unfold slots_hold in Hs. cbn zeta in Hs. fold sz in Hs. exact Hs.
Qed.

Lemma mesh_vertices_hold_corners_witness :
  exists t : Tile,
    tile_wf 1 t /\ (2 * 1 < 3)%nat /\ (1 <= 15)%nat
    /\ Z.of_nat (size (list_to_set (flat_map (corner_pos 3) (mesh_leaves 1 (Errors t) 0))
                        : gset nat)) <= 32768
    /\ exists mesh t',
         GetMesh 3 t 0 = Ok (mesh, t')
         /\ triangles mesh
            = flat_map (true_entry 3 (Indices (TileMartini t'))) (mesh_leaves 1 (Errors t) 0).
Proof.
  exists (mkTile peak3 (mkMartini 3 6 2 (replicate 9 0) (coords_table 2 6))
                 [0; 2; 0; 0; 2; 0; 0; 0; 0]%float).
  set (t := mkTile peak3 (mkMartini 3 6 2 (replicate 9 0) (coords_table 2 6))
                   [0; 2; 0; 0; 2; 0; 0; 0; 0]%float).
  assert (Hwf : tile_wf 1 t) by (unfold tile_wf; cbn; repeat split; reflexivity).
  assert (Hs : Z.of_nat (size (list_to_set (flat_map (corner_pos 3)
                                              (mesh_leaves 1 (Errors t) 0)) : gset nat))
               <= 32768) by (vm_compute; discriminate).
  split; [exact Hwf|]. split; [lia|]. split; [lia|]. split; [exact Hs|].
  destruct (mesh_vertices_hold_corners 1 3 t 0%float Hwf ltac:(lia) ltac:(lia) Hs)
    as (mesh & t' & H1 & _ & H2 & _).
  exists mesh, t'. split; [exact H1 | exact H2].
Defined.

(** ** Which vertices a mesh has *)

Lemma SF_lt_le_trans (x y z : spec_float) :
  SFltb x y = true -> SFleb y z = true -> SFltb x z = true.
Proof.
  unfold SFleb, SFltb.
  destruct x as [sx|sx| |sx mx ex], y as [sy|sy| |sy my ey], z as [sz|sz| |sz mz ez];
    cbn [SFcompare]; try discriminate; sf_cases.
Qed.

(** [x > e] and [x <= y] give [y > e]. *)
Lemma fgt_fle_trans (x y e : float) : fgt x e = true -> fle x y -> fgt y e = true.
Proof.
  unfold fgt, fle. rewrite FloatAxioms.leb_spec, !FloatAxioms.ltb_spec. apply SF_lt_le_trans.
Qed.

(** Every corner of a leaf is a corner of the triangle the descent
    started from or the hypotenuse midpoint of a triangle that was
    split, where the error exceeds the threshold. *)
Lemma leaves_corner_origin (size : Z) (errors : list float) (maxError : float) (d : nat) :
  forall (t : corners) (p : nat),
    p ∈ flat_map (corner_pos size) (leaves_of d size errors maxError t) ->
    p ∈ corner_pos size t \/ fgt (fl_at errors p) maxError = true.
Proof.
  induction d as [|d IH]; intros t p Hp; cbn [leaves_of] in Hp.
  - cbn [flat_map] in Hp. rewrite app_nil_r in Hp. left. exact Hp.
  - destruct (split_at size errors maxError t) eqn:Es;
      [|cbn [flat_map] in Hp; rewrite app_nil_r in Hp; left; exact Hp].
    unfold split_at in Es. apply andb_true_iff in Es as [_ Hg].
    change (err_at size errors (mid_x t) (mid_y t))
      with (fl_at errors (pos size (mid_x t) (mid_y t))) in Hg.
    rewrite flat_map_app in Hp.
    apply elem_of_app in Hp as [Hp | Hp]; apply IH in Hp as [Hp | Hp]; try (right; exact Hp);
      unfold corner_pos, left_half, right_half in Hp;
      cbn [c_ax c_ay c_bx c_by c_cx c_cy] in Hp;
      (apply elem_of_cons in Hp as [-> | Hp]; [left; unfold corner_pos; set_solver|]);
      (apply elem_of_cons in Hp as [-> | Hp]; [left; unfold corner_pos; set_solver|]);
      apply list_elem_of_singleton in Hp as ->; right; exact Hg.
Qed.

Lemma unsnoc_bit (p : positive) : p <> 1%positive -> exists q b, p = snoc_bit q b.
Proof.
  induction p as [r IH | r IH |]; intros Hp; [| |congruence].
  - destruct (Pos.eq_dec r 1%positive) as [-> | Hr]; [exists 1%positive, true; reflexivity|].
    destruct (IH Hr) as (q & b & ->). exists (xI q), b. reflexivity.
  - destruct (Pos.eq_dec r 1%positive) as [-> | Hr]; [exists 1%positive, false; reflexivity|].
    destruct (IH Hr) as (q & b & ->). exists (xO q), b. reflexivity.
Qed.

(** Every entry of the table but the two roots is a half of an entry
    one level above it. *)
Lemma tri_parent (n : nat) (i : Z) :
  2 <= i < num_triangles n ->
  exists j b, 0 <= j < num_triangles n /\ rank n j = S (rank n i)
              /\ tri n i = bisect (tri n j) b.
Proof.
  intros Hi. pose proof (log2_table_id n i ltac:(unfold num_triangles in Hi; lia)) as Hlog.
  set (p := Z.to_pos (i + 2)).
  assert (Hpz : Z.pos p = i + 2) by (unfold p; lia).
  destruct (unsnoc_bit p ltac:(lia)) as (q & b & Hq).
  assert (Hq1 : q <> 1%positive).
  { intros ->. rewrite Hq in Hpz. destruct b; cbn in Hpz; lia. }
  pose proof (log2_snoc_bit q b Hq1) as Hl. rewrite <- Hq, Hpz in Hl.
  pose proof (pos_snoc_bit q b) as Hv. rewrite <- Hq, Hpz in Hv.
  assert (Hpow : 0 < 2 ^ Z.log2 (Z.pos q)) by (apply Z.pow_pos_nonneg; [lia | apply Z.log2_nonneg]).
  assert (Hq2 : 2 <= Z.pos q) by lia.
  exists (Z.pos q - 2), b.
  replace (Z.pos q - 2 + 2) with (Z.pos q) by lia.
  split; [destruct b; lia|]. split.
  - unfold rank. replace (Z.pos q - 2 + 2) with (Z.pos q) by lia.
    pose proof (Z.log2_nonneg (Z.pos q)). lia.
  - unfold tri. replace (Z.pos q - 2 + 2) with (Z.pos q) by lia. cbn [Z.to_pos].
    fold p. rewrite Hq. apply corners_of_snoc, Hq1.
Qed.

Lemma tri_roots (n : nat) :
  tri n 0 = root_corners (2 ^ Z.of_nat n) 0 /\ tri n 1 = root_corners (2 ^ Z.of_nat n) 1.
Proof. split; reflexivity. Qed.

Section MeshVertices.
Variable n : nat.
Variables terrain errors : list float.
Variable maxError : float.

Let tileSize : Z := 2 ^ Z.of_nat n.
Let size : Z := tileSize + 1.

Hypothesis final : tri_propagated n terrain 0 errors.

(** The error at the midpoint of a triangle bounds the error at the
    midpoint of each half. *)
Lemma exceeds_parent (i j : Z) (b : bool) :
  0 <= j < num_triangles n -> rank n j = S (rank n i) -> 0 <= i < num_triangles n ->
  tri n i = bisect (tri n j) b ->
  fgt (fl_at errors (mid_pos n i)) maxError = true ->
  fgt (fl_at errors (mid_pos n j)) maxError = true.
Proof.
  intros Hj Hr Hi Ht Hg. destruct final as (_ & _ & _ & H2 & _).
  destruct (table_shape n i Hi) as [_ Hri].
  assert (Hp : is_parent n j = true).
  { rewrite is_parent_rank by exact Hj. apply Nat.leb_le. lia. }
  destruct (H2 j ltac:(lia) Hp) as [Hl Hrr].
  apply (fgt_fle_trans _ _ _ Hg).
  unfold mid_pos at 1. rewrite Ht. destruct b; [exact Hl | exact Hrr].
Qed.

(** A triangle of the table at whose midpoint the error exceeds the
    threshold is met by the descent. *)
Lemma exceeding_reached (k : nat) :
  forall i, 0 <= i < num_triangles n -> (2 * n - rank n i = k)%nat ->
    fgt (fl_at errors (mid_pos n i)) maxError = true ->
    forall p,
      p ∈ flat_map (corner_pos size) (leaves_of (rank n i) size errors maxError (tri n i)) ->
      p ∈ flat_map (corner_pos size) (mesh_leaves n errors maxError).
Proof.
  induction k as [|k IH]; intros i Hi Hk Hg p Hp.
  - destruct (table_shape n i Hi) as [_ Hr].
    assert (Hrk : rank n i = (2 * n)%nat) by lia.
    assert (Hlog : Z.log2 (i + 2) = 1).
    { unfold rank in Hrk. pose proof (log2_table_id n i Hi). lia. }
    assert (Hi01 : i = 0 \/ i = 1).
    { destruct (Z.log2_spec (i + 2) ltac:(lia)) as [_ Hu]. rewrite Hlog in Hu.
      change (2 ^ Z.succ 1) with 4 in Hu. lia. }
    rewrite Hrk in Hp. unfold mesh_leaves. fold tileSize size. rewrite flat_map_app.
    apply elem_of_app. destruct (tri_roots n) as [R0 R1]. fold tileSize in R0, R1.
    destruct Hi01 as [-> | ->]; [right; rewrite <- R0 | left; rewrite <- R1]; exact Hp.
  - destruct (table_shape n i Hi) as [_ Hr].
    assert (Hi2 : 2 <= i).
    { destruct (Z_lt_le_dec i 2) as [Hlt | Hge]; [|exact Hge]. exfalso.
      assert (Hlog : Z.log2 (i + 2) = 1).
      { apply Z.log2_unique; [lia|]. change (2 ^ 1) with 2. change (2 ^ Z.succ 1) with 4. lia. }
      unfold rank in Hk. lia. }
    destruct (tri_parent n i ltac:(lia)) as (j & b & Hj & Hrj & Ht).
    pose proof (exceeds_parent i j b Hj Hrj Hi Ht Hg) as Hgj.
    apply (IH j Hj ltac:(lia) Hgj).
    destruct (table_shape n j Hj) as [Hsj _]. fold tileSize in Hsj. fold (tri n j) in Hsj.
    rewrite Hrj in Hsj |- *. cbn [leaves_of].
    assert (Es : split_at size errors maxError (tri n j) = true).
    { unfold split_at. apply andb_true_iff. split.
      - apply Z.gtb_lt. pose proof (manhattan_large _ _ _ Hsj) as Hm.
        unfold tri. fold tileSize. lia.
      - exact Hgj. }
    rewrite Es, flat_map_app. apply elem_of_app.
    rewrite Ht in Hp. destruct b; [left | right]; exact Hp.
Qed.

Lemma mesh_has_exceeding (i : Z) :
  0 <= i < num_triangles n ->
  (mid_pos n i ∈ flat_map (corner_pos size) (mesh_leaves n errors maxError)
   <-> fgt (fl_at errors (mid_pos n i)) maxError = true).
Proof.
  intros Hi. split.
  - unfold mesh_leaves. fold tileSize size. rewrite flat_map_app. intros Hp.
    assert (Hroot : forall id, mid_pos n i ∈ corner_pos size (root_corners tileSize id) -> False).
    { intros id Hc. unfold root_corners, corner_pos in Hc.
      destruct (Z.land id 1 >? 0); cbn [c_ax c_ay c_bx c_by c_cx c_cy] in Hc;
        repeat (apply elem_of_cons in Hc as [Hc | Hc];
                [revert Hc; apply tri_mid_not_corner; [exact Hi | tauto | tauto]|]);
        apply elem_of_nil in Hc; exact Hc. }
    apply elem_of_app in Hp as [Hp | Hp];
      apply leaves_corner_origin in Hp as [Hp | Hp]; try exact Hp;
      exfalso; exact (Hroot _ Hp).
  - intros Hg. apply (exceeding_reached (2 * n - rank n i) i Hi eq_refl Hg).
    destruct (table_shape n i Hi) as [Hs Hr]. fold tileSize in Hs. fold (tri n i) in Hs.
    destruct (rank n i) as [|d]; [lia|]. cbn [leaves_of].
    assert (Es : split_at size errors maxError (tri n i) = true).
    { unfold split_at. apply andb_true_iff. split.
      - apply Z.gtb_lt. pose proof (manhattan_large _ _ _ Hs) as Hm.
        unfold tri. fold tileSize. lia.
      - exact Hg. }
    rewrite Es, flat_map_app. apply elem_of_app. left.
    apply (corners_covered size errors 0%float 0%float eq_refl).
    unfold corner_pos, left_half, mid_pos.
    cbn [c_ax c_ay c_bx c_by c_cx c_cy]. fold tileSize size. set_solver.
Qed.
End MeshVertices.

(** A grid vertex in a triangle of the table is a corner of it or the
    hypotenuse midpoint of a triangle of the table. *)
Lemma inside_midpoint (n : nat) (x y : Z) (d : nat) :
  forall i, 0 <= i < num_triangles n -> (rank n i <= S d)%nat -> inside (tri n i) x y ->
    (x, y) ∈ corner_xy (tri n i)
    \/ exists j, 0 <= j < num_triangles n /\ (x, y) = (mid_x (tri n j), mid_y (tri n j)).
Proof.
  induction d as [|d IH]; intros i Hi Hr Hin;
    destruct (table_shape n i Hi) as [Hs Hr1]; fold (tri n i) in Hs.
  - assert (E : rank n i = 1%nat) by lia. rewrite E in Hs.
    destruct (shape_step _ _ _ Hs) as [Sl Sr].
    assert (H : (x, y) ∈ corner_xy (left_half (tri n i))
                \/ (x, y) ∈ corner_xy (right_half (tri n i))).
    { destruct (inside_step _ _ _ _ _ Hs Hin) as [H | H];
        [left; exact (inside_unit _ _ _ _ Sl H) | right; exact (inside_unit _ _ _ _ Sr H)]. }
    apply half_corner in H as [H | H]; [left; exact H | right; exists i; split; assumption].
  - destruct (le_lt_dec (rank n i) (S d)) as [Hle | Hgt]; [exact (IH i Hi Hle Hin)|].
    assert (E : rank n i = S (S d)) by lia. rewrite E in Hs.
    assert (Hp : is_parent n i = true).
    { rewrite is_parent_rank by exact Hi. apply Nat.leb_le. lia. }
    destruct (tri_child n i true Hi Hp) as (cl & Hcl & Htl & Hrl).
    destruct (tri_child n i false Hi Hp) as (cr & Hcr & Htr & Hrr).
    cbn [bisect] in Htl, Htr.
    assert (H : ((x, y) ∈ corner_xy (left_half (tri n i))
                 \/ (x, y) ∈ corner_xy (right_half (tri n i)))
                \/ exists j, 0 <= j < num_triangles n
                             /\ (x, y) = (mid_x (tri n j), mid_y (tri n j))).
    { destruct (inside_step _ _ _ _ _ Hs Hin) as [H | H].
      - rewrite <- Htl in H. destruct (IH cl Hcl ltac:(lia) H) as [H' | H'];
          [left; left; rewrite <- Htl; exact H' | right; exact H'].
      - rewrite <- Htr in H. destruct (IH cr Hcr ltac:(lia) H) as [H' | H'];
          [left; right; rewrite <- Htr; exact H' | right; exact H']. }
    destruct H as [H | H]; [|right; exact H].
    apply half_corner in H as [H | H]; [left; exact H | right; exists i; split; assumption].
Qed.

(** Every grid vertex but the four corners of the grid is the
    hypotenuse midpoint of a triangle of the table. *)
Lemma vertex_is_midpoint (n : nat) (x y : Z) :
  0 <= x <= 2 ^ Z.of_nat n -> 0 <= y <= 2 ^ Z.of_nat n ->
  ~ grid_corner (2 ^ Z.of_nat n) x y ->
  exists j, 0 <= j < num_triangles n /\ mid_pos n j = pos (2 ^ Z.of_nat n + 1) x y.
Proof.
  intros Hx Hy Hnc.
  destruct n as [|n']; [exfalso; apply Hnc; unfold grid_corner; cbn in Hx, Hy |- *; lia|].
  set (n := S n') in *.
  assert (Hts : 2 <= 2 ^ Z.of_nat n).
  { unfold n. rewrite Nat2Z.inj_succ, Z.pow_succ_r by apply Nat2Z.is_nonneg.
    pose proof (pow2_pos n'). lia. }
  assert (HN : 6 <= num_triangles n).
  { unfold num_triangles.
    assert (2 * 2 <= 2 ^ Z.of_nat n * 2 ^ Z.of_nat n) by (apply Z.mul_le_mono_nonneg; lia).
    lia. }
  destruct (tri_roots n) as [R0 R1].
  assert (Hrk : forall i, 0 <= i < num_triangles n -> (rank n i <= S (2 * n - 1))%nat).
  { intros i Hi. destruct (table_shape n i Hi) as [_ Hr]. lia. }
  assert (H0 : 0 <= 0 < num_triangles n) by lia.
  assert (H1 : 0 <= 1 < num_triangles n) by lia.
  assert (H : exists j, 0 <= j < num_triangles n
                        /\ (x, y) = (mid_x (tri n j), mid_y (tri n j))).
  { destruct (inside_roots _ x y Hx Hy) as [H | H].
    - rewrite <- R0 in H.
      destruct (inside_midpoint n x y _ 0 H0 (Hrk 0 H0) H) as [Hc | Hj]; [|exact Hj].
      rewrite R0 in Hc. destruct (Hnc (root_corner_grid _ _ _ _ Hc)).
    - rewrite <- R1 in H.
      destruct (inside_midpoint n x y _ 1 H1 (Hrk 1 H1) H) as [Hc | Hj]; [|exact Hj].
      rewrite R1 in Hc. destruct (Hnc (root_corner_grid _ _ _ _ Hc)). }
  destruct H as (j & Hj & E). exists j. split; [exact Hj|].
  injection E as -> ->. reflexivity.
Qed.

Lemma corner_pos_xy (tileSize : Z) (l : corners) (x y : Z) :
  in_box tileSize l -> 0 <= x <= tileSize -> 0 <= y <= tileSize ->
  pos (tileSize + 1) x y ∈ corner_pos (tileSize + 1) l -> (x, y) ∈ corner_xy l.
Proof.
  intros (Ha & Hb & Hc) Hx Hy H. unfold corner_pos in H. unfold corner_xy.
  apply elem_of_cons in H as [H | H];
    [apply pos_inj in H as [-> ->]; try lia; set_solver|].
  apply elem_of_cons in H as [H | H];
    [apply pos_inj in H as [-> ->]; try lia; set_solver|].
  apply list_elem_of_singleton in H.
  apply pos_inj in H as [-> ->]; try lia; set_solver.
Qed.

(** A vertex whose entry is among the corners of the leaves is a corner
    of a leaf. *)
Lemma leaf_corner_of_pos (n : nat) (errors : list float) (maxError : float) (x y : Z) :
  0 <= x <= 2 ^ Z.of_nat n -> 0 <= y <= 2 ^ Z.of_nat n ->
  pos (2 ^ Z.of_nat n + 1) x y
    ∈ flat_map (corner_pos (2 ^ Z.of_nat n + 1)) (mesh_leaves n errors maxError) ->
  exists l, l ∈ mesh_leaves n errors maxError /\ (x, y) ∈ corner_xy l.
Proof.
  intros Hx Hy H. apply list_elem_of_In, in_flat_map in H as (l & Hl & Hp).
  apply list_elem_of_In in Hl, Hp. exists l. split; [exact Hl|].
  pose proof (mesh_leaves_in_box n errors maxError) as Hbox.
  apply (corner_pos_xy _ l x y (proj1 (Forall_forall _ _) Hbox l Hl) Hx Hy Hp).
Qed.

(** The corners of the grid are corners of the leaves. *)
Lemma grid_corner_in_mesh (n : nat) (errors : list float) (maxError : float) (x y : Z) :
  grid_corner (2 ^ Z.of_nat n) x y ->
  pos (2 ^ Z.of_nat n + 1) x y
    ∈ flat_map (corner_pos (2 ^ Z.of_nat n + 1)) (mesh_leaves n errors maxError).
Proof.
  intros [Hx Hy]. unfold mesh_leaves. rewrite flat_map_app. apply elem_of_app.
  assert (H : pos (2 ^ Z.of_nat n + 1) x y
                ∈ corner_pos (2 ^ Z.of_nat n + 1) (root_corners (2 ^ Z.of_nat n) 1)
              \/ pos (2 ^ Z.of_nat n + 1) x y
                   ∈ corner_pos (2 ^ Z.of_nat n + 1) (root_corners (2 ^ Z.of_nat n) 0)).
  { rewrite root_corners_1, root_corners_0. unfold corner_pos.
    cbn [c_ax c_ay c_bx c_by c_cx c_cy].
    destruct Hx as [-> | ->], Hy as [-> | ->]; [left | right | left | left]; set_solver. }
  destruct H as [H | H]; [left | right];
    apply (corners_covered _ errors 0%float 0%float eq_refl); exact H.
Qed.

(** X9. For a tile that [CreateTile] returns (grid of size [2^n + 1]
    with [n <= 14], no interpolation error NaN), the vertices of the
    mesh [GetMesh] extracts are the four corners of the grid and the
    grid vertices whose stored error is strictly greater than
    [maxError]: a grid vertex is a corner of an emitted triangle exactly
    when it is one of these. *)
Theorem mesh_vertices_are_exceeding (n fuel : nat) (terrain : list float)
    (maxError : float) :
  let tileSize := 2 ^ Z.of_nat n in
  (n <= 14)%nat ->
  Z.of_nat (length terrain) = (tileSize + 1) * (tileSize + 1) ->
  (forall i, 0 <= i < num_triangles n -> is_nan (local_error n terrain i) = false) ->
  (2 * n < fuel)%nat ->
  exists m t mesh t',
    NewMartini (tileSize + 1) = Ok m
    /\ CreateTile m terrain = Ok t
    /\ GetMesh fuel t maxError = Ok (mesh, t')
    /\ triangles mesh
       = flat_map (tri_entry (tileSize + 1) (Indices (TileMartini t')))
                  (mesh_leaves n (Errors t) maxError)
    /\ forall x y, 0 <= x <= tileSize -> 0 <= y <= tileSize ->
         ((exists l, l ∈ mesh_leaves n (Errors t) maxError /\ (x, y) ∈ corner_xy l)
          <-> grid_corner tileSize x y
              \/ fgt (fl_at (Errors t) (pos (tileSize + 1) x y)) maxError = true).
Proof.
  intros tileSize Hn Hlen Hnan Hfuel. subst tileSize.
  pose proof (NewMartini_pow2 n) as Hm. cbn zeta in Hm.
  fold (num_triangles n) in Hm. fold (num_parents n) in Hm.
  pose proof (pow2_pos n) as Hp.
  set (size := 2 ^ Z.of_nat n + 1) in *.
  set (m := mkMartini size (num_triangles n) (num_parents n)
                      (replicate (Z.to_nat (size * size)) 0)
                      (coords_table (2 ^ Z.of_nat n) (num_triangles n))) in *.
  assert (HN : 0 <= num_triangles n) by (unfold num_triangles; nia).
  assert (Hinit : tri_propagated n terrain (Z.of_nat (Z.to_nat (num_triangles n)))
                    (replicate (length terrain) 0%float)).
  { rewrite Z2Nat.id by exact HN. apply propagated_init. intros i Hi.
    pose proof (tri_mid_lt n i Hi) as Hlt. fold size in Hlt. lia. }
  destruct (update_loop_propagated n terrain Hn Hlen Hnan (Z.to_nat (num_triangles n))
              (replicate (length terrain) 0%float) ltac:(lia)
              ltac:(rewrite length_replicate; exact Hlen) Hinit) as (errors & Hloop & Hfin).
  destruct (update_errors_total n terrain Hlen (Z.to_nat (num_triangles n))
              (replicate (length terrain) 0%float) ltac:(lia)
              ltac:(rewrite length_replicate; exact Hlen)) as (errors' & Hloop' & Hlen').
  rewrite Hloop in Hloop'. injection Hloop' as <-. rewrite length_replicate in Hlen'.
  rewrite Z2Nat.id in Hloop by exact HN. fold size in Hloop.
  set (t := mkTile terrain m errors).
  assert (Hwf : tile_wf n t).
  { unfold tile_wf. cbn [t m TileMartini GridSize Indices Errors]. fold size.
    split; [reflexivity|]. split; [rewrite length_replicate; nia | rewrite Hlen'; exact Hlen]. }
  exists m, t. eexists. eexists. split; [exact Hm|]. split.
  { unfold CreateTile, NewTile. cbn [GridSize m].
    destruct (Z.eqb_spec (Z.of_nat (length terrain)) (size * size)) as [_ | Hne];
      [|contradiction].
    cbn [negb]. unfold make. destruct (Z.ltb_spec (Z.of_nat (length terrain)) 0); [lia|].
    cbn [bind]. rewrite Nat2Z.id. unfold Update, update_errors.
    cbn [TileMartini Terrain Errors GridSize NumParentTriangles NumTriangles Coords m].
    rewrite Hloop. reflexivity. }
  split; [apply (GetMesh_ok n); assumption|].
  cbn [triangles with_indices TileMartini Indices Errors t]. split; [reflexivity|].
  intros x y Hx Hy. split.
  - intros (l & Hl & Hxy).
    assert (Hin : pos size x y ∈ flat_map (corner_pos size) (mesh_leaves n errors maxError)).
    { apply list_elem_of_In, in_flat_map. exists l.
      split; apply list_elem_of_In; [exact Hl | exact (corner_xy_pos size l (x, y) Hxy)]. }
    unfold mesh_leaves in Hin. fold size in Hin. rewrite flat_map_app in Hin.
    apply elem_of_app in Hin as [Hin | Hin];
      apply leaves_corner_origin in Hin as [Hin | Hin]; try (right; exact Hin); left.
    + apply (root_corner_grid _ 1). apply (corner_pos_xy (2 ^ Z.of_nat n) _ x y); try assumption.
      apply (shape_in_box (2 * n)), shape_root.
    + apply (root_corner_grid _ 0). apply (corner_pos_xy (2 ^ Z.of_nat n) _ x y); try assumption.
      apply (shape_in_box (2 * n)), shape_root.
  - intros H. apply leaf_corner_of_pos; try assumption.
    assert (Hdec : grid_corner (2 ^ Z.of_nat n) x y \/ ~ grid_corner (2 ^ Z.of_nat n) x y)
      by (unfold grid_corner; lia).
    destruct Hdec as [Hc | Hnc]; [apply grid_corner_in_mesh, Hc|].
    destruct H as [Hc | Hg]; [contradiction|].
    destruct (vertex_is_midpoint n x y Hx Hy Hnc) as (j & Hj & Ej).
    unfold size in Hg. rewrite <- Ej in Hg |- *.
    apply (mesh_has_exceeding n terrain errors maxError Hfin j Hj), Hg.
Qed.

Lemma mesh_vertices_are_exceeding_witness :
  (1 <= 14)%nat
  /\ Z.of_nat (length peak3) = (2 ^ Z.of_nat 1 + 1) * (2 ^ Z.of_nat 1 + 1)
  /\ (forall i, 0 <= i < num_triangles 1 -> is_nan (local_error 1 peak3 i) = false)
  /\ (2 * 1 < 3)%nat
  /\ exists m t mesh t',
       NewMartini 3 = Ok m /\ CreateTile m peak3 = Ok t
       /\ GetMesh 3 t 0 = Ok (mesh, t')
       /\ ((exists l, l ∈ mesh_leaves 1 (Errors t) 0 /\ (1, 0) ∈ corner_xy l)
           <-> grid_corner 2 1 0 \/ fgt (fl_at (Errors t) (pos 3 1 0)) 0 = true).
Proof.
  assert (H1 : (1 <= 14)%nat) by lia.
  assert (H2 : Z.of_nat (length peak3) = (2 ^ Z.of_nat 1 + 1) * (2 ^ Z.of_nat 1 + 1))
    by reflexivity.
  assert (H3 : forall i, 0 <= i < num_triangles 1 ->
                         is_nan (local_error 1 peak3 i) = false).
  { intros i Hi. change (num_triangles 1) with 6 in Hi.
    assert (Hc : i = 0 \/ i = 1 \/ i = 2 \/ i = 3 \/ i = 4 \/ i = 5) by lia.
    destruct Hc as [-> | [-> | [-> | [-> | [-> | ->]]]]]; vm_compute; reflexivity. }
  assert (H4 : (2 * 1 < 3)%nat) by lia.
  split; [exact H1|]. split; [exact H2|]. split; [exact H3|]. split; [exact H4|].
  destruct (mesh_vertices_are_exceeding 1 3 peak3 0%float H1 H2 H3 H4)
    as (m & t & mesh & t' & Hm & Ht & Hg & _ & Hall).
  exists m, t, mesh, t'. split; [exact Hm|]. split; [exact Ht|]. split; [exact Hg|].
  apply (Hall 1 0); change (2 ^ Z.of_nat 1) with 2; lia.
Defined.
